(** * A shallow embedding of the vector quotient filter (vqf_filter.c)

    The development follows the scalar build of [src/src/vqf_filter.c]
    ([TAG_BITS == 8], [VQF_USE_AVX] and [ENABLE_THREADS] undefined, so that
    [lock] and [unlock] have empty bodies).  Machine integers are integers of
    [Z] with their wrap-around written out; a block is a metadata word and a
    list of 28 sixteen-bit cells; the flexible array [blocks] is a list.
    Undefined behaviour of the C program (an access outside the storage of
    the filter or outside a table, a division by zero) is the [None] of the
    option monad; the one access of the source that leaves the array [tags]
    and stays inside the allocation, the read of [remove_tags_512] one cell
    past the array, is modelled as the read of that cell. *)

From Stdlib Require Import ZArith Lia Bool.
From stdpp Require Import base tactics option list.

Local Open Scope Z_scope.

(** ** Machine integers *)

Definition u8  (x : Z) : Z := x mod 2 ^ 8.
Definition u16 (x : Z) : Z := x mod 2 ^ 16.
Definition u32 (x : Z) : Z := x mod 2 ^ 32.
Definition u64 (x : Z) : Z := x mod 2 ^ 64.

Definition UINT64_MAX : Z := 2 ^ 64 - 1.

Definition TAG_BITS : Z := 8.
Definition TAG_MASK : Z := 0xff.
Definition QUQU_SLOTS_PER_BLOCK : Z := 28.
Definition QUQU_BUCKETS_PER_BLOCK : Z := 36.
Definition QUQU_CHECK_ALT : Z := 43.

Definition LOCK_MASK : Z := u64 (Z.shiftl 1 63).
Definition UNLOCK_MASK : Z := u64 (Z.lnot (Z.shiftl 1 63)).

(** ** Bit primitives *)

(** [rank x i] is the number of set bits of [x] at the positions below [i];
    the facts about the primitives are stated with it. *)
Fixpoint rank_nat (x : Z) (n : nat) : Z :=
  match n with
  | O => 0
  | S n' => rank_nat x n' + Z.b2z (Z.testbit x (Z.of_nat n'))
  end.

Definition rank (x i : Z) : Z := rank_nat x (Z.to_nat i).

(** [__builtin_popcountll]: the number of set bits of a [uint64_t], read
    off its binary representation. *)
Fixpoint pos_popcount (p : positive) : Z :=
  match p with
  | xH => 1
  | xO q => pos_popcount q
  | xI q => Z.succ (pos_popcount q)
  end.

Definition __builtin_popcountll (x : Z) : Z :=
  match x with
  | Zpos p => pos_popcount p
  | _ => 0
  end.

Definition word_rank (val : Z) : Z := __builtin_popcountll val.

(** [_pdep_u64 src mask]: the low bits of [src] are deposited, in order, at
    the positions of the set bits of [mask] (the loop of the instruction's
    definition, [m] the position in [mask] and [k] the position in [src]). *)
Fixpoint pdep_loop (n : nat) (m k : Z) (temp mask : Z) : Z :=
  match n with
  | O => 0
  | S n' =>
      if Z.testbit mask m
      then Z.lor (Z.shiftl (Z.b2z (Z.testbit temp k)) m)
                 (pdep_loop n' (m + 1) (k + 1) temp mask)
      else pdep_loop n' (m + 1) k temp mask
  end.

Definition _pdep_u64 (src mask : Z) : Z := pdep_loop 64 0 0 src mask.

(** [_pext_u64 src mask]: the bits of [src] at the positions of the set bits
    of [mask] are packed into the low bits of the result. *)
Fixpoint pext_loop (n : nat) (m k : Z) (temp mask : Z) : Z :=
  match n with
  | O => 0
  | S n' =>
      if Z.testbit mask m
      then Z.lor (Z.shiftl (Z.b2z (Z.testbit temp m)) k)
                 (pext_loop n' (m + 1) (k + 1) temp mask)
      else pext_loop n' (m + 1) k temp mask
  end.

Definition _pext_u64 (src mask : Z) : Z := pext_loop 64 0 0 src mask.

(** [_tzcnt_u64]: the number of trailing zero bits, 64 for the word 0. *)
Fixpoint tzcnt_loop (n : nat) (i : Z) (x : Z) : Z :=
  match n with
  | O => i
  | S n' => if Z.testbit x i then i else tzcnt_loop n' (i + 1) x
  end.

Definition _tzcnt_u64 (x : Z) : Z := tzcnt_loop 64 0 x.

(** [__builtin_ctzll] is only defined on a non-zero word. *)
Definition __builtin_ctzll (x : Z) : option Z :=
  if x =? 0 then None else Some (tzcnt_loop 64 0 x).

(** [__builtin_ffs] takes an [int]: one plus the index of the lowest set bit
    of the low 32 bits, and 0 when there is none. *)
Definition __builtin_ffs (x : Z) : Z :=
  let i := u32 x in
  if i =? 0 then 0 else tzcnt_loop 32 0 i + 1.

(** ** The tables of vqf_precompute.h *)

(** Modelled from the spec: the header vqf_precompute.h, which declares the
    table [one], is not among the sources.  The spec defines [select(x, k)]
    as the position of the [k]-th set bit of a 64-bit word, which
    [word_select] computes as [_tzcnt_u64 (_pdep_u64 one[k] x)]: entry [k] is
    the word with the single bit [k] set.  The spec gives no entry beyond
    the 64 positions of a word. *)
Definition one (rank : Z) : option Z :=
  if (0 <=? rank) && (rank <? 64) then Some (Z.shiftl 1 rank) else None.

(** Modelled from the spec: the header vqf_precompute.h, which declares the
    table [low_order_pdep_table], is not among the sources.  The spec
    describes [insert_md(md, p)] as inserting a zero at bit position [p],
    keeping [md[..p]] and shifting [md[p..]] left by one, and [remove_md] as
    its inverse; with [_pdep_u64] and [_pext_u64] that is the mask with every
    bit set except bit [p].  The spec gives no entry beyond the 64 positions
    of a word. *)
Definition low_order_pdep_table (index : Z) : option Z :=
  if (0 <=? index) && (index <? 64)
  then Some (Z.lxor UINT64_MAX (Z.shiftl 1 index)) else None.

(** Returns the position of the rank'th 1 (rank = 0 returns the first 1),
    and 64 if there are fewer than rank+1 ones. *)
Definition word_select (val rank : Z) : option Z :=
  o ← one rank; Some (_tzcnt_u64 (_pdep_u64 o val)).

Definition lookup_64 (vector rank : Z) : option Z :=
  o ← one rank;
  Some (u64 (Z.shiftl (Z.shiftr (_pdep_u64 o vector) rank) (8 / 2))).

Definition select_64 (vector rank : Z) : option Z :=
  l ← lookup_64 vector rank; Some (_tzcnt_u64 l).

(** The conversion of a [uint64_t] to [int], as the compiler makes it:
    the value reduced modulo [2 ^ 32] into the range of [int]. *)
Definition int_of_u64 (x : Z) : Z :=
  let y := u32 x in if y <? 2 ^ 31 then y else y - 2 ^ 32.

(** [select_128_old]: the vector is a [__uint128_t], [rank] a [uint64_t];
    the result of [word_select] plus 64 is returned as an [int64_t]. *)
Definition select_128_old (vector rank : Z) : option Z :=
  let lower_word := Z.land vector 0xffffffffffffffff in
  o ← one rank;
  let lower_pdep := _pdep_u64 o lower_word in
  if negb (lower_pdep =? 0) then Some (_tzcnt_u64 lower_pdep)
  else
    let rank := u64 (rank - word_rank lower_word) in
    let higher_word := u64 (Z.shiftr vector 64) in
    s ← word_select higher_word (int_of_u64 rank);
    Some (u64 (s + 64)).

(** ** Blocks and filters *)

Record vqf_block := mk_block {
  md : Z;
  tags : list Z
}.

Record vqf_metadata := mk_metadata {
  total_size_in_bytes : Z;
  key_remainder_bits : Z;
  range : Z;
  nblocks : Z;
  nelts : Z;
  nslots : Z
}.

Record vqf_filter := mk_filter {
  metadata : vqf_metadata;
  blocks : list vqf_block
}.

(** [sizeof(vqf_block)]: the packed structure is 8 + 28 * 2 bytes. *)
Definition sizeof_vqf_block : Z := 64.

(** [memmove] inside the array [tags], in cells: [n] cells from index [src]
    to index [dst].  The bytes read and the bytes written must lie inside
    the array. *)
Definition memmove_tags (tags : list Z) (dst src n : Z) : option (list Z) :=
  if n =? 0 then Some tags
  else if (src + n <=? Z.of_nat (length tags)) && (dst + n <=? Z.of_nat (length tags))
  then Some (take (Z.to_nat dst) tags
               ++ take (Z.to_nat n) (drop (Z.to_nat src) tags)
               ++ drop (Z.to_nat (dst + n)) tags)
  else None.

(** [block->tags[index] = tag] *)
Definition store_tag (tags : list Z) (index tag : Z) : option (list Z) :=
  if index <? Z.of_nat (length tags)
  then Some (<[Z.to_nat index := tag]> tags) else None.

(** The scalar [update_tags_512]; [index] is a [uint8_t], the length passed
    to [memmove] is computed in [size_t]. *)
Definition update_tags_512 (tags : list Z) (index tag : Z) : option (list Z) :=
  let index := u8 (index - 4) in
  let bytes := u64 (u64 (QUQU_SLOTS_PER_BLOCK - index - 1) * 2) in
  tags' ← memmove_tags tags (index + 1) index (bytes / 2);
  store_tag tags' index tag.

(** [memmove] that reads past the array [tags]: [n] cells from index [src]
    to index [dst].  The structure is packed and the blocks lie one after
    the other in one allocation, so that the cell read at index 28 is
    [after], the two low bytes of the metadata word of the next block (the
    target of the intrinsics is little-endian); [after] is [None] where
    the allocation ends with the array.  The bytes read must lie inside
    the array and that cell, the bytes written inside the array. *)
Definition memmove_past (tags : list Z) (after : option Z) (dst src n : Z)
  : option (list Z) :=
  let memory := tags ++ option_list after in
  if n =? 0 then Some tags
  else if (src + n <=? Z.of_nat (length memory)) && (dst + n <=? Z.of_nat (length tags))
  then Some (take (Z.to_nat dst) tags
               ++ take (Z.to_nat n) (drop (Z.to_nat src) memory)
               ++ drop (Z.to_nat (dst + n)) tags)
  else None.

(** The scalar [remove_tags_512]; [index] is a [uint8_t], the length passed
    to [memmove] is computed in [size_t].  The move ends one cell past the
    array: [after] is that cell. *)
Definition remove_tags_512 (tags : list Z) (after : option Z) (index : Z)
  : option (list Z) :=
  let index := u8 (index - 4) in
  let bytes := u64 (u64 (QUQU_SLOTS_PER_BLOCK - index) * 2) in
  memmove_past tags after index (index + 1) (bytes / 2).

Definition update_md (md index : Z) : option Z :=
  mask ← low_order_pdep_table index; Some (_pdep_u64 md mask).

Definition remove_md (md index : Z) : option Z :=
  mask ← low_order_pdep_table index;
  Some (Z.lor (_pext_u64 md mask) (Z.shiftl 1 63)).

(** number of 0s in the metadata is the number of tags. *)
Definition get_block_free_space (vector : Z) : Z := word_rank vector.

(** ** Construction *)

(** [vqf_init].  [malloc] does not initialise the storage it returns:
    [heap i j] is what cell [j] of block [i] holds when the allocation is
    handed out.  The allocation itself is taken to succeed (the source
    asserts it). *)
Definition vqf_init (nslots : Z) (heap : nat -> nat -> Z) : vqf_filter :=
  let total_blocks := u64 (nslots + QUQU_SLOTS_PER_BLOCK) / QUQU_SLOTS_PER_BLOCK in
  let total_size_in_bytes := u64 (sizeof_vqf_block * total_blocks) in
  let key_remainder_bits := 8 in
  {| metadata :=
       {| total_size_in_bytes := total_size_in_bytes;
          key_remainder_bits := key_remainder_bits;
          range := u64 (u64 (total_blocks * QUQU_BUCKETS_PER_BLOCK)
                        * u64 (Z.shiftl 1 key_remainder_bits));
          nblocks := total_blocks;
          nelts := 0;
          nslots := u64 (total_blocks * QUQU_SLOTS_PER_BLOCK) |};
     blocks :=
       map (fun i =>
              {| md := Z.land UINT64_MAX (u64 (Z.lnot (Z.shiftl 1 63)));
                 tags := map (fun j => u16 (heap i j))
                             (seq 0 (Z.to_nat QUQU_SLOTS_PER_BLOCK)) |})
           (seq 0 (Z.to_nat total_blocks)) |}.

(** ** The match scanner *)

(** The comparison loop of [generate_match_mask]: bit [i] of the result is
    set when the low byte of [tags[i]] is [tag]. *)
Definition tag_scan (tags : list Z) (tag : Z) : Z :=
  fold_left
    (fun result i =>
       if Z.land (nth i tags 0) TAG_MASK =? tag
       then Z.lor result (u32 (Z.shiftl 1 (Z.of_nat i)))
       else result)
    (seq 0 (Z.to_nat QUQU_SLOTS_PER_BLOCK)) 0.

Definition generate_match_mask (filter : vqf_filter) (tag block_index : Z)
  : option Z :=
  let index := block_index / QUQU_BUCKETS_PER_BLOCK in
  let offset := block_index mod QUQU_BUCKETS_PER_BLOCK in
  block ← blocks filter !! Z.to_nat index;
  let result := tag_scan (tags block) tag in
  start ← (if negb (offset =? 0) then lookup_64 (md block) (offset - 1)
           else o ← one 0; Some (u64 (Z.shiftl o (8 / 2))));
  end_ ← lookup_64 (md block) offset;
  let mask := Z.shiftr (u64 (end_ - start)) 4 in
  Some (Z.land mask result).

(** ** Insertion *)

(** The two candidate buckets of a hash. *)
Definition primary_index (filter : vqf_filter) (hash : Z) : Z :=
  Z.shiftr hash (key_remainder_bits (metadata filter)).

Definition alt_index (filter : vqf_filter) (hash : Z) : option Z :=
  let range := range (metadata filter) in
  let tag := Z.land hash TAG_MASK in
  if range =? 0 then None
  else Some (Z.shiftr (Z.lxor hash (u64 (tag * 0x5bd1e995)) mod range)
                      (key_remainder_bits (metadata filter))).

(** The branch of [vqf_insert_val] that picks the bucket: [Some b] is the
    bucket the tag goes to, [None] the early [return false]. *)
Definition choose_bucket (filter : vqf_filter) (block_index alt_block_index : Z)
  : option (option Z) :=
  block ← blocks filter !! Z.to_nat (block_index / QUQU_BUCKETS_PER_BLOCK);
  let block_free := get_block_free_space (md block) in
  if (block_free <? QUQU_CHECK_ALT)
     && negb (block_index / QUQU_BUCKETS_PER_BLOCK
              =? alt_block_index / QUQU_BUCKETS_PER_BLOCK)
  then
    alt_block ← blocks filter !! Z.to_nat (alt_block_index / QUQU_BUCKETS_PER_BLOCK);
    let alt_block_free := get_block_free_space (md alt_block) in
    if alt_block_free >? block_free then Some (Some alt_block_index)
    else if block_free =? QUQU_BUCKETS_PER_BLOCK then Some None
    else Some (Some block_index)
  else Some (Some block_index).

(** The tail of [vqf_insert_val]: the tag is written at the end of the run
    of its bucket and a zero is put into the metadata word. *)
Definition insert_at (filter : vqf_filter) (block_index stored_tag : Z)
  : option vqf_filter :=
  let index := block_index / QUQU_BUCKETS_PER_BLOCK in
  let offset := block_index mod QUQU_BUCKETS_PER_BLOCK in
  block ← blocks filter !! Z.to_nat index;
  slot_index ← select_64 (md block) offset;
  let select_index := u64 (slot_index + offset - 8 / 2) in
  tags' ← update_tags_512 (tags block) (u8 slot_index) (u16 stored_tag);
  md' ← update_md (md block) (u8 select_index);
  Some {| metadata := metadata filter;
          blocks := <[Z.to_nat index := {| md := md'; tags := tags' |}]> (blocks filter) |}.

(** The 16-bit cell of a hash and a value: the tag in the low byte, the
    value in the high byte. *)
Definition stored_tag (hash val : Z) : Z :=
  let val_shifted := u64 (Z.shiftl val 8) in
  let tag := Z.land hash TAG_MASK in
  Z.lor tag val_shifted.

(** [vqf_insert_val].  The metadata word of the primary block is read
    before the alternate bucket is computed; the messages the source prints
    are left out. *)
Definition vqf_insert_val (filter : vqf_filter) (hash val : Z)
  : option (vqf_filter * bool) :=
  let block_index := primary_index filter hash in
  let stored_tag := stored_tag hash val in
  _ ← blocks filter !! Z.to_nat (block_index / QUQU_BUCKETS_PER_BLOCK);
  alt_block_index ← alt_index filter hash;
  chosen ← choose_bucket filter block_index alt_block_index;
  match chosen with
  | None => Some (filter, false)
  | Some block_index =>
      filter' ← insert_at filter block_index stored_tag;
      Some (filter', true)
  end.

Definition vqf_insert (filter : vqf_filter) (hash : Z)
  : option (vqf_filter * bool) :=
  let default_val := 0 in
  vqf_insert_val filter hash default_val.

(** ** Removal *)

(** The cell that follows the array [tags] of block [index] in the
    allocation: the two low bytes of the metadata word of block
    [index + 1]; none after the last block. *)
Definition cell_after (blocks : list vqf_block) (index : nat) : option Z :=
  next ← blocks !! S index; Some (u16 (md next)).

Definition remove_tags (filter : vqf_filter) (tag block_index : Z)
  : option (vqf_filter * bool) :=
  let index := block_index / QUQU_BUCKETS_PER_BLOCK in
  let offset := block_index mod QUQU_BUCKETS_PER_BLOCK in
  check_indexes ← generate_match_mask filter tag block_index;
  if negb (check_indexes =? 0) then
    block ← blocks filter !! Z.to_nat index;
    remove_index ← __builtin_ctzll check_indexes;
    tags' ← remove_tags_512 (tags block) (cell_after (blocks filter) (Z.to_nat index))
               (u8 remove_index);
    let remove_index := u64 (remove_index + offset - 8) in
    md' ← remove_md (md block) (u8 remove_index);
    Some ({| metadata := metadata filter;
             blocks := <[Z.to_nat index := {| md := md'; tags := tags' |}]> (blocks filter) |},
          true)
  else Some (filter, false).

Definition vqf_remove (filter : vqf_filter) (hash : Z)
  : option (vqf_filter * bool) :=
  let block_index := primary_index filter hash in
  let tag := Z.land hash TAG_MASK in
  alt_block_index ← alt_index filter hash;
  '(filter', found) ← remove_tags filter tag block_index;
  if (found : bool) then Some (filter', true)
  else remove_tags filter' tag alt_block_index.

(** ** Lookups *)

Definition check_tags (filter : vqf_filter) (tag block_index : Z) : option bool :=
  mask ← generate_match_mask filter tag block_index;
  Some (negb (mask =? 0)).

(** [val] is passed by reference: the result carries its value on return. *)
Definition retrieve_value (filter : vqf_filter) (tag block_index val : Z)
  : option (bool * Z) :=
  mask ← generate_match_mask filter tag block_index;
  let index := block_index / QUQU_BUCKETS_PER_BLOCK in
  let first_set := __builtin_ffs mask - 1 in
  if first_set =? -1 then Some (false, val)
  else
    block ← blocks filter !! Z.to_nat index;
    pair ← tags block !! Z.to_nat first_set;
    Some (true, u8 (Z.shiftr pair 8)).

(** The [while (mask > 0)] loop of [retrieve_values]; [mask] is below
    [2 ^ n]. *)
Fixpoint retrieve_loop (n : nat) (tags : list Z) (mask i : Z) (values : list Z)
  : option (list Z) :=
  match n with
  | O => Some values
  | S n' =>
      if mask >? 0 then
        values' ← (if Z.land mask 1 =? 1
                   then pair ← tags !! Z.to_nat i;
                        Some (values ++ [u8 (Z.shiftr pair 8)])
                   else Some values);
        retrieve_loop n' tags (Z.shiftr mask 1) (i + 1) values'
      else Some values
  end.

Definition retrieve_values (filter : vqf_filter) (tag block_index : Z)
  (values : list Z) : option (bool * list Z) :=
  mask ← generate_match_mask filter tag block_index;
  let index := block_index / QUQU_BUCKETS_PER_BLOCK in
  if mask =? 0 then Some (false, values)
  else
    block ← blocks filter !! Z.to_nat index;
    values' ← retrieve_loop 64 (tags block) mask 0 values;
    Some (true, values').

Definition vqf_is_present (filter : vqf_filter) (hash : Z) : option bool :=
  let block_index := primary_index filter hash in
  let tag := Z.land hash TAG_MASK in
  alt_block_index ← alt_index filter hash;
  found ← check_tags filter tag block_index;
  if (found : bool) then Some true else check_tags filter tag alt_block_index.

Definition vqf_query_iter (filter : vqf_filter) (hash : Z) (values : list Z)
  : option (bool * list Z) :=
  let block_index := primary_index filter hash in
  let tag := Z.land hash TAG_MASK in
  alt_block_index ← alt_index filter hash;
  '(found, values') ← retrieve_values filter tag block_index values;
  if (found : bool) then Some (true, values')
  else retrieve_values filter tag alt_block_index values'.

Definition vqf_query (filter : vqf_filter) (hash : Z) (value : Z)
  : option (bool * Z) :=
  let block_index := primary_index filter hash in
  let tag := Z.land hash TAG_MASK in
  alt_block_index ← alt_index filter hash;
  '(found, value') ← retrieve_value filter tag block_index value;
  if (found : bool) then Some (true, value')
  else retrieve_value filter tag alt_block_index value'.

(** ** Drivers *)

(** A sequence of [vqf_insert_val] calls, with the booleans they return. *)
Fixpoint run_inserts (ops : list (Z * Z)) (filter : vqf_filter)
  : option (vqf_filter * list bool) :=
  match ops with
  | [] => Some (filter, [])
  | (hash, val) :: ops' =>
      '(filter', ok) ← vqf_insert_val filter hash val;
      '(filter'', oks) ← run_inserts ops' filter';
      Some (filter'', ok :: oks)
  end.

(** An allocation that happens to hold zeros. *)
Definition zero_heap (i j : nat) : Z := 0.

(** ** Notions used by the statements *)

(** The words and the bit primitives are not unfolded by [simpl]. *)
Arguments u8 : simpl never.
Arguments u16 : simpl never.
Arguments u32 : simpl never.
Arguments u64 : simpl never.
Arguments rank : simpl never.
Arguments __builtin_popcountll : simpl never.
Arguments word_rank : simpl never.
Arguments get_block_free_space : simpl never.
Arguments _pdep_u64 : simpl never.
Arguments _pext_u64 : simpl never.
Arguments _tzcnt_u64 : simpl never.
Arguments tag_scan : simpl never.

(** [is_select x o s]: the [o]-th set bit of [x] (counting from 0) is at
    position [s]. *)
Definition is_select (x o s : Z) : Prop :=
  0 <= s < 64 /\ Z.testbit x s = true /\ rank x s = o.

(** The tag vector after a shift-insert at slot [t]. *)
Definition shift_insert (tags : list Z) (t : Z) (tag : Z) : list Z :=
  take (Z.to_nat t) tags ++ tag :: take (Z.to_nat (27 - t)) (drop (Z.to_nat t) tags).

(** Reduction of the binds of the option monad, and of nothing else. *)
Ltac obind := cbn [mbind option_bind].

(** A conjunction of closed equations, each settled by evaluation. *)
Ltac eval_conj :=
  lazymatch goal with
  | |- _ /\ _ => split; [vm_compute; reflexivity | eval_conj]
  | _ => vm_compute; reflexivity
  end.

(** Case analysis on the integer comparisons of a goal between booleans. *)
Ltac zbool :=
  repeat match goal with
    | |- context [(?x =? ?y)] => case (Z.eqb_spec x y); intro
    | |- context [(?x <? ?y)] => case (Z.ltb_spec x y); intro
    | |- context [(?x <=? ?y)] => case (Z.leb_spec x y); intro
    end;
  simpl; try lia; try reflexivity;
  try (now rewrite ?orb_true_r, ?orb_false_r, ?andb_true_r, ?andb_false_r).

(** Whether the low byte of cell [i] is [tag]. *)
Definition cell_matches (tags : list Z) (tag i : Z) : bool :=
  Z.land (nth (Z.to_nat i) tags 0) TAG_MASK =? tag.

(** [run_bounds x o a e]: in the metadata word [x], the run of bucket [o]
    is the slots from [a] up to, not including, [e]. *)
Definition run_bounds (x o a e : Z) : Prop :=
  (exists s, is_select x o s /\ e = s - o) /\
  (if o =? 0 then a = 0
   else exists s0, is_select x (o - 1) s0 /\ a = s0 - (o - 1)).

(** What the C types say of a block: the metadata word is a [uint64_t] and
    the array [tags] has 28 cells. *)
Definition wf_block (blk : vqf_block) : Prop :=
  0 <= md blk < 2 ^ 64 /\ length (tags blk) = 28%nat.

(** A filter as the C types and [vqf_init] make it: [key_remainder_bits] is
    8, [range] is a [uint64_t], every block is well formed. *)
Definition wf_filter (filter : vqf_filter) : Prop :=
  key_remainder_bits (metadata filter) = 8
  /\ 0 <= range (metadata filter) < 2 ^ 64
  /\ Forall wf_block (blocks filter).

(** The block after a tag went to the end of the run of bucket offset [o],
    the [o]-th set bit of the metadata word being at position [s]. *)
Definition inserted_block (blk : vqf_block) (s o cell : Z) : vqf_block :=
  {| md := _pdep_u64 (md blk) (Z.lxor UINT64_MAX (Z.shiftl 1 s));
     tags := shift_insert (tags blk) (s - o) cell |}.

(** The quotient rounded up, as the claim on [vqf_init] words it. *)
Definition ceil_div (a b : Z) : Z := (a + b - 1) / b.

(** [md_shape x k]: the metadata word of a block that holds [k] tags.  The
    36 delimiters and the [k] zeros are the bits below [36 + k], the last
    of them a delimiter; the bits above are set, except that bit 63 is
    clear in the word [vqf_init] writes. *)
Definition md_shape (x k : Z) : Prop :=
  0 <= k <= 28
  /\ rank x (36 + k) = 36
  /\ (forall i, 35 + k <= i < 63 -> Z.testbit x i = true)
  /\ Z.testbit x 63 = negb (k =? 0).

(** Both buckets of [hash] lie in one block and that block is full: the
    case in which [vqf_insert_val] makes no capacity check. *)
Definition same_block_full (filter : vqf_filter) (hash : Z) : Prop :=
  exists alt blk,
    alt_index filter hash = Some alt
    /\ primary_index filter hash / QUQU_BUCKETS_PER_BLOCK
       = alt / QUQU_BUCKETS_PER_BLOCK
    /\ blocks filter !! Z.to_nat (primary_index filter hash / QUQU_BUCKETS_PER_BLOCK)
       = Some blk
    /\ get_block_free_space (md blk) = QUQU_BUCKETS_PER_BLOCK.

(** The filters reached from [vqf_init] by insertions ([vqf_insert] is
    [vqf_insert_val] with value 0) and removals that return, the
    insertions on a full block that holds both buckets left out. *)
Inductive reachable : vqf_filter -> Prop :=
| reach_init nslots heap : reachable (vqf_init nslots heap)
| reach_insert filter hash val filter' ok :
    reachable filter -> 0 <= hash < 2 ^ 64 ->
    ~ same_block_full filter hash ->
    vqf_insert_val filter hash val = Some (filter', ok) ->
    reachable filter'
| reach_remove filter hash filter' ok :
    reachable filter -> 0 <= hash < 2 ^ 64 ->
    vqf_remove filter hash = Some (filter', ok) ->
    reachable filter'.

(** The invariant of the reachable filters. *)
Definition filter_ok (filter : vqf_filter) : Prop :=
  wf_filter filter
  /\ Forall (fun blk => exists k, md_shape (md blk) k) (blocks filter).

(** Case analysis on every integer comparison of a goal between booleans,
    innermost first, the remaining equations between bits closed by
    arithmetic. *)
Ltac plain_term t :=
  lazymatch t with
  | context [Z.leb _ _] => fail
  | context [Z.ltb _ _] => fail
  | context [Z.eqb _ _] => fail
  | _ => idtac
  end.

Ltac zcases :=
  repeat match goal with
    | |- context [(?x =? ?y)] =>
        plain_term x; plain_term y; case (Z.eqb_spec x y); intro
    | |- context [(?x <? ?y)] =>
        plain_term x; plain_term y; case (Z.ltb_spec x y); intro
    | |- context [(?x <=? ?y)] =>
        plain_term x; plain_term y; case (Z.leb_spec x y); intro
    end;
  cbn [andb orb negb] in *;
  rewrite ?andb_true_r, ?andb_false_r, ?orb_false_r, ?orb_true_r;
  cbn [andb orb negb];
  try lia; try reflexivity; try (f_equal; lia).

(** The upper bytes of the cells at the positions [from], ..., [from + n - 1]
    whose bit (counted from [from]) is set in [mask], in slot order. *)
Definition high_bytes_from (tags : list Z) (mask : Z) (from n : nat) : list Z :=
  map (fun j => u8 (Z.shiftr (nth j tags 0) 8))
      (List.filter (fun j => Z.testbit mask (Z.of_nat (j - from))) (seq from n)).

(** The upper bytes of the cells of a tag vector that [mask] selects. *)
Definition high_bytes (tags : list Z) (mask : Z) : list Z :=
  high_bytes_from tags mask 0 28.


(** A sequence of insertions none of which meets [same_block_full]. *)
Fixpoint safe_inserts (ops : list (Z * Z)) (filter : vqf_filter) : Prop :=
  match ops with
  | [] => True
  | (hash, val) :: ops' =>
      0 <= hash < 2 ^ 64
      /\ ~ same_block_full filter hash
      /\ forall filter' ok,
           vqf_insert_val filter hash val = Some (filter', ok) ->
           safe_inserts ops' filter'
  end.

(** The buckets that [range] spans lie in the blocks of the filter. *)
Definition range_ok (filter : vqf_filter) : Prop :=
  0 < range (metadata filter)
      <= Z.of_nat (length (blocks filter)) * QUQU_BUCKETS_PER_BLOCK * 2 ^ TAG_BITS.

(** [is_select_128 x o s]: the [o]-th set bit of the 128-bit vector [x]
    (counting from 0) is at position [s]. *)
Definition is_select_128 (x o s : Z) : Prop :=
  0 <= s < 128 /\ Z.testbit x s = true /\ rank x s = o.

(** The invariant as a test that evaluates on a given filter. *)
Definition md_shapeb (x k : Z) : bool :=
  (0 <=? k) && (k <=? 28) && (rank x (36 + k) =? 36)
  && forallb (fun i => Z.testbit x (Z.of_nat i))
             (seq (Z.to_nat (35 + k)) (Z.to_nat (28 - k)))
  && Bool.eqb (Z.testbit x 63) (negb (k =? 0)).

Definition block_okb (blk : vqf_block) : bool :=
  (0 <=? md blk) && (md blk <? 2 ^ 64) && Nat.eqb (length (tags blk)) 28
  && existsb (fun k => md_shapeb (md blk) (Z.of_nat k)) (seq 0 29).

Definition filter_okb (filter : vqf_filter) : bool :=
  (key_remainder_bits (metadata filter) =? 8)
  && (0 <=? range (metadata filter)) && (range (metadata filter) <? 2 ^ 64)
  && forallb block_okb (blocks filter).

(** On a given filter and hash, [same_block_full] is refuted by
    evaluation: the two buckets lie in different blocks, or their block is
    not full. *)
Ltac not_same_block_full :=
  intros (a0 & b0 & Ha0 & Hs0 & Hb0 & Hf0);
  vm_compute in Ha0; injection Ha0 as <-;
  first [ vm_compute in Hs0; discriminate
        | vm_compute in Hb0; injection Hb0 as <-; vm_compute in Hf0; discriminate ].

(** One insertion of [safe_inserts] on a given filter. *)
Ltac safe_inserts_step :=
  split; [lia|]; split;
  [ not_same_block_full
  | let f := fresh "f" in
    let ok := fresh "ok" in
    let Hins := fresh "Hins" in
    intros f ok Hins; vm_compute in Hins; injection Hins as <- <- ].
(** * Bit-level facts *)

Lemma rank_0 x : rank x 0 = 0.
Proof. reflexivity. Qed.

Lemma rank_succ x i : 0 <= i -> rank x (i + 1) = rank x i + Z.b2z (Z.testbit x i).
Proof.
  intros Hi. unfold rank.
  replace (Z.to_nat (i + 1)) with (S (Z.to_nat i)) by lia.
  simpl. rewrite Z2Nat.id by lia. reflexivity.
Qed.

Lemma b2z_range (b : bool) : 0 <= Z.b2z b <= 1.
Proof. destruct b; simpl; lia. Qed.

Lemma rank_bounds x i : 0 <= i -> 0 <= rank x i <= i.
Proof.
  intros Hi. pattern i. apply natlike_ind; [rewrite rank_0; lia | | exact Hi].
  intros j Hj IH. rewrite <- Z.add_1_r, rank_succ by lia.
  pose proof (b2z_range (Z.testbit x j)). lia.
Qed.

Lemma rank_mono x i j : 0 <= i <= j -> rank x i <= rank x j.
Proof.
  intros [Hi Hij]. replace j with (i + (j - i)) by lia.
  assert (Hd : 0 <= j - i) by lia. revert Hd. generalize (j - i) as d.
  intros d Hd. pattern d. apply natlike_ind; [rewrite Z.add_0_r; lia | | exact Hd].
  intros e He IH. rewrite <- Z.add_1_r, Z.add_assoc, rank_succ by lia.
  pose proof (b2z_range (Z.testbit x (i + e))). lia.
Qed.

Lemma rank_ext x y i :
  0 <= i -> (forall j, 0 <= j < i -> Z.testbit x j = Z.testbit y j) ->
  rank x i = rank y i.
Proof.
  intros Hi. pattern i. apply natlike_ind; [reflexivity | | exact Hi].
  intros j Hj IH Hbits. rewrite <- Z.add_1_r, !rank_succ by lia.
  rewrite IH, Hbits by (try intros; try apply Hbits; lia). reflexivity.
Qed.

Lemma rank_set_lt x i j :
  0 <= i < j -> Z.testbit x i = true -> rank x i < rank x j.
Proof.
  intros Hij Hb. pose proof (rank_mono x (i + 1) j ltac:(lia)).
  rewrite rank_succ, Hb in H by lia. simpl in H. lia.
Qed.

(** A run of ones adds its length to the rank. *)
Lemma rank_ones_run x a d :
  0 <= a -> 0 <= d -> (forall i, a <= i < a + d -> Z.testbit x i = true) ->
  rank x (a + d) = rank x a + d.
Proof.
  intros Ha Hd. pattern d.
  apply natlike_ind; [intros; rewrite Z.add_0_r; lia | | exact Hd].
  intros e He IH Hbits. rewrite <- Z.add_1_r, Z.add_assoc, rank_succ by lia.
  rewrite Hbits, IH by (try intros; try apply Hbits; lia). simpl. lia.
Qed.

(** The rank of a word read off its binary representation. *)
Lemma rank_shift y (b : bool) n :
  0 <= n -> rank (2 * y + Z.b2z b) (n + 1) = Z.b2z b + rank y n.
Proof.
  intros Hn. pattern n. apply natlike_ind; [| |exact Hn].
  - change (0 + 1) with (0 + 1). rewrite rank_succ, !rank_0, Z.testbit_0_r by lia. lia.
  - intros m Hm IH. rewrite <- Z.add_1_r.
    rewrite (rank_succ (2 * y + Z.b2z b) (m + 1)), IH, rank_succ by lia.
    replace (m + 1) with (Z.succ m) at 1 by lia.
    rewrite Z.testbit_succ_r by lia. lia.
Qed.

Lemma rank_zero n : 0 <= n -> rank 0 n = 0.
Proof.
  intros Hn. pattern n. apply natlike_ind; [reflexivity| |exact Hn].
  intros m Hm IH. rewrite <- Z.add_1_r, rank_succ, IH, Z.bits_0 by lia. reflexivity.
Qed.

Lemma pos_popcount_rank p : forall n,
  0 <= n -> Zpos p < 2 ^ n -> pos_popcount p = rank (Zpos p) n.
Proof.
  induction p as [q IH|q IH|]; intros n Hn Hlt.
  - assert (Hn1 : 1 <= n) by (destruct (Z.eq_dec n 0) as [->|]; [simpl in Hlt; lia|lia]).
    replace n with ((n - 1) + 1) in * by lia. rewrite Z.pow_add_r in Hlt by lia.
    change (Z.pos q~1) with (2 * Z.pos q + Z.b2z true) in *.
    rewrite rank_shift by lia. cbn [pos_popcount].
    rewrite (IH (n - 1)); [simpl Z.b2z; lia|lia|simpl Z.b2z in Hlt; lia].
  - assert (Hn1 : 1 <= n) by (destruct (Z.eq_dec n 0) as [->|]; [simpl in Hlt; lia|lia]).
    replace n with ((n - 1) + 1) in * by lia. rewrite Z.pow_add_r in Hlt by lia.
    change (Z.pos q~0) with (2 * Z.pos q + Z.b2z false) in *.
    rewrite rank_shift by lia. cbn [pos_popcount].
    rewrite (IH (n - 1)); [simpl Z.b2z; lia|lia|simpl Z.b2z in Hlt; lia].
  - assert (Hn1 : 1 <= n) by (destruct (Z.eq_dec n 0) as [->|]; [simpl in Hlt; lia|lia]).
    cbn [pos_popcount].
    replace (rank 1 n) with (rank (2 * 0 + Z.b2z true) ((n - 1) + 1))
      by (f_equal; lia).
    rewrite rank_shift, rank_zero by lia. reflexivity.
Qed.

Lemma popcount_rank x :
  0 <= x < 2 ^ 64 -> __builtin_popcountll x = rank x 64.
Proof.
  intros [Hx Hlt]. destruct x as [|p|p]; [reflexivity| |lia].
  apply pos_popcount_rank; [lia|exact Hlt].
Qed.
Lemma testbit_b2z (b : bool) j : Z.testbit (Z.b2z b) j = b && (j =? 0).
Proof.
  destruct b; simpl Z.b2z.
  - destruct (Z.eqb_spec j 0) as [->|Hj]; [reflexivity|].
    destruct (Z.lt_ge_cases j 0); [apply Z.testbit_neg_r; lia|].
    change 1 with (2 ^ 0). rewrite Z.pow2_bits_eqb by lia.
    apply Z.eqb_neq. lia.
  - apply Z.bits_0.
Qed.

Lemma testbit_shiftl_b2z (b : bool) m i :
  0 <= m -> Z.testbit (Z.shiftl (Z.b2z b) m) i = b && (i =? m).
Proof.
  intros Hm. destruct (Z.lt_ge_cases i 0).
  - rewrite Z.testbit_neg_r by lia.
    destruct (Z.eqb_spec i m); [lia|]. now rewrite andb_false_r.
  - rewrite Z.shiftl_spec, testbit_b2z by lia.
    f_equal. destruct (Z.eqb_spec (i - m) 0), (Z.eqb_spec i m); lia || reflexivity.
Qed.

(** A word whose bits from 64 on are clear is a [uint64_t]. *)
Lemma bits_above_64 x :
  0 <= x -> (forall i, 64 <= i -> Z.testbit x i = false) -> 0 <= x < 2 ^ 64.
Proof.
  intros Hx Hbits. split; [exact Hx|].
  assert (Hmod : x mod 2 ^ 64 = x).
  { apply Z.bits_inj'. intros i Hi. destruct (Z.lt_ge_cases i 64).
    - apply Z.mod_pow2_bits_low. lia.
    - rewrite Z.mod_pow2_bits_high, Hbits by lia. reflexivity. }
  rewrite <- Hmod. apply Z.mod_pos_bound. lia.
Qed.

Lemma u64_id x : 0 <= x < 2 ^ 64 -> u64 x = x.
Proof. intros. unfold u64. apply Z.mod_small. lia. Qed.

Section Pdep.
Variables temp mask : Z.

Lemma pdep_loop_nonneg n : forall m k, 0 <= m -> 0 <= pdep_loop n m k temp mask.
Proof.
  induction n as [|n IH]; intros m k Hm; simpl; [lia|].
  destruct (Z.testbit mask m); [|apply IH; lia].
  apply Z.lor_nonneg. split; [|apply IH; lia].
  apply Z.shiftl_nonneg. destruct (Z.testbit temp k); simpl; lia.
Qed.

Lemma pdep_loop_bits n : forall m k i,
  0 <= m -> 0 <= i ->
  Z.testbit (pdep_loop n m k temp mask) i =
  (m <=? i) && (i <? m + Z.of_nat n) && Z.testbit mask i
  && Z.testbit temp (k + rank mask i - rank mask m).
Proof.
  induction n as [|n IH]; intros m k i Hm Hi.
  - simpl. rewrite Z.bits_0.
    destruct (Z.leb_spec m i), (Z.ltb_spec i (m + Z.of_nat 0)); simpl; reflexivity || lia.
  - cbn [pdep_loop]. rewrite Nat2Z.inj_succ.
    destruct (Z.testbit mask m) eqn:Hbit.
    + rewrite Z.lor_spec, testbit_shiftl_b2z, IH by lia.
      rewrite rank_succ, Hbit by lia. simpl Z.b2z.
      destruct (Z.eqb_spec i m) as [->|Hne].
      * rewrite Hbit. replace (k + rank mask m - rank mask m) with k by lia.
        destruct (Z.leb_spec (m + 1) m), (Z.leb_spec m m),
          (Z.ltb_spec m (m + Z.succ (Z.of_nat n))); try lia.
        simpl. now rewrite andb_true_r, orb_false_r.
      * rewrite andb_false_r. simpl.
        replace (k + 1 + rank mask i - (rank mask m + 1))
          with (k + rank mask i - rank mask m) by lia.
        destruct (Z.leb_spec (m + 1) i), (Z.leb_spec m i),
          (Z.ltb_spec i (m + 1 + Z.of_nat n)), (Z.ltb_spec i (m + Z.succ (Z.of_nat n)));
          try lia; reflexivity.
    + rewrite IH by lia. rewrite rank_succ, Hbit by lia. simpl Z.b2z.
      rewrite Z.add_0_r.
      destruct (Z.eqb_spec i m) as [->|Hne].
      * rewrite Hbit.
        destruct (Z.leb_spec (m + 1) m); [lia|]. simpl.
        now rewrite !andb_false_r.
      * destruct (Z.leb_spec (m + 1) i), (Z.leb_spec m i),
          (Z.ltb_spec i (m + 1 + Z.of_nat n)), (Z.ltb_spec i (m + Z.succ (Z.of_nat n)));
          try lia; reflexivity.
Qed.

Lemma pdep_bits i :
  0 <= i ->
  Z.testbit (_pdep_u64 temp mask) i =
  (i <? 64) && Z.testbit mask i && Z.testbit temp (rank mask i).
Proof.
  intros Hi. unfold _pdep_u64. rewrite pdep_loop_bits by lia.
  rewrite rank_0, Z.sub_0_r, Z.add_0_l.
  destruct (Z.leb_spec 0 i); [|lia]. reflexivity.
Qed.

Lemma pdep_range : 0 <= _pdep_u64 temp mask < 2 ^ 64.
Proof.
  apply bits_above_64; [apply pdep_loop_nonneg; lia|].
  intros i Hi. rewrite pdep_bits by lia.
  destruct (Z.ltb_spec i 64); [lia|reflexivity].
Qed.
End Pdep.

(** ** Trailing zeros of a power of two *)

Lemma tzcnt_loop_pow2 n : forall i s,
  0 <= i <= s -> s < i + Z.of_nat n -> tzcnt_loop n i (2 ^ s) = s.
Proof.
  induction n as [|n IH]; intros i s His Hs; [lia|].
  cbn [tzcnt_loop]. rewrite Z.pow2_bits_eqb by lia.
  destruct (Z.eqb_spec s i) as [->|Hne]; [reflexivity|].
  apply IH; lia.
Qed.

Lemma tzcnt_loop_0 n : forall i, tzcnt_loop n i 0 = i + Z.of_nat n.
Proof.
  induction n as [|n IH]; intros i; cbn [tzcnt_loop]; [lia|].
  rewrite Z.bits_0, IH. lia.
Qed.

Lemma tzcnt_pow2 s : 0 <= s < 64 -> _tzcnt_u64 (2 ^ s) = s.
Proof. intros. apply tzcnt_loop_pow2; lia. Qed.

Lemma tzcnt_0 : _tzcnt_u64 0 = 64.
Proof. reflexivity. Qed.
(** ** Select *)

Lemma is_select_le x o s : is_select x o s -> 0 <= o <= s.
Proof. intros (Hs & _ & <-). apply rank_bounds. lia. Qed.

Lemma is_select_unique x o s s' : is_select x o s -> is_select x o s' -> s = s'.
Proof.
  intros (Hs & Hb & Hr) (Hs' & Hb' & Hr').
  destruct (Z.lt_trichotomy s s') as [Hlt|[Heq|Hgt]]; [|exact Heq|].
  - pose proof (rank_set_lt x s s' ltac:(lia) Hb). lia.
  - pose proof (rank_set_lt x s' s ltac:(lia) Hb'). lia.
Qed.

Lemma is_select_rank_lt x o s : is_select x o s -> o < rank x 64.
Proof.
  intros (Hs & Hb & <-). apply rank_set_lt; [|exact Hb].
  destruct (Z.eq_dec s 63); lia.
Qed.

Lemma select_exists x o n :
  0 <= n <= 64 -> 0 <= o < rank x n -> exists s, s < n /\ is_select x o s.
Proof.
  intros [Hn Hn64]. revert Hn64. pattern n.
  apply natlike_ind; [rewrite rank_0; lia | | exact Hn].
  intros j Hj IH Hj64 Ho. rewrite <- Z.add_1_r, rank_succ in Ho by lia.
  destruct (Z.lt_ge_cases o (rank x j)) as [Hlt|Hge].
  - destruct IH as (s & Hs & Hsel); [lia..|]. exists s. split; [lia|exact Hsel].
  - destruct (Z.testbit x j) eqn:Hb; simpl in Ho; [|lia].
    exists j. split; [lia|]. repeat split; lia || assumption.
Qed.

Lemma select_below x o s :
  is_select x o s -> 0 < o -> exists s0, s0 < s /\ is_select x (o - 1) s0.
Proof.
  intros (Hs & Hb & Hr) Ho. apply select_exists; lia.
Qed.

Lemma pdep_one_select x o s : is_select x o s -> _pdep_u64 (2 ^ o) x = 2 ^ s.
Proof.
  intros Hsel. pose proof (is_select_le _ _ _ Hsel) as Hos.
  pose proof Hsel as (Hs & Hb & Hr).
  apply Z.bits_inj'. intros i Hi.
  rewrite pdep_bits, !Z.pow2_bits_eqb by lia.
  destruct (Z.eqb_spec s i) as [<-|Hne].
  - rewrite Hb, Hr, Z.eqb_refl. destruct (Z.ltb_spec s 64); [reflexivity|lia].
  - destruct (Z.ltb_spec i 64); [|reflexivity].
    destruct (Z.testbit x i) eqn:Hbi; [|reflexivity]. simpl.
    apply Z.eqb_neq. intros Heq. apply Hne.
    apply (is_select_unique x o); [exact Hsel|]. repeat split; lia || auto.
Qed.

Lemma pdep_one_none x o :
  0 <= o -> rank x 64 <= o -> _pdep_u64 (2 ^ o) x = 0.
Proof.
  intros Ho Hr. apply Z.bits_inj'. intros i Hi.
  rewrite pdep_bits, Z.pow2_bits_eqb, Z.bits_0 by lia.
  destruct (Z.ltb_spec i 64); [|reflexivity].
  destruct (Z.testbit x i) eqn:Hbi; [|reflexivity]. simpl.
  apply Z.eqb_neq. intros Heq.
  assert (Hsel : is_select x o i) by (repeat split; auto; lia).
  apply is_select_rank_lt in Hsel. lia.
Qed.

Lemma one_Some o w : one o = Some w -> 0 <= o < 64 /\ w = 2 ^ o.
Proof.
  unfold one. destruct (Z.leb_spec 0 o), (Z.ltb_spec o 64); simpl; try discriminate.
  intros [= <-]. rewrite Z.shiftl_1_l. lia.
Qed.

Lemma one_eq o : 0 <= o < 64 -> one o = Some (2 ^ o).
Proof.
  intros. unfold one. destruct (Z.leb_spec 0 o), (Z.ltb_spec o 64); try lia.
  simpl. now rewrite Z.shiftl_1_l.
Qed.

Lemma shift_pow2 s o : 0 <= o <= s -> Z.shiftl (Z.shiftr (2 ^ s) o) 4 = 2 ^ (s - o + 4).
Proof.
  intros. rewrite Z.shiftr_div_pow2, Z.shiftl_mul_pow2 by lia.
  rewrite <- Z.pow_sub_r, <- Z.pow_add_r by lia. reflexivity.
Qed.

Lemma lookup_64_select x o s :
  is_select x o s -> s - o < 60 -> lookup_64 x o = Some (2 ^ (s - o + 4)).
Proof.
  intros Hsel Hlt. pose proof (is_select_le _ _ _ Hsel).
  pose proof Hsel as (Hs & _). unfold lookup_64.
  rewrite one_eq by lia. simpl. rewrite (pdep_one_select x o s Hsel).
  change (8 / 2) with 4. rewrite shift_pow2, u64_id; [reflexivity| |lia].
  split; [lia|]. apply Z.pow_lt_mono_r; lia.
Qed.

Lemma select_64_select x o s :
  is_select x o s -> s - o < 60 -> select_64 x o = Some (s - o + 4).
Proof.
  intros Hsel Hlt. pose proof (is_select_le _ _ _ Hsel).
  unfold select_64. rewrite (lookup_64_select x o s) by assumption. simpl.
  rewrite tzcnt_pow2 by lia. reflexivity.
Qed.

(** A result of [select_64] other than 64 is four more than the distance
    between the [o]-th set bit and [o]. *)
Lemma select_64_inv x o r :
  select_64 x o = Some r -> r <> 64 ->
  exists s, is_select x o s /\ s - o < 60 /\ r = s - o + 4.
Proof.
  intros Hsel Hr.
  assert (Ho : 0 <= o < 64).
  { unfold select_64, lookup_64 in Hsel. destruct (one o) eqn:E; [|discriminate].
    apply one_Some in E. lia. }
  destruct (Z.lt_ge_cases o (rank x 64)) as [Hlt|Hge].
  - destruct (select_exists x o 64) as (s & Hs & Hs'); [lia..|].
    pose proof (is_select_le _ _ _ Hs').
    destruct (Z.lt_ge_cases (s - o) 60) as [Hso|Hso].
    + rewrite (select_64_select x o s Hs' Hso) in Hsel. injection Hsel as Heq.
      exists s. split; [exact Hs'|]. split; lia.
    + exfalso. apply Hr. unfold select_64, lookup_64 in Hsel.
      rewrite one_eq in Hsel by lia. simpl in Hsel.
      rewrite (pdep_one_select x o s Hs') in Hsel.
      change (8 / 2) with 4 in Hsel. rewrite shift_pow2 in Hsel by lia.
      replace (u64 (2 ^ (s - o + 4))) with 0 in Hsel; [now injection Hsel as <-|].
      unfold u64. symmetry.
      replace (s - o + 4) with ((s - o - 60) + 64) by lia.
      rewrite Z.pow_add_r by lia. apply Z.mod_mul. lia.
  - exfalso. apply Hr. unfold select_64, lookup_64 in Hsel.
    rewrite one_eq in Hsel by lia. simpl in Hsel.
    rewrite pdep_one_none in Hsel by lia.
    rewrite Z.shiftr_0_l, Z.shiftl_0_l in Hsel. now injection Hsel as <-.
Qed.
(** ** The metadata word under [update_md] *)

Lemma low_order_Some p w :
  low_order_pdep_table p = Some w ->
  0 <= p < 64 /\ w = Z.lxor UINT64_MAX (Z.shiftl 1 p).
Proof.
  unfold low_order_pdep_table.
  destruct (Z.leb_spec 0 p), (Z.ltb_spec p 64); simpl; try discriminate.
  intros [= <-]. lia.
Qed.

Lemma low_order_eq p :
  0 <= p < 64 -> low_order_pdep_table p = Some (Z.lxor UINT64_MAX (Z.shiftl 1 p)).
Proof.
  intros. unfold low_order_pdep_table.
  destruct (Z.leb_spec 0 p), (Z.ltb_spec p 64); try lia. reflexivity.
Qed.

Lemma low_order_bits p i :
  0 <= p < 64 -> 0 <= i ->
  Z.testbit (Z.lxor UINT64_MAX (Z.shiftl 1 p)) i = (i <? 64) && negb (i =? p).
Proof.
  intros Hp Hi. change UINT64_MAX with (Z.ones 64).
  rewrite Z.lxor_spec, Z.testbit_ones_nonneg, Z.shiftl_1_l, Z.pow2_bits_eqb by lia.
  destruct (Z.ltb_spec i 64), (Z.eqb_spec p i), (Z.eqb_spec i p); try lia; reflexivity.
Qed.

Lemma low_order_rank p m :
  0 <= p < 64 -> 0 <= m <= 64 ->
  rank (Z.lxor UINT64_MAX (Z.shiftl 1 p)) m = if p <? m then m - 1 else m.
Proof.
  intros Hp [Hm Hm64]. revert Hm64. pattern m.
  apply natlike_ind; [|clear m Hm|exact Hm].
  - intros _. rewrite rank_0. destruct (Z.ltb_spec p 0); lia.
  - intros m Hm IH Hm64. rewrite <- Z.add_1_r, rank_succ, IH, low_order_bits by lia.
    destruct (Z.ltb_spec p m), (Z.ltb_spec p (m + 1)), (Z.ltb_spec m 64),
      (Z.eqb_spec m p); simpl; lia.
Qed.

Section UpdateMd.
Variables x p : Z.
Hypothesis Hp : 0 <= p < 64.

Local Abbreviation x' := (_pdep_u64 x (Z.lxor UINT64_MAX (Z.shiftl 1 p))).

Lemma update_md_bits i :
  0 <= i ->
  Z.testbit x' i =
  (i <? 64) && (if i <? p then Z.testbit x i
                else if i =? p then false else Z.testbit x (i - 1)).
Proof.
  intros Hi. rewrite pdep_bits, low_order_bits by lia.
  destruct (Z.ltb_spec i 64); [|reflexivity].
  rewrite low_order_rank by lia. simpl.
  destruct (Z.ltb_spec i p), (Z.eqb_spec i p), (Z.ltb_spec p i); try lia; reflexivity.
Qed.

Lemma update_md_rank m :
  0 <= m <= 64 ->
  rank x' m = if m <=? p then rank x m else rank x (m - 1).
Proof.
  intros [Hm Hm64]. revert Hm64. pattern m.
  apply natlike_ind; [|clear m Hm|exact Hm].
  - intros _. destruct (Z.leb_spec 0 p); [reflexivity|lia].
  - intros m Hm IH Hm64. rewrite <- Z.add_1_r.
    rewrite rank_succ, IH, update_md_bits by lia.
    destruct (Z.ltb_spec m 64); [|lia]. simpl.
    destruct (Z.leb_spec m p), (Z.leb_spec (m + 1) p), (Z.ltb_spec m p),
      (Z.eqb_spec m p); try lia.
    + rewrite rank_succ by lia. reflexivity.
    + subst m. simpl. replace (p + 1 - 1) with p by lia. lia.
    + replace (m + 1 - 1) with (m - 1 + 1) by lia. rewrite rank_succ by lia.
      reflexivity.
Qed.

(** A set bit below the inserted zero keeps its place and its rank. *)
Lemma update_md_select_below o s :
  is_select x o s -> s < p -> is_select x' o s.
Proof.
  intros (Hs & Hb & Hr) Hsp. repeat split; try lia.
  - rewrite update_md_bits by lia.
    destruct (Z.ltb_spec s 64), (Z.ltb_spec s p); try lia. exact Hb.
  - rewrite update_md_rank by lia. destruct (Z.leb_spec s p); [exact Hr|lia].
Qed.

(** A set bit at or above the inserted zero moves up by one. *)
Lemma update_md_select_above o s :
  is_select x o s -> p <= s -> s < 63 -> is_select x' o (s + 1).
Proof.
  intros (Hs & Hb & Hr) Hsp Hs63. repeat split; try lia.
  - rewrite update_md_bits by lia.
    destruct (Z.ltb_spec (s + 1) 64), (Z.ltb_spec (s + 1) p),
      (Z.eqb_spec (s + 1) p); try lia.
    simpl. replace (s + 1 - 1) with s by lia. exact Hb.
  - rewrite update_md_rank by lia. destruct (Z.leb_spec (s + 1) p); [lia|].
    replace (s + 1 - 1) with s by lia. exact Hr.
Qed.

(** The inserted zero pushes bit 62 into bit 63 and drops the old bit 63. *)
Lemma update_md_popcount :
  __builtin_popcountll x' = rank x 63.
Proof.
  rewrite popcount_rank by apply pdep_range. rewrite update_md_rank by lia.
  destruct (Z.leb_spec 64 p); [lia|reflexivity].
Qed.
End UpdateMd.

Lemma testbit_pow2_diff a b i :
  0 <= a <= b -> 0 <= i -> Z.testbit (2 ^ b - 2 ^ a) i = (a <=? i) && (i <? b).
Proof.
  intros Hab Hi.
  replace (2 ^ b - 2 ^ a) with (Z.shiftl (Z.ones (b - a)) a).
  - destruct (Z.leb_spec a i).
    + rewrite Z.shiftl_spec, Z.testbit_ones_nonneg by lia.
      destruct (Z.ltb_spec (i - a) (b - a)), (Z.ltb_spec i b); lia || reflexivity.
    + rewrite Z.shiftl_spec_low by lia. reflexivity.
  - rewrite Z.shiftl_mul_pow2, Z.ones_equiv by lia. unfold Z.pred.
    replace b with ((b - a) + a) at 2 by lia. rewrite Z.pow_add_r by lia. lia.
Qed.
(** ** Tag cells *)

Lemma u8_id x : 0 <= x < 256 -> u8 x = x.
Proof. intros. unfold u8. apply Z.mod_small. lia. Qed.

Lemma shift_insert_length tags t tag :
  length tags = 28%nat -> 0 <= t <= 27 -> length (shift_insert tags t tag) = 28%nat.
Proof.
  intros Hlen Ht. unfold shift_insert.
  rewrite length_app, length_take. simpl. rewrite length_take, length_drop. lia.
Qed.

Lemma shift_insert_lookup tags t tag i :
  length tags = 28%nat -> 0 <= t <= 27 -> 0 <= i ->
  shift_insert tags t tag !! Z.to_nat i =
  if i <? t then tags !! Z.to_nat i
  else if i =? t then Some tag
  else if i <? 28 then tags !! Z.to_nat (i - 1) else None.
Proof.
  intros Hlen Ht Hi. unfold shift_insert.
  destruct (Z.ltb_spec i t).
  - rewrite lookup_app_l by (rewrite length_take; lia).
    apply lookup_take_lt. lia.
  - rewrite lookup_app_r by (rewrite length_take; lia).
    rewrite length_take, Hlen.
    replace (Z.to_nat i - Z.to_nat t `min` 28)%nat with (Z.to_nat (i - t)) by lia.
    destruct (Z.eqb_spec i t) as [->|Hne].
    + replace (Z.to_nat (t - t)) with 0%nat by lia. reflexivity.
    + replace (Z.to_nat (i - t)) with (S (Z.to_nat (i - t - 1))) by lia.
      simpl. destruct (Z.ltb_spec i 28).
      * rewrite lookup_take_lt, lookup_drop by lia. f_equal. lia.
      * apply lookup_ge_None. rewrite length_take, length_drop. lia.
Qed.

Lemma memmove_len t :
  0 <= t <= 27 -> u64 (u64 (QUQU_SLOTS_PER_BLOCK - t - 1) * 2) / 2 = 27 - t.
Proof.
  intros. unfold u64, QUQU_SLOTS_PER_BLOCK.
  rewrite (Z.mod_small (28 - t - 1)) by lia.
  rewrite Z.mod_small by lia.
  replace ((28 - t - 1) * 2) with ((27 - t) * 2) by lia. apply Z.div_mul. lia.
Qed.

Lemma memmove_len_wrap t :
  28 <= t <= 255 -> 2 ^ 62 <= u64 (u64 (QUQU_SLOTS_PER_BLOCK - t - 1) * 2) / 2.
Proof.
  intros. unfold u64, QUQU_SLOTS_PER_BLOCK.
  change (2 ^ 64) with 18446744073709551616. change (2 ^ 62) with 4611686018427387904.
  Z.div_mod_to_equations. lia.
Qed.

Lemma update_tags_512_inv tags r tag tags' :
  length tags = 28%nat -> 4 <= r <= 64 ->
  update_tags_512 tags (u8 r) tag = Some tags' ->
  r - 4 <= 27 /\ tags' = shift_insert tags (r - 4) tag.
Proof.
  intros Hlen Hr. unfold update_tags_512.
  rewrite (u8_id r), (u8_id (r - 4)) by lia.
  destruct (Z.le_gt_cases (r - 4) 27) as [Hle|Hgt].
  - rewrite memmove_len by lia. unfold memmove_tags, store_tag. rewrite Hlen.
    intros Hup. split; [exact Hle|].
    destruct (Z.eqb_spec (27 - (r - 4)) 0) as [E|E].
    + simpl in Hup. rewrite Hlen in Hup. change (Z.of_nat 28) with 28 in Hup.
      destruct (Z.ltb_spec (r - 4) 28); [|lia]. injection Hup as <-.
      unfold shift_insert. rewrite E. simpl.
      apply list_eq. intros j.
      destruct (decide (j = Z.to_nat (r - 4))) as [->|Hj].
      * rewrite list_lookup_insert_eq by lia.
        rewrite lookup_app_r by (rewrite length_take; lia).
        rewrite length_take, Hlen.
        replace (Z.to_nat (r - 4) - Z.to_nat (r - 4) `min` 28)%nat with 0%nat by lia.
        reflexivity.
      * rewrite list_lookup_insert_ne by lia.
        destruct (decide (j < Z.to_nat (r - 4))%nat).
        -- rewrite lookup_app_l by (rewrite length_take; lia).
           now rewrite lookup_take_lt by lia.
        -- rewrite lookup_app_r by (rewrite length_take; lia).
           rewrite length_take, Hlen.
           rewrite !lookup_ge_None_2; [reflexivity|simpl; lia|lia].
    + change (Z.of_nat 28) with 28 in Hup.
      destruct (Z.leb_spec (r - 4 + (27 - (r - 4))) 28); [|lia].
      destruct (Z.leb_spec (r - 4 + 1 + (27 - (r - 4))) 28); [|lia].
      simpl in Hup.
      match type of Hup with
      | (if ?c then _ else _) = _ => destruct c eqn:Hc; [|discriminate]
      end.
      injection Hup as <-. unfold shift_insert.
      rewrite (drop_ge tags (Z.to_nat (r - 4 + 1 + (27 - (r - 4)))))
        by (rewrite Hlen; lia). rewrite app_nil_r.
      replace (Z.to_nat (r - 4 + 1)) with (S (Z.to_nat (r - 4))) by lia.
      apply list_eq. intros j.
      destruct (decide (j = Z.to_nat (r - 4))) as [->|Hj].
      * rewrite list_lookup_insert_eq
          by (rewrite length_app, !length_take, length_drop; lia).
        rewrite lookup_app_r by (rewrite length_take; lia).
        rewrite length_take, Hlen.
        replace (Z.to_nat (r - 4) - Z.to_nat (r - 4) `min` 28)%nat with 0%nat by lia.
        reflexivity.
      * rewrite list_lookup_insert_ne by lia.
        destruct (decide (j < Z.to_nat (r - 4))%nat).
        -- rewrite !lookup_app_l by (rewrite length_take; lia).
           rewrite !lookup_take_lt by lia. reflexivity.
        -- rewrite !lookup_app_r by (rewrite length_take; lia).
           rewrite !length_take, Hlen.
           replace (j - S (Z.to_nat (r - 4)) `min` 28)%nat
             with (j - Z.to_nat (r - 4) - 1)%nat by lia.
           replace (j - Z.to_nat (r - 4) `min` 28)%nat
             with (S (j - Z.to_nat (r - 4) - 1))%nat by lia.
           reflexivity.
  - pose proof (memmove_len_wrap (r - 4) ltac:(lia)) as Hbig.
    change (2 ^ 62) with 4611686018427387904 in Hbig.
    unfold memmove_tags. rewrite Hlen. change (Z.of_nat 28) with 28.
    destruct (Z.eqb_spec (u64 (u64 (QUQU_SLOTS_PER_BLOCK - (r - 4) - 1) * 2) / 2) 0);
      [lia|].
    destruct (Z.leb_spec (r - 4 + u64 (u64 (QUQU_SLOTS_PER_BLOCK - (r - 4) - 1) * 2) / 2)
                28); [lia|].
    simpl. discriminate.
Qed.
(** ** The match scanner *)


Lemma u32_bit j : (j < 32)%nat -> u32 (Z.shiftl 1 (Z.of_nat j)) = 2 ^ Z.of_nat j.
Proof.
  intros Hj. rewrite Z.shiftl_1_l. unfold u32. apply Z.mod_small.
  split; [lia|]. apply Z.pow_lt_mono_r; lia.
Qed.

Lemma scan_fold_bits tags tag i n : forall a acc,
  0 <= i -> (a + n <= 32)%nat ->
  Z.testbit
    (fold_left
       (fun result j =>
          if Z.land (nth j tags 0) TAG_MASK =? tag
          then Z.lor result (u32 (Z.shiftl 1 (Z.of_nat j)))
          else result)
       (seq a n) acc) i =
  Z.testbit acc i
  || ((Z.of_nat a <=? i) && (i <? Z.of_nat (a + n)) && cell_matches tags tag i).
Proof.
  induction n as [|n IH]; intros a acc Hi Han.
  - simpl. zbool.
  - cbn [seq fold_left]. rewrite IH by lia.
    destruct (Z.eq_dec i (Z.of_nat a)) as [->|Hne].
    + unfold cell_matches. rewrite Nat2Z.id.
      destruct (Z.land (nth a tags 0) TAG_MASK =? tag).
      * rewrite Z.lor_spec, u32_bit, Z.pow2_bits_eqb, Z.eqb_refl by lia. zbool.
      * zbool.
    + assert (Hacc : Z.testbit
                (if Z.land (nth a tags 0) TAG_MASK =? tag
                 then Z.lor acc (u32 (Z.shiftl 1 (Z.of_nat a))) else acc) i
              = Z.testbit acc i).
      { destruct (Z.land (nth a tags 0) TAG_MASK =? tag); [|reflexivity].
        rewrite Z.lor_spec, u32_bit, Z.pow2_bits_eqb by lia.
        destruct (Z.eqb_spec (Z.of_nat a) i); [lia|]. now rewrite orb_false_r. }
      rewrite Hacc. f_equal. f_equal.
      destruct (Z.leb_spec (Z.of_nat (S a)) i), (Z.leb_spec (Z.of_nat a) i),
        (Z.ltb_spec i (Z.of_nat (S a + n))), (Z.ltb_spec i (Z.of_nat (a + S n)));
        try lia; reflexivity.
Qed.

Lemma tag_scan_bits tags tag i :
  0 <= i ->
  Z.testbit (tag_scan tags tag) i = (i <? 28) && cell_matches tags tag i.
Proof.
  intros Hi. unfold tag_scan. change (Z.to_nat QUQU_SLOTS_PER_BLOCK) with 28%nat.
  rewrite scan_fold_bits by lia. rewrite Z.bits_0. simpl orb.
  destruct (Z.leb_spec (Z.of_nat 0) i); [|lia]. reflexivity.
Qed.

Lemma run_bounds_le x o a e : run_bounds x o a e -> 0 <= a <= e.
Proof.
  intros [(s & Hs & ->) Ha]. pose proof (is_select_le _ _ _ Hs).
  destruct (Z.eqb_spec o 0) as [->|Ho]; [lia|].
  destruct Ha as (s0 & Hs0 & ->). pose proof (is_select_le _ _ _ Hs0).
  destruct Hs as (Hs & Hb & Hr), Hs0 as (Hs0 & Hb0 & Hr0).
  destruct (Z.lt_ge_cases s0 s); [lia|].
  pose proof (rank_mono x s s0 ltac:(lia)). lia.
Qed.

Lemma run_bounds_exists x o s :
  is_select x o s -> exists a, run_bounds x o a (s - o).
Proof.
  intros Hs. pose proof (is_select_le _ _ _ Hs).
  destruct (Z.eqb_spec o 0) as [Ho|Ho].
  - exists 0. split; [eauto|]. now rewrite (proj2 (Z.eqb_eq o 0) Ho).
  - destruct (select_below x o s Hs ltac:(lia)) as (s0 & _ & Hs0).
    exists (s0 - (o - 1)). split; [eauto|].
    rewrite (proj2 (Z.eqb_neq o 0) Ho). eauto.
Qed.

Lemma pow2_diff_shift a e :
  0 <= a <= e -> e < 60 ->
  Z.shiftr (u64 (2 ^ (e + 4) - 2 ^ (a + 4))) 4 = 2 ^ e - 2 ^ a.
Proof.
  intros Hae He.
  assert (2 ^ a <= 2 ^ e) by (apply Z.pow_le_mono_r; lia).
  assert (2 ^ e < 2 ^ 60) by (apply Z.pow_lt_mono_r; lia).
  rewrite !Z.pow_add_r by lia. change (2 ^ 4) with 16.
  change (2 ^ 60) with 1152921504606846976 in *.
  rewrite u64_id by (change (2 ^ 64) with 18446744073709551616; lia).
  rewrite Z.shiftr_div_pow2 by lia. change (2 ^ 4) with 16.
  replace (2 ^ e * 16 - 2 ^ a * 16) with ((2 ^ e - 2 ^ a) * 16) by lia.
  apply Z.div_mul. lia.
Qed.

Lemma generate_match_mask_run filter tag b blk a e :
  0 <= b ->
  blocks filter !! Z.to_nat (b / QUQU_BUCKETS_PER_BLOCK) = Some blk ->
  run_bounds (md blk) (b mod QUQU_BUCKETS_PER_BLOCK) a e -> e < 60 ->
  generate_match_mask filter tag b
  = Some (Z.land (2 ^ e - 2 ^ a) (tag_scan (tags blk) tag)).
Proof.
  intros Hb Hblk Hrun He. pose proof (run_bounds_le _ _ _ _ Hrun) as Hae.
  destruct Hrun as [(s & Hs & ->) Ha].
  unfold generate_match_mask. rewrite Hblk. simpl.
  rewrite (lookup_64_select _ _ s Hs) by lia.
  destruct (Z.eqb_spec (b mod QUQU_BUCKETS_PER_BLOCK) 0) as [Ho|Ho]; simpl.
  - subst a. change (u64 (Z.shiftl (Z.shiftl 1 0) (8 / 2))) with (2 ^ (0 + 4)).
    rewrite pow2_diff_shift by lia. reflexivity.
  - destruct Ha as (s0 & Hs0 & ->).
    rewrite (lookup_64_select _ _ s0 Hs0) by lia. simpl.
    rewrite pow2_diff_shift by lia. reflexivity.
Qed.

Lemma match_mask_bits tags tag a e i :
  0 <= a <= e -> 0 <= i ->
  Z.testbit (Z.land (2 ^ e - 2 ^ a) (tag_scan tags tag)) i
  = (a <=? i) && (i <? e) && ((i <? 28) && cell_matches tags tag i).
Proof.
  intros Hae Hi. rewrite Z.land_spec, testbit_pow2_diff, tag_scan_bits by lia.
  reflexivity.
Qed.

(** ** Well-formed filters *)

Lemma wf_filter_lookup filter i blk :
  wf_filter filter -> blocks filter !! i = Some blk -> wf_block blk.
Proof.
  intros (_ & _ & Hall) Hi. rewrite Forall_lookup in Hall. exact (Hall i blk Hi).
Qed.
(** ** What an insertion does to a block *)

Lemma insert_at_inv filter b stored filter' :
  wf_filter filter -> 0 <= b ->
  insert_at filter b stored = Some filter' ->
  exists blk s,
    blocks filter !! Z.to_nat (b / QUQU_BUCKETS_PER_BLOCK) = Some blk
    /\ is_select (md blk) (b mod QUQU_BUCKETS_PER_BLOCK) s
    /\ s - b mod QUQU_BUCKETS_PER_BLOCK <= 27
    /\ filter' =
       {| metadata := metadata filter;
          blocks := <[Z.to_nat (b / QUQU_BUCKETS_PER_BLOCK) :=
                        inserted_block blk s (b mod QUQU_BUCKETS_PER_BLOCK) (u16 stored)]>
                      (blocks filter) |}.
Proof.
  intros Hwf Hb. unfold insert_at.
  destruct (blocks filter !! Z.to_nat (b / QUQU_BUCKETS_PER_BLOCK)) as [blk|] eqn:Hblk;
    [|discriminate].
  destruct (wf_filter_lookup _ _ _ Hwf Hblk) as [Hmd Hlen].
  simpl. set (o := b mod QUQU_BUCKETS_PER_BLOCK).
  destruct (select_64 (md blk) o) as [r|] eqn:Hsel; [|discriminate]. simpl.
  destruct (update_tags_512 (tags blk) (u8 r) (u16 stored)) as [tags'|] eqn:Htags;
    [|discriminate]. simpl.
  destruct (Z.eq_dec r 64) as [->|Hr].
  { apply update_tags_512_inv in Htags; [lia|exact Hlen|lia]. }
  destruct (select_64_inv _ _ _ Hsel Hr) as (s & Hs & Hso & ->).
  pose proof (is_select_le _ _ _ Hs) as Hos.
  apply update_tags_512_inv in Htags; [|exact Hlen|lia].
  destruct Htags as [Ht ->]. replace (s - o + 4 - 4) with (s - o) in * by lia.
  change (8 / 2) with 4. replace (s - o + 4 + o - 4) with s by lia.
  destruct Hs as (Hs & Hbit & Hrank).
  rewrite (u64_id s), (u8_id s) by lia.
  unfold update_md. rewrite low_order_eq by lia. simpl.
  intros [= <-]. exists blk, s. repeat split; auto; lia.
Qed.

Lemma inserted_block_wf blk s o cell :
  wf_block blk -> 0 <= s - o <= 27 -> wf_block (inserted_block blk s o cell).
Proof.
  intros [Hmd Hlen] Ht. split; simpl.
  - apply pdep_range.
  - apply shift_insert_length; [exact Hlen|lia].
Qed.

(** The run of the bucket that received the tag grows by one slot at its
    end; its start does not move. *)
Lemma inserted_run blk s o a cell :
  is_select (md blk) o s -> s - o <= 27 -> o < 36 ->
  run_bounds (md blk) o a (s - o) ->
  run_bounds (md (inserted_block blk s o cell)) o a (s - o + 1).
Proof.
  intros Hs Ht Ho [_ Ha]. pose proof (is_select_le _ _ _ Hs) as Hos.
  pose proof Hs as (Hs64 & _).
  split; simpl.
  - exists (s + 1). split; [|lia].
    apply update_md_select_above; [lia|exact Hs|lia|lia].
  - destruct (Z.eqb_spec o 0); [exact Ha|].
    destruct Ha as (s0 & Hs0 & ->). exists s0. split; [|reflexivity].
    apply update_md_select_below; [lia|exact Hs0|].
    destruct Hs as (_ & _ & Hr), Hs0 as (Hs0 & _ & Hr0).
    destruct (Z.lt_ge_cases s0 s); [assumption|].
    pose proof (rank_mono (md blk) s s0 ltac:(lia)). lia.
Qed.

(** The low byte and the high byte of the stored cell. *)
Lemma stored_cell_tag hash val :
  Z.land (u16 (stored_tag hash val)) TAG_MASK = Z.land hash TAG_MASK.
Proof.
  apply Z.bits_inj'. intros i Hi. unfold stored_tag, u16, u64, TAG_MASK.
  change 255 with (Z.ones 8).
  rewrite !Z.land_spec, Z.testbit_ones_nonneg by lia.
  destruct (Z.ltb_spec i 8); [|now rewrite !andb_false_r].
  rewrite Z.mod_pow2_bits_low, Z.lor_spec, Z.land_spec by lia.
  rewrite Z.testbit_ones_nonneg, Z.mod_pow2_bits_low, Z.shiftl_spec_low by lia.
  destruct (Z.ltb_spec i 8); [|lia]. now rewrite orb_false_r, !andb_true_r.
Qed.

Lemma stored_cell_val hash val :
  0 <= val < 256 ->
  u8 (Z.shiftr (u16 (stored_tag hash val)) 8) = val.
Proof.
  intros Hval. unfold stored_tag.
  assert (Hsh : u64 (Z.shiftl val 8) = val * 256).
  { rewrite Z.shiftl_mul_pow2 by lia. change (2 ^ 8) with 256. apply u64_id.
    change (2 ^ 64) with 18446744073709551616. lia. }
  rewrite Hsh. unfold TAG_MASK. change 255 with (Z.ones 8).
  rewrite Z.land_ones by lia.
  pose proof (Z.mod_pos_bound hash (2 ^ 8) ltac:(lia)) as Hlow.
  change (2 ^ 8) with 256 in *.
  assert (Hland : Z.land (hash mod 256) (val * 256) = 0).
  { apply Z.bits_inj'. intros i Hi. rewrite Z.land_spec, Z.bits_0.
    destruct (Z.lt_ge_cases i 8).
    - change 256 with (2 ^ 8). rewrite Z.mul_pow2_bits_low by lia.
      now rewrite andb_false_r.
    - change 256 with (2 ^ 8) at 1. rewrite Z.mod_pow2_bits_high by lia.
      reflexivity. }
  assert (Hlor : Z.lor (hash mod 256) (val * 256) = hash mod 256 + val * 256).
  { rewrite <- Z.lxor_lor by exact Hland. symmetry.
    apply Z.add_nocarry_lxor. exact Hland. }
  rewrite Hlor. unfold u16. change (2 ^ 16) with 65536.
  rewrite Z.mod_small by lia.
  rewrite Z.shiftr_div_pow2 by lia. change (2 ^ 8) with 256.
  rewrite Z.div_add by lia. rewrite Z.div_small by lia. apply u8_id. lia.
Qed.
(** ** Insertion followed by a query *)

Lemma primary_index_nonneg filter hash :
  wf_filter filter -> 0 <= hash -> 0 <= primary_index filter hash.
Proof.
  intros (Hk & _) Hh. unfold primary_index. rewrite Hk.
  apply Z.shiftr_nonneg. exact Hh.
Qed.

Lemma alt_index_nonneg filter hash alt :
  wf_filter filter -> alt_index filter hash = Some alt -> 0 <= alt.
Proof.
  intros (Hk & Hr & _). unfold alt_index. rewrite Hk.
  destruct (Z.eqb_spec (range (metadata filter)) 0); [discriminate|].
  intros [= <-]. apply Z.shiftr_nonneg. apply Z.mod_pos_bound. lia.
Qed.

Lemma choose_bucket_inv filter p alt b :
  choose_bucket filter p alt = Some (Some b) ->
  b = p \/ (b = alt /\ p / QUQU_BUCKETS_PER_BLOCK <> alt / QUQU_BUCKETS_PER_BLOCK).
Proof.
  unfold choose_bucket.
  destruct (blocks filter !! Z.to_nat (p / QUQU_BUCKETS_PER_BLOCK)) as [blk|];
    [|discriminate]. obind.
  destruct (get_block_free_space (md blk) <? QUQU_CHECK_ALT); cbn [andb];
    [|intros [= <-]; now left].
  destruct (Z.eqb_spec (p / QUQU_BUCKETS_PER_BLOCK) (alt / QUQU_BUCKETS_PER_BLOCK));
    cbn [negb]; [intros [= <-]; now left|].
  destruct (blocks filter !! Z.to_nat (alt / QUQU_BUCKETS_PER_BLOCK)) as [ablk|];
    [|discriminate]. obind.
  destruct (get_block_free_space (md ablk) >? get_block_free_space (md blk)).
  - intros [= <-]. right. split; [reflexivity|assumption].
  - destruct (get_block_free_space (md blk) =? QUQU_BUCKETS_PER_BLOCK);
      [discriminate|]. intros [= <-]. now left.
Qed.

Lemma vqf_insert_val_inv filter hash val filter' :
  vqf_insert_val filter hash val = Some (filter', true) ->
  exists alt b,
    alt_index filter hash = Some alt
    /\ choose_bucket filter (primary_index filter hash) alt = Some (Some b)
    /\ insert_at filter b (stored_tag hash val) = Some filter'.
Proof.
  unfold vqf_insert_val.
  destruct (blocks filter !! _) as [blk|]; [|discriminate]. obind.
  destruct (alt_index filter hash) as [alt|] eqn:Halt; [|discriminate]. obind.
  destruct (choose_bucket filter (primary_index filter hash) alt) as [[b|]|] eqn:Hch;
    obind; try discriminate.
  destruct (insert_at filter b _) as [f1|] eqn:Hins; obind; [|discriminate].
  intros [= <-]. exists alt, b. auto.
Qed.

Lemma nth_of_lookup (l : list Z) i x : l !! i = Some x -> nth i l 0 = x.
Proof. intros H. rewrite nth_lookup, H. reflexivity. Qed.

(** After the insertion, the scanner finds in the bucket that received the
    tag exactly the new cell, when the bucket held no cell with that tag. *)
Lemma inserted_match_mask filter b blk s cell tag :
  0 <= b ->
  blocks filter !! Z.to_nat (b / QUQU_BUCKETS_PER_BLOCK) = Some blk ->
  wf_block blk ->
  is_select (md blk) (b mod QUQU_BUCKETS_PER_BLOCK) s ->
  s - b mod QUQU_BUCKETS_PER_BLOCK <= 27 ->
  Z.land cell TAG_MASK = tag ->
  generate_match_mask filter tag b = Some 0 ->
  generate_match_mask
    {| metadata := metadata filter;
       blocks := <[Z.to_nat (b / QUQU_BUCKETS_PER_BLOCK) :=
                     inserted_block blk s (b mod QUQU_BUCKETS_PER_BLOCK) cell]>
                   (blocks filter) |} tag b
  = Some (2 ^ (s - b mod QUQU_BUCKETS_PER_BLOCK)).
Proof.
  intros Hb Hblk [Hmd Hlen] Hs Ht Hcell Hpre.
  set (o := b mod QUQU_BUCKETS_PER_BLOCK) in *.
  assert (Ho : 0 <= o < 36) by (apply Z.mod_pos_bound; reflexivity).
  pose proof (is_select_le _ _ _ Hs) as Hos.
  destruct (run_bounds_exists _ _ _ Hs) as (a & Hrun).
  pose proof (run_bounds_le _ _ _ _ Hrun) as Hae.
  rewrite (generate_match_mask_run filter tag b blk a (s - o)) in Hpre
    by (auto; lia).
  injection Hpre as Hpre.
  pose proof (inserted_run blk s o a cell Hs Ht ltac:(lia) Hrun) as Hrun'.
  rewrite (generate_match_mask_run _ tag b (inserted_block blk s o cell) a (s - o + 1));
    [|lia| |exact Hrun'|lia].
  2:{ simpl. apply list_lookup_insert_eq. eapply lookup_lt_Some. exact Hblk. }
  f_equal. apply Z.bits_inj'. intros i Hi.
  rewrite match_mask_bits, Z.pow2_bits_eqb by lia.
  assert (Hcm : forall j, 0 <= j < s - o ->
            cell_matches (shift_insert (tags blk) (s - o) cell) tag j
            = cell_matches (tags blk) tag j).
  { intros j Hj. unfold cell_matches. rewrite !nth_lookup.
    rewrite shift_insert_lookup by lia.
    destruct (Z.ltb_spec j (s - o)); [reflexivity|lia]. }
  destruct (Z.eqb_spec (s - o) i) as [<-|Hne].
  - unfold inserted_block. simpl. unfold cell_matches at 1. rewrite nth_lookup.
    rewrite shift_insert_lookup by lia.
    destruct (Z.ltb_spec (s - o) (s - o)); [lia|]. rewrite Z.eqb_refl. simpl.
    rewrite Hcell, Z.eqb_refl. zbool.
  - destruct (Z.leb_spec a i), (Z.ltb_spec i (s - o + 1)); simpl; try reflexivity.
    unfold inserted_block. simpl. rewrite Hcm by lia.
    assert (Hbit : Z.testbit (Z.land (2 ^ (s - o) - 2 ^ a) (tag_scan (tags blk) tag)) i
                   = false) by (rewrite Hpre; apply Z.bits_0).
    rewrite match_mask_bits in Hbit by lia.
    destruct (Z.leb_spec a i), (Z.ltb_spec i (s - o)); try lia. exact Hbit.
Qed.

Lemma generate_match_mask_frame filter i blk tag b :
  Z.to_nat (b / QUQU_BUCKETS_PER_BLOCK) <> i ->
  generate_match_mask
    {| metadata := metadata filter; blocks := <[i := blk]> (blocks filter) |} tag b
  = generate_match_mask filter tag b.
Proof.
  intros Hne. unfold generate_match_mask. simpl.
  rewrite list_lookup_insert_ne by auto. reflexivity.
Qed.

Lemma retrieve_value_none filter tag b val :
  generate_match_mask filter tag b = Some 0 ->
  retrieve_value filter tag b val = Some (false, val).
Proof. intros H. unfold retrieve_value. rewrite H. reflexivity. Qed.

Lemma ffs_pow2 t : 0 <= t < 32 -> __builtin_ffs (2 ^ t) = t + 1.
Proof.
  intros Ht. unfold __builtin_ffs.
  assert (Hlt : 2 ^ t < 2 ^ 32) by (apply Z.pow_lt_mono_r; lia).
  assert (0 < 2 ^ t) by (apply Z.pow_pos_nonneg; lia).
  unfold u32. rewrite Z.mod_small by lia.
  destruct (Z.eqb_spec (2 ^ t) 0); [lia|].
  rewrite tzcnt_loop_pow2 by lia. reflexivity.
Qed.

Lemma retrieve_value_found filter tag b t blk cell val :
  generate_match_mask filter tag b = Some (2 ^ t) -> 0 <= t <= 27 ->
  blocks filter !! Z.to_nat (b / QUQU_BUCKETS_PER_BLOCK) = Some blk ->
  tags blk !! Z.to_nat t = Some cell ->
  retrieve_value filter tag b val = Some (true, u8 (Z.shiftr cell 8)).
Proof.
  intros Hmask Ht Hblk Hcell. unfold retrieve_value. rewrite Hmask. simpl.
  rewrite ffs_pow2 by lia. replace (t + 1 - 1) with t by lia.
  destruct (Z.eqb_spec t (-1)); [lia|]. rewrite Hblk. simpl.
  rewrite Hcell. reflexivity.
Qed.
(** ** The filter [vqf_init] returns *)

Lemma init_md : Z.land UINT64_MAX (u64 (Z.lnot (Z.shiftl 1 63))) = 2 ^ 63 - 1.
Proof. reflexivity. Qed.

Lemma vqf_init_blocks nslots heap blk :
  blk ∈ blocks (vqf_init nslots heap) ->
  md blk = 2 ^ 63 - 1 /\ length (tags blk) = 28%nat.
Proof.
  intros Hin. apply list_elem_of_In in Hin. unfold vqf_init in Hin.
  cbn [blocks] in Hin. apply in_map_iff in Hin. destruct Hin as (i & <- & _).
  cbn [md tags]. split; [exact init_md|].
  rewrite length_map, length_seq. reflexivity.
Qed.

Lemma vqf_init_wf nslots heap : wf_filter (vqf_init nslots heap).
Proof.
  split; [reflexivity|]. split.
  - unfold vqf_init. cbn [metadata range]. unfold u64 at 1.
    apply Z.mod_pos_bound. reflexivity.
  - apply Forall_forall. intros blk Hin.
    destruct (vqf_init_blocks _ _ _ Hin) as [Hmd Hlen].
    split; [rewrite Hmd; split; [discriminate|reflexivity]|exact Hlen].
Qed.

(** ** Insertion followed by a query, end to end *)

Lemma insert_then_query filter hash val alt filter' out :
  wf_filter filter -> 0 <= hash < 2 ^ 64 -> 0 <= val < 256 ->
  alt_index filter hash = Some alt ->
  generate_match_mask filter (Z.land hash TAG_MASK) (primary_index filter hash) = Some 0 ->
  generate_match_mask filter (Z.land hash TAG_MASK) alt = Some 0 ->
  vqf_insert_val filter hash val = Some (filter', true) ->
  vqf_query filter' hash out = Some (true, val).
Proof.
  intros Hwf Hh Hv Halt Hp Ha Hins.
  destruct (vqf_insert_val_inv _ _ _ _ Hins) as (alt' & b & Halt' & Hch & Hat).
  rewrite Halt in Halt'. injection Halt' as <-.
  pose proof (primary_index_nonneg filter hash Hwf ltac:(lia)) as Hp0.
  pose proof (alt_index_nonneg _ _ _ Hwf Halt) as Ha0.
  assert (Hb0 : 0 <= b) by (destruct (choose_bucket_inv _ _ _ _ Hch) as [->|[-> _]]; lia).
  destruct (insert_at_inv _ _ _ _ Hwf Hb0 Hat) as (blk & s & Hblk & Hs & Ht & ->).
  pose proof (wf_filter_lookup _ _ _ Hwf Hblk) as Hwfb.
  pose proof (is_select_le _ _ _ Hs) as Hos.
  set (tag := Z.land hash TAG_MASK) in *.
  set (stored := stored_tag hash val) in *.
  set (filter' :=
         {| metadata := metadata filter;
            blocks := <[Z.to_nat (b / QUQU_BUCKETS_PER_BLOCK) :=
                          inserted_block blk s (b mod QUQU_BUCKETS_PER_BLOCK) (u16 stored)]>
                        (blocks filter) |}).
  assert (Hfound : forall out0,
    generate_match_mask filter tag b = Some 0 ->
    retrieve_value filter' tag b out0 = Some (true, val)).
  { intros out0 Hpre.
    rewrite (retrieve_value_found filter' tag b (s - b mod QUQU_BUCKETS_PER_BLOCK)
               (inserted_block blk s (b mod QUQU_BUCKETS_PER_BLOCK) (u16 stored))
               (u16 stored)).
    - unfold stored. rewrite stored_cell_val by lia. reflexivity.
    - apply inserted_match_mask; auto. apply stored_cell_tag.
    - lia.
    - cbn [blocks filter']. apply list_lookup_insert_eq.
      eapply lookup_lt_Some. exact Hblk.
    - cbn [tags inserted_block]. destruct Hwfb as [_ Hlen].
      rewrite shift_insert_lookup by (auto; lia).
      destruct (Z.ltb_spec (s - b mod QUQU_BUCKETS_PER_BLOCK)
                  (s - b mod QUQU_BUCKETS_PER_BLOCK)); [lia|].
      now rewrite Z.eqb_refl. }
  assert (Halt' : alt_index filter' hash = Some alt) by exact Halt.
  assert (Hprim : primary_index filter' hash = primary_index filter hash)
    by reflexivity.
  unfold vqf_query. rewrite Halt', Hprim. obind. fold tag.
  destruct (choose_bucket_inv _ _ _ _ Hch) as [->|[-> Hne]].
  - rewrite Hfound by exact Hp. reflexivity.
  - rewrite retrieve_value_none.
    + obind. cbv iota beta. apply Hfound. exact Ha.
    + unfold filter'. rewrite generate_match_mask_frame; [exact Hp|].
      intros Heq. apply Hne. apply Z2Nat.inj in Heq; [lia| |].
      * apply Z.div_pos; [lia|reflexivity].
      * apply Z.div_pos; [lia|reflexivity].
Qed.


(** Neither outcome of an insertion writes the metadata. *)
Lemma insert_at_metadata filter b cell filter' :
  insert_at filter b cell = Some filter' -> metadata filter' = metadata filter.
Proof.
  unfold insert_at. intros Hat.
  destruct (blocks filter !! _) as [blk|]; [|discriminate].
  cbn [mbind option_bind] in Hat.
  destruct (select_64 _ _); [|discriminate]. cbn [mbind option_bind] in Hat.
  destruct (update_tags_512 _ _ _); [|discriminate]. cbn [mbind option_bind] in Hat.
  destruct (update_md _ _); [|discriminate]. cbn [mbind option_bind] in Hat.
  injection Hat as <-. reflexivity.
Qed.

Lemma vqf_insert_val_false filter hash val filter' :
  vqf_insert_val filter hash val = Some (filter', false) -> filter' = filter.
Proof.
  unfold vqf_insert_val. intros Hins.
  destruct (blocks filter !! _); [|discriminate]. cbn [mbind option_bind] in Hins.
  destruct (alt_index filter hash); [|discriminate]. cbn [mbind option_bind] in Hins.
  destruct (choose_bucket _ _ _) as [[b|]|]; [| |discriminate];
    cbn [mbind option_bind] in Hins.
  - destruct (insert_at _ _ _); discriminate.
  - injection Hins as <-. reflexivity.
Qed.

Lemma vqf_insert_val_metadata filter hash val filter' ok :
  vqf_insert_val filter hash val = Some (filter', ok) ->
  metadata filter' = metadata filter.
Proof.
  intros Hins. destruct ok.
  - destruct (vqf_insert_val_inv _ _ _ _ Hins) as (alt & b & _ & _ & Hat).
    exact (insert_at_metadata _ _ _ _ Hat).
  - now rewrite (vqf_insert_val_false _ _ _ _ Hins).
Qed.
(** ** Removal *)

Lemma tzcnt_loop_spec x n : forall i,
  0 <= i -> (exists j, i <= j < i + Z.of_nat n /\ Z.testbit x j = true) ->
  i <= tzcnt_loop n i x < i + Z.of_nat n
  /\ Z.testbit x (tzcnt_loop n i x) = true.
Proof.
  induction n as [|n IH]; intros i Hi (j & Hj & Hbit); [lia|].
  cbn [tzcnt_loop]. destruct (Z.testbit x i) eqn:Hxi.
  - split; [lia|exact Hxi].
  - destruct (IH (i + 1)) as [Hr Hb]; [lia| |split; [lia|exact Hb]].
    exists j. split; [|exact Hbit].
    destruct (Z.eq_dec j i) as [->|]; [congruence|lia].
Qed.

Lemma generate_match_mask_bound filter tag b m :
  generate_match_mask filter tag b = Some m ->
  0 <= m /\ forall i, 0 <= i -> Z.testbit m i = true -> i < 28.
Proof.
  unfold generate_match_mask.
  destruct (blocks filter !! _) as [blk|]; [|discriminate]. obind.
  destruct (if negb _ then _ else _) as [start|]; [|discriminate]. obind.
  destruct (lookup_64 _ _) as [e|]; [|discriminate]. obind.
  intros [= <-]. split.
  - apply Z.land_nonneg. left. apply Z.shiftr_nonneg. unfold u64.
    apply Z.mod_pos_bound. reflexivity.
  - intros i Hi. rewrite Z.land_spec, tag_scan_bits by lia.
    destruct (Z.ltb_spec i 28); [lia|]. rewrite andb_false_r. discriminate.
Qed.

(** The lowest set bit of a match mask is the index of one of the 28 slots. *)
Lemma match_mask_ctz filter tag b m :
  generate_match_mask filter tag b = Some m -> m <> 0 ->
  exists t, __builtin_ctzll m = Some t /\ 0 <= t < 28.
Proof.
  intros Hm Hne. destruct (generate_match_mask_bound _ _ _ _ Hm) as [Hpos Hlt].
  unfold __builtin_ctzll. destruct (Z.eqb_spec m 0); [contradiction|].
  eexists. split; [reflexivity|].
  assert (Hlog : Z.testbit m (Z.log2 m) = true) by (apply Z.bit_log2; lia).
  pose proof (Z.log2_nonneg m) as Hl0.
  pose proof (Hlt _ Hl0 Hlog) as Hl28.
  destruct (tzcnt_loop_spec m 64 0 ltac:(lia)) as [Hr Hb].
  { exists (Z.log2 m). split; [lia|exact Hlog]. }
  split; [lia|]. apply Hlt; [lia|exact Hb].
Qed.

Lemma remove_len t :
  0 <= t <= 27 -> u64 (u64 (QUQU_SLOTS_PER_BLOCK - t) * 2) / 2 = 28 - t.
Proof.
  intros. unfold u64, QUQU_SLOTS_PER_BLOCK.
  change (2 ^ 64) with 18446744073709551616.
  rewrite (Z.mod_small (28 - t)) by lia. rewrite Z.mod_small by lia.
  apply Z.div_mul. lia.
Qed.

Lemma remove_len_wrap t :
  252 <= t <= 255 -> 2 ^ 62 <= u64 (u64 (QUQU_SLOTS_PER_BLOCK - t) * 2) / 2.
Proof.
  intros. unfold u64, QUQU_SLOTS_PER_BLOCK.
  change (2 ^ 64) with 18446744073709551616. change (2 ^ 62) with 4611686018427387904.
  Z.div_mod_to_equations. lia.
Qed.
(** ** The shape of the metadata words *)

Lemma md_shape_init : md_shape (2 ^ 63 - 1) 0.
Proof.
  split; [lia|]. split; [reflexivity|]. split; [|reflexivity].
  intros i Hi. change (2 ^ 63 - 1) with (Z.ones 63).
  rewrite Z.testbit_ones_nonneg by lia. apply Z.ltb_lt. lia.
Qed.

Lemma md_shape_rank63 x k : md_shape x k -> rank x 63 = 63 - k.
Proof.
  intros (Hk & Hr & Hones & Htop).
  destruct (Z.eq_dec k 28) as [->|Hne].
  - change (36 + 28) with (62 + 1 + 1) in Hr. rewrite (rank_succ x (62 + 1)) in Hr by lia.
    change (62 + 1) with 63 in Hr. rewrite Htop in Hr. simpl in Hr. lia.
  - replace 63 with ((36 + k) + (27 - k)) at 1 by lia.
    rewrite rank_ones_run; [lia|lia|lia|].
    intros i Hi. apply Hones. lia.
Qed.

Lemma rank_64 x : rank x 64 = rank x 63 + Z.b2z (Z.testbit x 63).
Proof. apply (rank_succ x 63). lia. Qed.

Lemma md_shape_popcount x k :
  0 <= x < 2 ^ 64 -> md_shape x k ->
  __builtin_popcountll x = if k =? 0 then 63 else 64 - k.
Proof.
  intros Hx Hs. pose proof (md_shape_rank63 _ _ Hs) as H63.
  destruct Hs as (Hk & Hr & Hones & Htop).
  rewrite popcount_rank, rank_64, H63, Htop by exact Hx.
  destruct (Z.eqb_spec k 0); simpl; lia.
Qed.

Lemma md_shape_popcount_range x k :
  0 <= x < 2 ^ 64 -> md_shape x k -> 36 <= __builtin_popcountll x <= 63.
Proof.
  intros Hx Hs. rewrite (md_shape_popcount _ _ Hx Hs).
  destruct Hs as (Hk & _). destruct (Z.eqb_spec k 0); lia.
Qed.

Lemma md_shape_not_full x k :
  0 <= x < 2 ^ 64 -> md_shape x k -> __builtin_popcountll x <> 36 -> k <= 27.
Proof.
  intros Hx Hs Hne. rewrite (md_shape_popcount _ _ Hx Hs) in Hne.
  destruct Hs as (Hk & _). destruct (Z.eqb_spec k 0); lia.
Qed.

(** The set bits of the low 63 bits are the set bits below position 63. *)
Lemma popcount_low63 x : __builtin_popcountll (Z.land x (2 ^ 63 - 1)) = rank x 63.
Proof.
  change (2 ^ 63 - 1) with (Z.ones 63). rewrite Z.land_ones by lia.
  pose proof (Z.mod_pos_bound x (2 ^ 63) ltac:(lia)) as Hm.
  rewrite popcount_rank by (change (2 ^ 64) with (2 * 2 ^ 63); lia).
  rewrite rank_64, Z.mod_pow2_bits_high by lia. simpl Z.b2z. rewrite Z.add_0_r.
  apply rank_ext; [lia|]. intros j Hj. apply Z.mod_pow2_bits_low. lia.
Qed.

Lemma md_shape_low63 x k :
  md_shape x k -> 35 <= __builtin_popcountll (Z.land x (2 ^ 63 - 1)) <= 63.
Proof.
  intros Hs. rewrite popcount_low63, (md_shape_rank63 _ _ Hs).
  destruct Hs as (Hk & _). lia.
Qed.

(** An insertion into a block that is not full adds one tag to the shape. *)
Lemma md_shape_insert x k o s :
  md_shape x k -> k <= 27 -> is_select x o s -> o < 36 ->
  md_shape (_pdep_u64 x (Z.lxor UINT64_MAX (Z.shiftl 1 s))) (k + 1).
Proof.
  intros (Hk & Hr & Hones & Htop) Hk27 Hs Ho.
  pose proof (is_select_le _ _ _ Hs) as Hos.
  pose proof Hs as (Hs64 & Hbit & Hrank).
  assert (Hsk : s < 36 + k).
  { destruct (Z.lt_ge_cases s (36 + k)); [assumption|].
    pose proof (rank_mono x (36 + k) s ltac:(lia)). lia. }
  split; [lia|]. split; [|split].
  - rewrite update_md_rank by lia.
    destruct (Z.leb_spec (36 + (k + 1)) s); [lia|].
    replace (36 + (k + 1) - 1) with (36 + k) by lia. exact Hr.
  - intros i Hi. rewrite update_md_bits by lia.
    destruct (Z.ltb_spec i 64), (Z.ltb_spec i s), (Z.eqb_spec i s); try lia.
    cbn [andb]. apply Hones. lia.
  - rewrite update_md_bits by lia.
    destruct (Z.ltb_spec 63 64), (Z.ltb_spec 63 s), (Z.eqb_spec 63 s); try lia.
    cbn [andb]. destruct (Z.eqb_spec (k + 1) 0); [lia|]. cbn [negb].
    apply Hones. lia.
Qed.

(** ** The invariant of the reachable filters *)

Lemma vqf_init_ok nslots heap : filter_ok (vqf_init nslots heap).
Proof.
  split; [apply vqf_init_wf|]. apply Forall_forall. intros blk Hin.
  destruct (vqf_init_blocks _ _ _ Hin) as [-> _]. exists 0. exact md_shape_init.
Qed.

Lemma filter_ok_lookup filter i blk :
  filter_ok filter -> blocks filter !! i = Some blk ->
  wf_block blk /\ exists k, md_shape (md blk) k.
Proof.
  intros [Hwf Hall] Hi. split; [exact (wf_filter_lookup _ _ _ Hwf Hi)|].
  rewrite Forall_lookup in Hall. exact (Hall i blk Hi).
Qed.

Lemma get_block_free_space_eq x : get_block_free_space x = __builtin_popcountll x.
Proof. reflexivity. Qed.

Lemma md_shape_free_space x k :
  0 <= x < 2 ^ 64 -> md_shape x k -> 36 <= get_block_free_space x <= 63.
Proof. rewrite get_block_free_space_eq. apply md_shape_popcount_range. Qed.

(** The bucket [choose_bucket] picks lies in a block that is not full,
    unless both buckets lie in one full block. *)
Lemma choose_bucket_not_full filter p alt b blk :
  filter_ok filter ->
  choose_bucket filter p alt = Some (Some b) ->
  blocks filter !! Z.to_nat (b / QUQU_BUCKETS_PER_BLOCK) = Some blk ->
  ~ (p / QUQU_BUCKETS_PER_BLOCK = alt / QUQU_BUCKETS_PER_BLOCK
     /\ exists pblk,
          blocks filter !! Z.to_nat (p / QUQU_BUCKETS_PER_BLOCK) = Some pblk
          /\ get_block_free_space (md pblk) = QUQU_BUCKETS_PER_BLOCK) ->
  get_block_free_space (md blk) <> 36.
Proof.
  intros Hok Hch Hblk Hnot. unfold choose_bucket in Hch.
  destruct (blocks filter !! Z.to_nat (p / QUQU_BUCKETS_PER_BLOCK))
    as [pblk|] eqn:Hp; [|discriminate].
  cbn [mbind option_bind] in Hch.
  destruct (filter_ok_lookup _ _ _ Hok Hp) as ([Hpmd _] & kp & Hkp).
  pose proof (md_shape_free_space _ _ Hpmd Hkp) as Hprange.
  assert (Hp36 : p / QUQU_BUCKETS_PER_BLOCK = alt / QUQU_BUCKETS_PER_BLOCK ->
                 get_block_free_space (md pblk) <> 36).
  { intros Hsame Hfull. apply Hnot. split; [exact Hsame|]. exists pblk. auto. }
  clear Hnot. remember (get_block_free_space (md pblk)) as fp eqn:Hfp.
  destruct (Z.ltb_spec fp QUQU_CHECK_ALT) as [Hlt|Hge]; cbn [andb] in Hch.
  - destruct (Z.eqb_spec (p / QUQU_BUCKETS_PER_BLOCK) (alt / QUQU_BUCKETS_PER_BLOCK))
      as [Hsame|Hdiff]; cbn [negb] in Hch.
    + injection Hch as <-. rewrite Hp in Hblk. injection Hblk as <-.
      rewrite <- Hfp. exact (Hp36 Hsame).
    + destruct (blocks filter !! Z.to_nat (alt / QUQU_BUCKETS_PER_BLOCK))
        as [ablk|] eqn:Ha; [|discriminate]. cbn [mbind option_bind] in Hch.
      remember (get_block_free_space (md ablk)) as fa eqn:Hfa.
      destruct (Z.gtb_spec fa fp) as [Hgt|Hle].
      * injection Hch as <-. rewrite Ha in Hblk. injection Hblk as <-.
        rewrite <- Hfa. lia.
      * destruct (Z.eqb_spec fp QUQU_BUCKETS_PER_BLOCK) as [|Hne]; [discriminate|].
        injection Hch as <-. rewrite Hp in Hblk. injection Hblk as <-.
        rewrite <- Hfp. exact Hne.
  - injection Hch as <-. rewrite Hp in Hblk. injection Hblk as <-.
    rewrite <- Hfp. unfold QUQU_CHECK_ALT in Hge. lia.
Qed.

Lemma vqf_insert_val_ok filter hash val filter' ok :
  filter_ok filter -> 0 <= hash < 2 ^ 64 ->
  ~ same_block_full filter hash ->
  vqf_insert_val filter hash val = Some (filter', ok) ->
  filter_ok filter'.
Proof.
  intros Hok Hh Hnot Hins. destruct ok;
    [|now rewrite (vqf_insert_val_false _ _ _ _ Hins)].
  destruct Hok as [Hwf Hall].
  destruct (vqf_insert_val_inv _ _ _ _ Hins) as (alt & b & Halt & Hch & Hat).
  pose proof (primary_index_nonneg filter hash Hwf ltac:(lia)) as Hp0.
  pose proof (alt_index_nonneg _ _ _ Hwf Halt) as Ha0.
  assert (Hb0 : 0 <= b)
    by (destruct (choose_bucket_inv _ _ _ _ Hch) as [->|[-> _]]; lia).
  destruct (insert_at_inv _ _ _ _ Hwf Hb0 Hat) as (blk & s & Hblk & Hs & Ht & ->).
  pose proof (is_select_le _ _ _ Hs) as Hos.
  destruct (filter_ok_lookup filter _ _ (conj Hwf Hall) Hblk) as ([Hmd _] & k & Hk).
  assert (Hnf : get_block_free_space (md blk) <> 36).
  { apply (choose_bucket_not_full filter (primary_index filter hash) alt b blk);
      auto; [split; assumption|].
    intros (Hsame & pblk & Hp & Hfull). apply Hnot. exists alt, pblk. auto. }
  rewrite get_block_free_space_eq in Hnf.
  pose proof (md_shape_not_full _ _ Hmd Hk Hnf) as Hk27.
  assert (Ho : b mod QUQU_BUCKETS_PER_BLOCK < 36)
    by (apply Z.mod_pos_bound; reflexivity).
  destruct Hwf as (Hkrb & Hrange & Hblocks).
  split; [split; [exact Hkrb|split; [exact Hrange|]]|]; cbn [blocks metadata].
  - apply Forall_insert; [exact Hblocks|].
    apply inserted_block_wf; [|lia].
    rewrite Forall_lookup in Hblocks. exact (Hblocks _ _ Hblk).
  - apply Forall_insert; [exact Hall|].
    exists (k + 1). cbn [md inserted_block].
    apply (md_shape_insert _ _ (b mod QUQU_BUCKETS_PER_BLOCK)); assumption.
Qed.

(** ** The capacity check *)

(** Where the two buckets lie in different blocks and both blocks are full,
    the insertion is refused and the filter is left as it was. *)
Lemma full_blocks_insert_refused filter hash val alt pblk ablk :
  alt_index filter hash = Some alt ->
  primary_index filter hash / QUQU_BUCKETS_PER_BLOCK <> alt / QUQU_BUCKETS_PER_BLOCK ->
  blocks filter !! Z.to_nat (primary_index filter hash / QUQU_BUCKETS_PER_BLOCK)
    = Some pblk ->
  blocks filter !! Z.to_nat (alt / QUQU_BUCKETS_PER_BLOCK) = Some ablk ->
  get_block_free_space (md pblk) = QUQU_BUCKETS_PER_BLOCK ->
  get_block_free_space (md ablk) = QUQU_BUCKETS_PER_BLOCK ->
  vqf_insert_val filter hash val = Some (filter, false).
Proof.
  intros Halt Hne Hp Ha Hpf Haf. unfold vqf_insert_val, choose_bucket.
  rewrite Hp, Halt. obind. rewrite Hpf.
  destruct (Z.eqb_spec (primary_index filter hash / QUQU_BUCKETS_PER_BLOCK)
              (alt / QUQU_BUCKETS_PER_BLOCK)); [contradiction|].
  change (QUQU_BUCKETS_PER_BLOCK <? QUQU_CHECK_ALT) with true. cbn [andb negb].
  rewrite Ha. obind. rewrite Haf. reflexivity.
Qed.
(** * Further facts about the code *)

(** ** [_pext_u64] under the masks of [low_order_pdep_table] *)

Lemma pext_loop_nonneg temp mask n : forall m k,
  0 <= k -> 0 <= pext_loop n m k temp mask.
Proof.
  induction n as [|n IH]; intros m k Hk; cbn [pext_loop]; [lia|].
  destruct (Z.testbit mask m); [|apply IH; lia].
  apply Z.lor_nonneg. split; [|apply IH; lia].
  apply Z.shiftl_nonneg. destruct (Z.testbit temp m); simpl; lia.
Qed.

(** The loop of [_pext_u64] from position [m] on, writing from position [k]
    on, under the mask with every bit set but bit [p]. *)
Lemma pext_loop_skip temp p n : forall m k j,
  0 <= p < 64 -> 0 <= m -> m + Z.of_nat n <= 64 -> 0 <= k -> 0 <= j ->
  Z.testbit (pext_loop n m k temp (Z.lxor UINT64_MAX (Z.shiftl 1 p))) j =
  (k <=? j)
  && (j <? k + Z.of_nat n - (if (m <=? p) && (p <? m + Z.of_nat n) then 1 else 0))
  && Z.testbit temp (m + (j - k) + (if (m <=? p) && (p <=? m + (j - k)) then 1 else 0)).
Proof.
  induction n as [|n IH]; intros m k j Hp Hm Hmn Hk Hj.
  - cbn [pext_loop]. rewrite Z.bits_0. symmetry. zcases.
  - cbn [pext_loop]. rewrite Nat2Z.inj_succ in *.
    rewrite low_order_bits by lia.
    destruct (Z.ltb_spec m 64); [|lia]. cbn [andb].
    destruct (Z.eqb_spec m p) as [->|Hne]; cbn [negb].
    + rewrite IH by lia. zcases.
    + rewrite Z.lor_spec, testbit_shiftl_b2z, IH by lia. zcases.
Qed.

Lemma pext_skip_bits temp p j :
  0 <= p < 64 -> 0 <= j ->
  Z.testbit (_pext_u64 temp (Z.lxor UINT64_MAX (Z.shiftl 1 p))) j =
  (j <? 63) && Z.testbit temp (if j <? p then j else j + 1).
Proof.
  intros Hp Hj. unfold _pext_u64. rewrite pext_loop_skip by lia.
  destruct (Z.leb_spec 0 j); [|lia]. cbn [andb].
  destruct (Z.leb_spec 0 p); [|lia].
  destruct (Z.ltb_spec p (0 + Z.of_nat 64)); [|lia]. cbn [andb].
  change (0 + Z.of_nat 64 - 1) with 63. rewrite Z.sub_0_r, Z.add_0_l.
  destruct (Z.ltb_spec j 63); [|reflexivity]. cbn [andb].
  destruct (Z.leb_spec p j), (Z.ltb_spec j p); try lia.
  - reflexivity.
  - now rewrite Z.add_0_r.
Qed.

Lemma pext_range temp mask : 0 <= _pext_u64 temp mask.
Proof. apply pext_loop_nonneg. lia. Qed.

(** The bits of the word [remove_md] writes. *)
Lemma remove_md_bits x p j :
  0 <= p < 64 -> 0 <= j ->
  Z.testbit (Z.lor (_pext_u64 x (Z.lxor UINT64_MAX (Z.shiftl 1 p))) (Z.shiftl 1 63)) j
  = if j <? 63 then Z.testbit x (if j <? p then j else j + 1) else j =? 63.
Proof.
  intros Hp Hj. rewrite Z.lor_spec, pext_skip_bits, Z.shiftl_1_l, Z.pow2_bits_eqb by lia.
  destruct (Z.ltb_spec j 63); cbn [andb orb].
  - destruct (Z.eqb_spec 63 j); [lia|]. apply orb_false_r.
  - rewrite Z.eqb_sym. reflexivity.
Qed.

(** ** [word_select] *)

Lemma word_select_found val r s : is_select val r s -> word_select val r = Some s.
Proof.
  intros Hs. pose proof (is_select_le _ _ _ Hs). pose proof Hs as (Hs64 & _).
  unfold word_select. rewrite one_eq by lia. obind.
  rewrite (pdep_one_select _ _ _ Hs), tzcnt_pow2 by lia. reflexivity.
Qed.

Lemma word_select_none val r :
  0 <= r < 64 -> rank val 64 <= r -> word_select val r = Some 64.
Proof.
  intros Hr Hfew. unfold word_select. rewrite one_eq by lia. obind.
  rewrite pdep_one_none by lia. reflexivity.
Qed.

Lemma select_64_none x o :
  0 <= o < 64 -> rank x 64 <= o -> select_64 x o = Some 64.
Proof.
  intros Ho Hfew. unfold select_64, lookup_64. rewrite one_eq by lia. obind.
  rewrite pdep_one_none by lia. rewrite Z.shiftr_0_l, Z.shiftl_0_l. reflexivity.
Qed.

(** ** [remove_md] against [update_md] *)

Lemma bits_below_64 x i : 0 <= x < 2 ^ 64 -> 64 <= i -> Z.testbit x i = false.
Proof.
  intros Hx Hi. rewrite <- (Z.mod_small x (2 ^ 64)) by lia.
  apply Z.mod_pow2_bits_high. lia.
Qed.

Lemma remove_after_update x p :
  0 <= p < 64 ->
  update_md x p ≫= (fun y => remove_md y p)
  = Some (Z.lor (x mod 2 ^ 63) (2 ^ 63)).
Proof.
  intros Hp. unfold update_md, remove_md. rewrite low_order_eq by lia. obind.
  f_equal. apply Z.bits_inj'. intros j Hj.
  rewrite remove_md_bits by lia. rewrite Z.lor_spec, Z.pow2_bits_eqb by lia.
  destruct (Z.ltb_spec j 63).
  - rewrite Z.mod_pow2_bits_low by lia.
    destruct (Z.eqb_spec 63 j); [lia|]. rewrite orb_false_r.
    destruct (Z.ltb_spec j p); rewrite update_md_bits by lia; zcases.
  - rewrite Z.mod_pow2_bits_high by lia. cbn [orb]. apply Z.eqb_sym.
Qed.

Lemma update_after_remove x p :
  0 <= x < 2 ^ 64 -> 0 <= p < 64 -> Z.testbit x p = false ->
  remove_md x p ≫= (fun y => update_md y p) = Some x.
Proof.
  intros Hx Hp Hbit. unfold update_md, remove_md. rewrite low_order_eq by lia. obind.
  f_equal. apply Z.bits_inj'. intros i Hi.
  rewrite update_md_bits by lia.
  destruct (Z.ltb_spec i 64); cbn [andb];
    [|symmetry; apply bits_below_64; [exact Hx|lia]].
  destruct (Z.ltb_spec i p).
  - rewrite remove_md_bits by lia. zcases.
  - destruct (Z.eqb_spec i p) as [->|Hne]; [now rewrite Hbit|].
    rewrite remove_md_bits by lia. zcases.
Qed.

(** ** [update_tags_512] *)

Lemma update_tags_512_ok tags t tag :
  length tags = 28%nat -> 0 <= t <= 27 ->
  update_tags_512 tags (t + 4) tag = Some (shift_insert tags t tag).
Proof.
  intros Hlen Ht.
  assert (Hsome : exists tags', update_tags_512 tags (u8 (t + 4)) tag = Some tags').
  { unfold update_tags_512. rewrite (u8_id (t + 4)) by lia.
    replace (t + 4 - 4) with t by lia. rewrite (u8_id t) by lia.
    rewrite memmove_len by lia. unfold memmove_tags. rewrite Hlen.
    change (Z.of_nat 28) with 28.
    assert (Hst : forall l : list Z, length l = 28%nat ->
              exists l', store_tag l t tag = Some l').
    { intros l Hl. unfold store_tag. rewrite Hl. change (Z.of_nat 28) with 28.
      destruct (Z.ltb_spec t 28); [eauto|lia]. }
    destruct (Z.eqb_spec (27 - t) 0); [obind; apply Hst; exact Hlen|].
    destruct (Z.leb_spec (t + (27 - t)) 28); [|lia].
    destruct (Z.leb_spec (t + 1 + (27 - t)) 28); [|lia].
    cbn [andb]. obind. apply Hst.
    rewrite !length_app, !length_take, !length_drop. lia. }
  destruct Hsome as (tags' & Hup). rewrite (u8_id (t + 4)) in Hup by lia.
  rewrite Hup. f_equal.
  rewrite <- (u8_id (t + 4)) in Hup by lia.
  apply update_tags_512_inv in Hup; [|exact Hlen|lia].
  destruct Hup as [_ ->]. f_equal. lia.
Qed.

Lemma update_tags_512_overflow tags t tag :
  length tags = 28%nat -> 28 <= t <= 60 ->
  update_tags_512 tags (t + 4) tag = None.
Proof.
  intros Hlen Ht.
  destruct (update_tags_512 tags (t + 4) tag) as [tags'|] eqn:Hup; [|reflexivity].
  rewrite <- (u8_id (t + 4)) in Hup by lia.
  apply update_tags_512_inv in Hup; [lia|exact Hlen|lia].
Qed.

(** ** Removal of an absent key *)

Lemma remove_tags_absent filter tag b :
  generate_match_mask filter tag b = Some 0 ->
  remove_tags filter tag b = Some (filter, false).
Proof. intros H. unfold remove_tags. rewrite H. reflexivity. Qed.

Lemma vqf_remove_absent filter hash alt :
  alt_index filter hash = Some alt ->
  generate_match_mask filter (Z.land hash TAG_MASK) (primary_index filter hash) = Some 0 ->
  generate_match_mask filter (Z.land hash TAG_MASK) alt = Some 0 ->
  vqf_remove filter hash = Some (filter, false).
Proof.
  intros Halt Hp Ha. unfold vqf_remove. rewrite Halt. obind.
  rewrite (remove_tags_absent _ _ _ Hp). obind. cbv iota.
  exact (remove_tags_absent _ _ _ Ha).
Qed.

(** ** Presence after an insertion *)

Lemma generate_match_mask_defined filter tag b blk :
  0 <= b ->
  blocks filter !! Z.to_nat (b / QUQU_BUCKETS_PER_BLOCK) = Some blk ->
  exists m, generate_match_mask filter tag b = Some m.
Proof.
  intros Hb Hblk. unfold generate_match_mask. rewrite Hblk. obind.
  pose proof (Z.mod_pos_bound b QUQU_BUCKETS_PER_BLOCK ltac:(reflexivity)) as Ho.
  unfold QUQU_BUCKETS_PER_BLOCK in Ho.
  unfold lookup_64. rewrite (one_eq (b mod QUQU_BUCKETS_PER_BLOCK))
    by (unfold QUQU_BUCKETS_PER_BLOCK; lia).
  destruct (Z.eqb_spec (b mod QUQU_BUCKETS_PER_BLOCK) 0) as [E|E]; cbn [negb].
  - obind. eauto.
  - rewrite one_eq by (unfold QUQU_BUCKETS_PER_BLOCK in *; lia). obind. eauto.
Qed.

(** The scanner finds the cell an insertion wrote, whatever the bucket
    held. *)
Lemma inserted_mask_bit filter b blk s cell tag :
  0 <= b ->
  blocks filter !! Z.to_nat (b / QUQU_BUCKETS_PER_BLOCK) = Some blk ->
  wf_block blk ->
  is_select (md blk) (b mod QUQU_BUCKETS_PER_BLOCK) s ->
  s - b mod QUQU_BUCKETS_PER_BLOCK <= 27 ->
  Z.land cell TAG_MASK = tag ->
  exists m,
    generate_match_mask
      {| metadata := metadata filter;
         blocks := <[Z.to_nat (b / QUQU_BUCKETS_PER_BLOCK) :=
                       inserted_block blk s (b mod QUQU_BUCKETS_PER_BLOCK) cell]>
                     (blocks filter) |} tag b = Some m
    /\ Z.testbit m (s - b mod QUQU_BUCKETS_PER_BLOCK) = true.
Proof.
  intros Hb Hblk [Hmd Hlen] Hs Ht Hcell.
  set (o := b mod QUQU_BUCKETS_PER_BLOCK) in *.
  assert (Ho : 0 <= o < 36) by (apply Z.mod_pos_bound; reflexivity).
  pose proof (is_select_le _ _ _ Hs) as Hos.
  destruct (run_bounds_exists _ _ _ Hs) as (a & Hrun).
  pose proof (run_bounds_le _ _ _ _ Hrun) as Hae.
  pose proof (inserted_run blk s o a cell Hs Ht ltac:(lia) Hrun) as Hrun'.
  eexists. split.
  - apply (generate_match_mask_run _ tag b (inserted_block blk s o cell) a (s - o + 1));
      [lia| |exact Hrun'|lia].
    cbn [blocks]. apply list_lookup_insert_eq. eapply lookup_lt_Some. exact Hblk.
  - rewrite match_mask_bits by lia.
    assert (Hl : shift_insert (tags blk) (s - o) cell !! Z.to_nat (s - o) = Some cell).
    { rewrite shift_insert_lookup by lia.
      destruct (Z.ltb_spec (s - o) (s - o)); [lia|]. now rewrite Z.eqb_refl. }
    unfold cell_matches, inserted_block. cbn [tags].
    rewrite (nth_of_lookup _ _ _ Hl), Hcell, Z.eqb_refl. zcases.
Qed.

Lemma check_tags_of_mask filter tag b m :
  generate_match_mask filter tag b = Some m ->
  check_tags filter tag b = Some (negb (m =? 0)).
Proof. intros Hm. unfold check_tags. rewrite Hm. reflexivity. Qed.

Lemma check_tags_bit filter tag b m i :
  generate_match_mask filter tag b = Some m -> Z.testbit m i = true ->
  check_tags filter tag b = Some true.
Proof.
  intros Hm Hbit. unfold check_tags. rewrite Hm. obind.
  destruct (Z.eqb_spec m 0) as [->|]; [|reflexivity].
  rewrite Z.bits_0 in Hbit. discriminate.
Qed.

Lemma insert_then_present filter hash val filter' :
  wf_filter filter -> 0 <= hash < 2 ^ 64 ->
  vqf_insert_val filter hash val = Some (filter', true) ->
  vqf_is_present filter' hash = Some true.
Proof.
  intros Hwf Hh Hins.
  destruct (vqf_insert_val_inv _ _ _ _ Hins) as (alt & b & Halt & Hch & Hat).
  pose proof (primary_index_nonneg filter hash Hwf ltac:(lia)) as Hp0.
  pose proof (alt_index_nonneg _ _ _ Hwf Halt) as Ha0.
  assert (Hb0 : 0 <= b)
    by (destruct (choose_bucket_inv _ _ _ _ Hch) as [->|[-> _]]; lia).
  destruct (insert_at_inv _ _ _ _ Hwf Hb0 Hat) as (blk & s & Hblk & Hs & Ht & ->).
  pose proof (wf_filter_lookup _ _ _ Hwf Hblk) as Hwfb.
  destruct (inserted_mask_bit filter b blk s (u16 (stored_tag hash val))
              (Z.land hash TAG_MASK) Hb0 Hblk Hwfb Hs Ht (stored_cell_tag _ _))
    as (m & Hm & Hbit).
  pose proof (check_tags_bit _ _ _ _ _ Hm Hbit) as Hck.
  set (filter' :=
         {| metadata := metadata filter;
            blocks := <[Z.to_nat (b / QUQU_BUCKETS_PER_BLOCK) :=
                          inserted_block blk s (b mod QUQU_BUCKETS_PER_BLOCK)
                            (u16 (stored_tag hash val))]> (blocks filter) |}) in *.
  assert (Halt' : alt_index filter' hash = Some alt) by exact Halt.
  assert (Hprim : primary_index filter' hash = primary_index filter hash)
    by reflexivity.
  unfold vqf_is_present. rewrite Halt', Hprim. obind.
  destruct (choose_bucket_inv _ _ _ _ Hch) as [->|[-> Hne]].
  - rewrite Hck. reflexivity.
  - assert (Hpblk : exists pblk,
              blocks filter !! Z.to_nat (primary_index filter hash / QUQU_BUCKETS_PER_BLOCK)
              = Some pblk).
    { unfold vqf_insert_val in Hins.
      destruct (blocks filter !! _) as [pblk|]; [eauto|discriminate]. }
    destruct Hpblk as (pblk & Hpblk).
    destruct (generate_match_mask_defined filter (Z.land hash TAG_MASK)
                (primary_index filter hash) pblk Hp0 Hpblk) as (m0 & Hm0).
    assert (Hm0' : generate_match_mask filter' (Z.land hash TAG_MASK)
                     (primary_index filter hash) = Some m0).
    { unfold filter'. rewrite generate_match_mask_frame; [exact Hm0|].
      intros Heq. apply Hne. apply Z2Nat.inj in Heq; [lia| |].
      - apply Z.div_pos; [lia|reflexivity].
      - apply Z.div_pos; [lia|reflexivity]. }
    rewrite (check_tags_of_mask _ _ _ _ Hm0'). obind.
    destruct (negb (m0 =? 0)); [reflexivity|exact Hck].
Qed.

(** ** What an insertion leaves alone *)

Lemma vqf_insert_val_frame filter hash val filter' ok :
  wf_filter filter -> 0 <= hash < 2 ^ 64 ->
  vqf_insert_val filter hash val = Some (filter', ok) ->
  exists b,
    (b = primary_index filter hash \/ alt_index filter hash = Some b)
    /\ (forall i, i <> Z.to_nat (b / QUQU_BUCKETS_PER_BLOCK) ->
                  blocks filter' !! i = blocks filter !! i)
    /\ length (blocks filter') = length (blocks filter)
    /\ metadata filter' = metadata filter.
Proof.
  intros Hwf Hh Hins. destruct ok.
  - destruct (vqf_insert_val_inv _ _ _ _ Hins) as (alt & b & Halt & Hch & Hat).
    pose proof (primary_index_nonneg filter hash Hwf ltac:(lia)) as Hp0.
    pose proof (alt_index_nonneg _ _ _ Hwf Halt) as Ha0.
    assert (Hb0 : 0 <= b)
      by (destruct (choose_bucket_inv _ _ _ _ Hch) as [->|[-> _]]; lia).
    destruct (insert_at_inv _ _ _ _ Hwf Hb0 Hat) as (blk & s & Hblk & Hs & Ht & ->).
    exists b. split; [|split; [|split]].
    + destruct (choose_bucket_inv _ _ _ _ Hch) as [->|[-> _]]; auto.
    + intros i Hi. cbn [blocks]. apply list_lookup_insert_ne. auto.
    + cbn [blocks]. apply length_insert.
    + reflexivity.
  - rewrite (vqf_insert_val_false _ _ _ _ Hins).
    exists (primary_index filter hash). auto.
Qed.

Lemma vqf_insert_val_wf filter hash val filter' ok :
  wf_filter filter -> 0 <= hash < 2 ^ 64 ->
  vqf_insert_val filter hash val = Some (filter', ok) ->
  wf_filter filter'.
Proof.
  intros Hwf Hh Hins. destruct ok;
    [|now rewrite (vqf_insert_val_false _ _ _ _ Hins)].
  destruct (vqf_insert_val_inv _ _ _ _ Hins) as (alt & b & Halt & Hch & Hat).
  pose proof (primary_index_nonneg filter hash Hwf ltac:(lia)) as Hp0.
  pose proof (alt_index_nonneg _ _ _ Hwf Halt) as Ha0.
  assert (Hb0 : 0 <= b)
    by (destruct (choose_bucket_inv _ _ _ _ Hch) as [->|[-> _]]; lia).
  destruct (insert_at_inv _ _ _ _ Hwf Hb0 Hat) as (blk & s & Hblk & Hs & Ht & ->).
  pose proof (is_select_le _ _ _ Hs) as Hos.
  pose proof (wf_filter_lookup _ _ _ Hwf Hblk) as Hwfb.
  assert (Ho : b mod QUQU_BUCKETS_PER_BLOCK < 36)
    by (apply Z.mod_pos_bound; reflexivity).
  destruct Hwf as (Hkrb & Hrange & Hblocks).
  split; [exact Hkrb|]. split; [exact Hrange|]. cbn [blocks].
  apply Forall_insert; [exact Hblocks|]. apply inserted_block_wf; [exact Hwfb|lia].
Qed.

(** ** The out-parameter of [vqf_query] *)

Lemma retrieve_value_false filter tag b val val' :
  retrieve_value filter tag b val = Some (false, val') -> val' = val.
Proof.
  unfold retrieve_value.
  destruct (generate_match_mask filter tag b) as [m|]; [|discriminate]. obind.
  destruct (__builtin_ffs m - 1 =? -1); [now intros [= <-]|].
  destruct (blocks filter !! _) as [blk|]; [|discriminate]. obind.
  destruct (tags blk !! _); discriminate.
Qed.

Lemma vqf_query_false filter hash val val' :
  vqf_query filter hash val = Some (false, val') -> val' = val.
Proof.
  unfold vqf_query.
  destruct (alt_index filter hash) as [alt|]; [|discriminate]. obind.
  destruct (retrieve_value filter _ _ val) as [[found v1]|] eqn:H1; [|discriminate].
  obind. destruct found; [discriminate|].
  apply retrieve_value_false in H1. subst v1. apply retrieve_value_false.
Qed.

(** ** The loop of [retrieve_values] *)

Lemma high_bytes_from_zero tags from n : high_bytes_from tags 0 from n = [].
Proof.
  unfold high_bytes_from.
  replace (List.filter (fun j => Z.testbit 0 (Z.of_nat (j - from))) (seq from n))
    with (@nil nat); [reflexivity|].
  symmetry. generalize (seq from n). intros l.
  induction l as [|a l IH]; [reflexivity|]. cbn [List.filter].
  rewrite Z.bits_0. exact IH.
Qed.

Lemma high_bytes_from_step tags mask from n :
  0 <= mask ->
  high_bytes_from tags mask from (S n)
  = (if Z.testbit mask 0 then [u8 (Z.shiftr (nth from tags 0) 8)] else [])
    ++ high_bytes_from tags (Z.shiftr mask 1) (S from) n.
Proof.
  intros Hm. unfold high_bytes_from. cbn [seq List.filter].
  replace (from - from)%nat with 0%nat by lia. change (Z.of_nat 0) with 0.
  assert (Hrest :
    List.filter (fun j => Z.testbit mask (Z.of_nat (j - from))) (seq (S from) n)
    = List.filter (fun j => Z.testbit (Z.shiftr mask 1) (Z.of_nat (j - S from)))
        (seq (S from) n)).
  { apply List.filter_ext_in. intros j Hj. apply in_seq in Hj.
    rewrite Z.shiftr_spec by lia. f_equal. lia. }
  rewrite Hrest. destruct (Z.testbit mask 0); reflexivity.
Qed.

Lemma land_1_bit mask : (Z.land mask 1 =? 1) = Z.testbit mask 0.
Proof.
  change 1 with (Z.ones 1) at 1. rewrite Z.land_ones by lia.
  change (2 ^ 1) with 2. rewrite <- Z.bit0_mod.
  destruct (Z.testbit mask 0); reflexivity.
Qed.

Lemma retrieve_loop_spec tags n : forall fuel mask from values,
  (n <= fuel)%nat -> 0 <= mask < 2 ^ Z.of_nat n ->
  (from + n <= length tags)%nat ->
  retrieve_loop fuel tags mask (Z.of_nat from) values
  = Some (values ++ high_bytes_from tags mask from n).
Proof.
  induction n as [|n IH]; intros fuel mask from values Hfuel Hmask Hlen.
  - assert (mask = 0) by (change (2 ^ Z.of_nat 0) with 1 in Hmask; lia). subst mask.
    rewrite high_bytes_from_zero, app_nil_r.
    destruct fuel; reflexivity.
  - destruct fuel as [|fuel]; [lia|]. cbn [retrieve_loop].
    destruct (Z.gtb_spec mask 0) as [Hpos|Hzero].
    + rewrite land_1_bit, high_bytes_from_step by lia.
      assert (Hcell : exists c, tags !! from = Some c)
        by (apply lookup_lt_is_Some_2; lia).
      destruct Hcell as (c & Hc). rewrite Nat2Z.id, Hc.
      rewrite (nth_of_lookup _ _ _ Hc).
      assert (Hhalf : 0 <= Z.shiftr mask 1 < 2 ^ Z.of_nat n).
      { rewrite Z.shiftr_div_pow2 by lia. change (2 ^ 1) with 2.
        rewrite Nat2Z.inj_succ, Z.pow_succ_r in Hmask by lia.
        split; [apply Z.div_pos; lia|apply Z.div_lt_upper_bound; lia]. }
      replace (Z.of_nat from + 1) with (Z.of_nat (S from)) by lia.
      destruct (Z.testbit mask 0); obind.
      * rewrite (IH fuel _ (S from)) by (lia || assumption).
        now rewrite <- app_assoc.
      * rewrite (IH fuel _ (S from)) by (lia || assumption). reflexivity.
    + assert (mask = 0) by lia. subst mask.
      now rewrite high_bytes_from_zero, app_nil_r.
Qed.

Lemma match_mask_lt filter tag b m :
  generate_match_mask filter tag b = Some m -> 0 <= m < 2 ^ 28.
Proof.
  intros Hm. destruct (generate_match_mask_bound _ _ _ _ Hm) as [Hpos Hbits].
  split; [exact Hpos|].
  destruct (Z.eq_dec m 0) as [->|Hne]; [reflexivity|].
  apply Z.log2_lt_pow2; [lia|]. apply Hbits; [apply Z.log2_nonneg|].
  apply Z.bit_log2. lia.
Qed.

(** [retrieve_values] appends the upper byte of every cell the scanner
    selects, in slot order. *)
Lemma retrieve_values_spec filter tag b blk m values :
  blocks filter !! Z.to_nat (b / QUQU_BUCKETS_PER_BLOCK) = Some blk ->
  length (tags blk) = 28%nat ->
  generate_match_mask filter tag b = Some m ->
  retrieve_values filter tag b values
  = Some (negb (m =? 0), values ++ high_bytes (tags blk) m).
Proof.
  intros Hblk Hlen Hm. pose proof (match_mask_lt _ _ _ _ Hm) as Hlt.
  unfold retrieve_values. rewrite Hm. obind.
  destruct (Z.eqb_spec m 0) as [->|Hne]; cbn [negb].
  - unfold high_bytes. now rewrite high_bytes_from_zero, app_nil_r.
  - rewrite Hblk. obind.
    pose proof (retrieve_loop_spec (tags blk) 28 64 m 0 values
                  ltac:(lia) Hlt ltac:(lia)) as Hloop.
    change (Z.of_nat 0) with 0 in Hloop. rewrite Hloop. obind.
    unfold high_bytes. reflexivity.
Qed.

(** ** The three lookups *)

Lemma ffs_nonzero m :
  0 < m < 2 ^ 28 -> 0 <= __builtin_ffs m - 1 < 28.
Proof.
  intros Hm. unfold __builtin_ffs.
  assert (Hu : u32 m = m).
  { unfold u32. apply Z.mod_small. change (2 ^ 28) with 268435456 in Hm.
    change (2 ^ 32) with 4294967296. lia. }
  rewrite Hu. destruct (Z.eqb_spec m 0); [lia|].
  assert (Hlog : Z.testbit m (Z.log2 m) = true) by (apply Z.bit_log2; lia).
  assert (Hl28 : Z.log2 m < 28) by (apply Z.log2_lt_pow2; lia).
  pose proof (Z.log2_nonneg m) as Hl0.
  destruct (tzcnt_loop_spec m 32 0 ltac:(lia)) as [Hr Hb].
  { exists (Z.log2 m). split; [lia|exact Hlog]. }
  assert (tzcnt_loop 32 0 m < 28); [|lia].
  destruct (Z.lt_ge_cases (tzcnt_loop 32 0 m) 28) as [|Hge]; [assumption|].
  exfalso. rewrite Z.bits_above_log2 in Hb by lia. discriminate.
Qed.

Lemma retrieve_value_bool filter tag b blk m val :
  blocks filter !! Z.to_nat (b / QUQU_BUCKETS_PER_BLOCK) = Some blk ->
  length (tags blk) = 28%nat ->
  generate_match_mask filter tag b = Some m ->
  exists val', retrieve_value filter tag b val = Some (negb (m =? 0), val').
Proof.
  intros Hblk Hlen Hm. pose proof (match_mask_lt _ _ _ _ Hm) as Hlt.
  unfold retrieve_value. rewrite Hm. obind.
  destruct (Z.eqb_spec m 0) as [->|Hne]; cbn [negb].
  - eexists. reflexivity.
  - pose proof (ffs_nonzero m ltac:(lia)) as Hffs.
    destruct (Z.eqb_spec (__builtin_ffs m - 1) (-1)); [lia|].
    rewrite Hblk. obind.
    assert (Hcell : exists c, tags blk !! Z.to_nat (__builtin_ffs m - 1) = Some c)
      by (apply lookup_lt_is_Some_2; lia).
    destruct Hcell as (c & ->). obind. eauto.
Qed.

Lemma generate_match_mask_block filter tag b m :
  generate_match_mask filter tag b = Some m ->
  exists blk, blocks filter !! Z.to_nat (b / QUQU_BUCKETS_PER_BLOCK) = Some blk.
Proof.
  unfold generate_match_mask.
  destruct (blocks filter !! _) as [blk|]; [eauto|discriminate].
Qed.

Lemma check_tags_inv filter tag b found :
  check_tags filter tag b = Some found ->
  exists m, generate_match_mask filter tag b = Some m /\ found = negb (m =? 0).
Proof.
  unfold check_tags. destruct (generate_match_mask filter tag b) as [m|];
    [|discriminate]. obind. intros [= <-]. eauto.
Qed.

(** [vqf_query] and [vqf_query_iter] return the boolean [vqf_is_present]
    returns. *)
Lemma lookups_agree filter hash found :
  wf_filter filter ->
  vqf_is_present filter hash = Some found ->
  (forall value, exists value', vqf_query filter hash value = Some (found, value'))
  /\ (forall values, exists values',
        vqf_query_iter filter hash values = Some (found, values')).
Proof.
  intros Hwf. unfold vqf_is_present, vqf_query, vqf_query_iter. cbv zeta.
  destruct (alt_index filter hash) as [alt|]; [|obind; discriminate]. obind.
  destruct (check_tags filter _ (primary_index filter hash)) as [f1|] eqn:Hc1; [|obind; discriminate]. obind.
  destruct (check_tags_inv _ _ _ _ Hc1) as (m1 & Hm1 & ->).
  destruct (generate_match_mask_block _ _ _ _ Hm1) as (blk1 & Hblk1).
  destruct (wf_filter_lookup _ _ _ Hwf Hblk1) as [_ Hlen1].
  intros Hpres. split.
  - intros value.
    destruct (retrieve_value_bool _ _ _ _ _ value Hblk1 Hlen1 Hm1) as (v1 & ->).
    obind. destruct (negb (m1 =? 0)).
    + injection Hpres as <-. eauto.
    + destruct (check_tags_inv _ _ _ _ Hpres) as (m2 & Hm2 & ->).
      destruct (generate_match_mask_block _ _ _ _ Hm2) as (blk2 & Hblk2).
      destruct (wf_filter_lookup _ _ _ Hwf Hblk2) as [_ Hlen2].
      exact (retrieve_value_bool _ _ _ _ _ v1 Hblk2 Hlen2 Hm2).
  - intros values.
    rewrite (retrieve_values_spec _ _ _ _ _ values Hblk1 Hlen1 Hm1). obind.
    destruct (negb (m1 =? 0)).
    + injection Hpres as <-. eauto.
    + destruct (check_tags_inv _ _ _ _ Hpres) as (m2 & Hm2 & ->).
      destruct (generate_match_mask_block _ _ _ _ Hm2) as (blk2 & Hblk2).
      destruct (wf_filter_lookup _ _ _ Hwf Hblk2) as [_ Hlen2].
      rewrite (retrieve_values_spec _ _ _ _ _ _ Hblk2 Hlen2 Hm2). eauto.
Qed.

(** ** The fresh filter *)

Lemma init_select o : 0 <= o < 63 -> is_select (2 ^ 63 - 1) o o.
Proof.
  intros Ho. change (2 ^ 63 - 1) with (Z.ones 63). split; [lia|]. split.
  - rewrite Z.testbit_ones_nonneg by lia. apply Z.ltb_lt. lia.
  - pose proof (rank_ones_run (Z.ones 63) 0 o ltac:(lia) ltac:(lia)) as Hrun.
    rewrite rank_0, !Z.add_0_l in Hrun. apply Hrun.
    intros i Hi. rewrite Z.testbit_ones_nonneg by lia. apply Z.ltb_lt. lia.
Qed.

Lemma init_run o : 0 <= o < 63 -> run_bounds (2 ^ 63 - 1) o 0 0.
Proof.
  intros Ho. split.
  - exists o. split; [apply init_select; lia|lia].
  - destruct (Z.eqb_spec o 0); [reflexivity|].
    exists (o - 1). split; [apply init_select; lia|lia].
Qed.

(** Every run of a block with the metadata word of [vqf_init] is empty:
    the scanner finds nothing, whatever the cells hold. *)
Lemma init_match_mask filter tag b blk :
  0 <= b ->
  blocks filter !! Z.to_nat (b / QUQU_BUCKETS_PER_BLOCK) = Some blk ->
  md blk = 2 ^ 63 - 1 ->
  generate_match_mask filter tag b = Some 0.
Proof.
  intros Hb Hblk Hmd.
  pose proof (Z.mod_pos_bound b QUQU_BUCKETS_PER_BLOCK ltac:(reflexivity)) as Ho.
  rewrite (generate_match_mask_run filter tag b blk 0 0); [reflexivity|lia|exact Hblk| |lia].
  rewrite Hmd. apply init_run. unfold QUQU_BUCKETS_PER_BLOCK in *. lia.
Qed.

Lemma vqf_init_sizes requested heap :
  0 <= requested ->
  (requested + QUQU_SLOTS_PER_BLOCK) / QUQU_SLOTS_PER_BLOCK
    * QUQU_BUCKETS_PER_BLOCK * 2 ^ TAG_BITS < 2 ^ 64 ->
  let nb := (requested + QUQU_SLOTS_PER_BLOCK) / QUQU_SLOTS_PER_BLOCK in
  1 <= nb
  /\ range (metadata (vqf_init requested heap)) = nb * 36 * 256
  /\ length (blocks (vqf_init requested heap)) = Z.to_nat nb.
Proof.
  intros Hn Hfit. cbv zeta.
  unfold QUQU_SLOTS_PER_BLOCK, QUQU_BUCKETS_PER_BLOCK, TAG_BITS in *.
  change (2 ^ 8) with 256 in *. change (2 ^ 64) with 18446744073709551616 in Hfit.
  assert (Hq : 1 <= (requested + 28) / 28).
  { replace (requested + 28) with (requested + 1 * 28) by lia.
    rewrite Z.div_add by lia. pose proof (Z.div_pos requested 28). lia. }
  assert (Hsmall : requested + 28 < 18446744073709551616).
  { pose proof (Z.mod_pos_bound (requested + 28) 28 ltac:(lia)).
    pose proof (Z.div_mod (requested + 28) 28 ltac:(lia)). lia. }
  split; [exact Hq|].
  unfold vqf_init. cbn [metadata range blocks].
  unfold QUQU_SLOTS_PER_BLOCK, QUQU_BUCKETS_PER_BLOCK.
  rewrite (u64_id (requested + 28))
    by (change (2 ^ 64) with 18446744073709551616; lia).
  split.
  - change (u64 (Z.shiftl 1 8)) with 256.
    rewrite (u64_id ((requested + 28) / 28 * 36))
      by (change (2 ^ 64) with 18446744073709551616; lia).
    apply u64_id. change (2 ^ 64) with 18446744073709551616. lia.
  - rewrite length_map, length_seq. reflexivity.
Qed.

(** In the filter [vqf_init] returns, the bucket of a value below [range],
    shifted by the 8 tag bits, lies in one of the blocks. *)
Lemma vqf_init_bucket_block requested heap x :
  0 <= requested ->
  (requested + QUQU_SLOTS_PER_BLOCK) / QUQU_SLOTS_PER_BLOCK
    * QUQU_BUCKETS_PER_BLOCK * 2 ^ TAG_BITS < 2 ^ 64 ->
  0 <= x < range (metadata (vqf_init requested heap)) ->
  exists blk,
    blocks (vqf_init requested heap)
      !! Z.to_nat (Z.shiftr x 8 / QUQU_BUCKETS_PER_BLOCK) = Some blk
    /\ md blk = 2 ^ 63 - 1.
Proof.
  intros Hn Hfit Hx.
  destruct (vqf_init_sizes requested heap Hn Hfit) as (Hnb & Hrange & Hlen).
  rewrite Hrange in Hx.
  set (nb := (requested + QUQU_SLOTS_PER_BLOCK) / QUQU_SLOTS_PER_BLOCK) in *.
  assert (Hidx : 0 <= Z.shiftr x 8 / QUQU_BUCKETS_PER_BLOCK < nb).
  { rewrite Z.shiftr_div_pow2 by lia. change (2 ^ 8) with 256.
    unfold QUQU_BUCKETS_PER_BLOCK. split.
    - apply Z.div_pos; [apply Z.div_pos; lia|lia].
    - apply Z.div_lt_upper_bound; [lia|].
      apply Z.div_lt_upper_bound; lia. }
  destruct (lookup_lt_is_Some_2 (blocks (vqf_init requested heap))
              (Z.to_nat (Z.shiftr x 8 / QUQU_BUCKETS_PER_BLOCK))) as (blk & Hblk);
    [rewrite Hlen; lia|].
  exists blk. split; [exact Hblk|].
  apply list_elem_of_lookup_2 in Hblk.
  destruct (vqf_init_blocks _ _ _ Hblk) as [Hmd _]. exact Hmd.
Qed.

Lemma vqf_init_alt_index requested heap hash :
  0 <= requested ->
  (requested + QUQU_SLOTS_PER_BLOCK) / QUQU_SLOTS_PER_BLOCK
    * QUQU_BUCKETS_PER_BLOCK * 2 ^ TAG_BITS < 2 ^ 64 ->
  exists x,
    0 <= x < range (metadata (vqf_init requested heap))
    /\ alt_index (vqf_init requested heap) hash = Some (Z.shiftr x 8).
Proof.
  intros Hn Hfit.
  destruct (vqf_init_sizes requested heap Hn Hfit) as (Hnb & Hrange & _).
  unfold alt_index. change (key_remainder_bits (metadata (vqf_init requested heap))) with 8.
  rewrite Hrange.
  destruct (Z.eqb_spec ((requested + QUQU_SLOTS_PER_BLOCK) / QUQU_SLOTS_PER_BLOCK
                        * 36 * 256) 0) as [E|E]; [lia|].
  eexists. split; [|reflexivity]. apply Z.mod_pos_bound. lia.
Qed.

(** No hash is present in the filter [vqf_init] returns. *)
Lemma vqf_init_empty requested heap hash :
  0 <= requested ->
  (requested + QUQU_SLOTS_PER_BLOCK) / QUQU_SLOTS_PER_BLOCK
    * QUQU_BUCKETS_PER_BLOCK * 2 ^ TAG_BITS < 2 ^ 64 ->
  0 <= hash < range (metadata (vqf_init requested heap)) ->
  exists alt,
    alt_index (vqf_init requested heap) hash = Some alt
    /\ generate_match_mask (vqf_init requested heap) (Z.land hash TAG_MASK)
         (primary_index (vqf_init requested heap) hash) = Some 0
    /\ generate_match_mask (vqf_init requested heap) (Z.land hash TAG_MASK) alt
       = Some 0.
Proof.
  intros Hn Hfit Hh.
  destruct (vqf_init_alt_index requested heap hash Hn Hfit) as (x & Hx & Halt).
  destruct (vqf_init_bucket_block requested heap x Hn Hfit Hx) as (ablk & Hablk & Hamd).
  destruct (vqf_init_bucket_block requested heap hash Hn Hfit Hh) as (pblk & Hpblk & Hpmd).
  exists (Z.shiftr x 8). split; [exact Halt|]. split.
  - unfold primary_index.
    change (key_remainder_bits (metadata (vqf_init requested heap))) with 8.
    apply (init_match_mask _ _ _ pblk); [|exact Hpblk|exact Hpmd].
    apply Z.shiftr_nonneg. lia.
  - apply (init_match_mask _ _ _ ablk); [|exact Hablk|exact Hamd].
    apply Z.shiftr_nonneg. lia.
Qed.

(** ** An insertion keeps what the block held *)

Lemma rank_step_le x i j : 0 <= i <= j -> rank x j - rank x i <= j - i.
Proof.
  intros [Hi Hij]. replace j with (i + (j - i)) by lia.
  assert (Hd : 0 <= j - i) by lia. revert Hd. generalize (j - i) as d.
  intros d Hd. pattern d. apply natlike_ind; [rewrite Z.add_0_r; lia| |exact Hd].
  intros e He IH. rewrite <- Z.add_1_r, Z.add_assoc, rank_succ by lia.
  destruct (Z.testbit x (i + e)); cbn [Z.b2z]; lia.
Qed.

(** The slots before a set bit: they grow with the position of the bit. *)
Lemma select_slots_mono x o1 s1 o2 s2 :
  is_select x o1 s1 -> is_select x o2 s2 -> o1 <= o2 ->
  s1 <= s2 /\ s1 - o1 <= s2 - o2.
Proof.
  intros (Hs1 & Hb1 & Hr1) (Hs2 & Hb2 & Hr2) Ho.
  assert (Hle : s1 <= s2).
  { destruct (Z.le_gt_cases s1 s2) as [|Hgt]; [assumption|].
    pose proof (rank_set_lt x s2 s1 ltac:(lia) Hb2). lia. }
  split; [exact Hle|].
  pose proof (rank_step_le x s1 s2 ltac:(lia)). lia.
Qed.

Lemma select_lt x o1 s1 o2 s2 :
  is_select x o1 s1 -> is_select x o2 s2 -> o1 < o2 -> s1 < s2.
Proof.
  intros H1 H2 Ho. destruct (select_slots_mono _ _ _ _ _ H1 H2 ltac:(lia)) as [Hle _].
  destruct (Z.eq_dec s1 s2) as [->|]; [|lia].
  destruct H1 as (_ & _ & Hr1), H2 as (_ & _ & Hr2). lia.
Qed.

(** In a block that holds [k] tags, the delimiter of every bucket lies
    below bit [36 + k], and its run ends at slot [k] at most. *)
Lemma md_shape_select x k o :
  md_shape x k -> 0 <= o < 36 ->
  exists s, is_select x o s /\ s < 36 + k /\ s - o <= k.
Proof.
  intros (Hk & Hrank & _ & _) Ho.
  destruct (select_exists x o (36 + k) ltac:(lia) ltac:(lia)) as (s & Hlt & Hs).
  exists s. split; [exact Hs|]. split; [exact Hlt|].
  pose proof Hs as (Hs64 & _ & Hr).
  pose proof (rank_step_le x s (36 + k) ltac:(lia)). lia.
Qed.

Lemma cell_matches_lookup tags tags' tag i j :
  tags' !! Z.to_nat j = tags !! Z.to_nat i ->
  (Z.to_nat i < length tags)%nat ->
  cell_matches tags' tag j = cell_matches tags tag i.
Proof.
  intros Heq Hlen. unfold cell_matches.
  destruct (lookup_lt_is_Some_2 tags (Z.to_nat i) Hlen) as (c & Hc).
  rewrite Hc in Heq.
  rewrite (nth_of_lookup _ _ _ Hc), (nth_of_lookup _ _ _ Heq). reflexivity.
Qed.

(** A cell of the run of bucket [o2] that matches [tag] is, after a tag
    went to bucket [o] of a block with a free slot, again a cell of the
    run of [o2] that matches [tag]. *)
Lemma inserted_block_keeps_match blk k s o cell o2 a2 e2 tag j :
  wf_block blk -> md_shape (md blk) k -> k <= 27 ->
  is_select (md blk) o s -> 0 <= o < 36 -> 0 <= o2 < 36 ->
  run_bounds (md blk) o2 a2 e2 ->
  a2 <= j < e2 -> cell_matches (tags blk) tag j = true ->
  exists a' e' j',
    run_bounds (md (inserted_block blk s o cell)) o2 a' e'
    /\ e' <= 28 /\ a' <= j' < e'
    /\ cell_matches (tags (inserted_block blk s o cell)) tag j' = true.
Proof.
  intros [Hmd Hlen] Hshape Hk Hs Ho Ho2 Hrun Hj Hcell.
  destruct (md_shape_select _ _ o Hshape Ho) as (s' & Hs' & Hsk & Hsok).
  rewrite <- (is_select_unique _ _ _ _ Hs Hs') in *. clear s' Hs'.
  pose proof (run_bounds_le _ _ _ _ Hrun) as Hae.
  destruct Hrun as [(s2 & Hs2 & ->) Ha2].
  destruct (md_shape_select _ _ o2 Hshape Ho2) as (s2' & Hs2' & Hs2k & Hs2ok).
  rewrite <- (is_select_unique _ _ _ _ Hs2 Hs2') in *. clear s2' Hs2'.
  pose proof (is_select_le _ _ _ Hs) as Hos.
  pose proof Hs as (Hs64 & _).
  cbn [tags inserted_block].
  destruct (Z.lt_trichotomy o2 o) as [Hlt|[->|Hgt]].
  - (* the run lies before the slot that is written *)
    pose proof (select_lt _ _ _ _ _ Hs2 Hs Hlt) as Hss.
    destruct (select_slots_mono _ _ _ _ _ Hs2 Hs ltac:(lia)) as [_ Hslots].
    exists a2, (s2 - o2), j. split; [|split; [lia|split; [lia|]]].
    + split; cbn [md inserted_block].
      * exists s2. split; [|reflexivity].
        apply update_md_select_below; [lia|exact Hs2|exact Hss].
      * destruct (Z.eqb_spec o2 0); [exact Ha2|].
        destruct Ha2 as (s0 & Hs0 & ->). exists s0. split; [|reflexivity].
        apply update_md_select_below; [lia|exact Hs0|].
        pose proof (select_lt _ _ _ _ _ Hs0 Hs2 ltac:(lia)). lia.
    + rewrite <- Hcell. apply cell_matches_lookup; [|lia].
      rewrite shift_insert_lookup by (try assumption; lia).
      destruct (Z.ltb_spec j (s - o)); [reflexivity|lia].
  - (* the run that receives the tag *)
    rewrite (is_select_unique _ _ _ _ Hs2 Hs) in *.
    exists a2, (s - o + 1), j. split; [|split; [lia|split; [lia|]]].
    + apply inserted_run; [exact Hs|lia|lia|]. split; [eauto|exact Ha2].
    + rewrite <- Hcell. apply cell_matches_lookup; [|lia].
      rewrite shift_insert_lookup by (try assumption; lia).
      destruct (Z.ltb_spec j (s - o)); [reflexivity|lia].
  - (* the run lies after it: every cell moves up by one *)
    pose proof (select_lt _ _ _ _ _ Hs Hs2 Hgt) as Hss.
    destruct (Z.eqb_spec o2 0) as [|_]; [lia|].
    destruct Ha2 as (s0 & Hs0 & ->).
    destruct (select_slots_mono _ _ _ _ _ Hs Hs0 ltac:(lia)) as [Hs0s Hslots].
    pose proof (select_lt _ _ _ _ _ Hs0 Hs2 ltac:(lia)) as Hs02.
    exists (s0 - (o2 - 1) + 1), (s2 - o2 + 1), (j + 1).
    split; [|split; [lia|split; [lia|]]].
    + split; cbn [md inserted_block].
      * exists (s2 + 1). split; [|lia].
        apply update_md_select_above; [lia|exact Hs2|lia|lia].
      * destruct (Z.eqb_spec o2 0); [lia|].
        exists (s0 + 1). split; [|lia].
        apply update_md_select_above; [lia|exact Hs0|lia|lia].
    + rewrite <- Hcell. apply cell_matches_lookup; [|lia].
      rewrite shift_insert_lookup by (try assumption; lia).
      destruct (Z.ltb_spec (j + 1) (s - o)); [lia|].
      destruct (Z.eqb_spec (j + 1) (s - o)); [lia|].
      destruct (Z.ltb_spec (j + 1) 28); [|lia].
      f_equal. f_equal. lia.
Qed.

Lemma nonzero_mask_bit m : 0 <= m -> m <> 0 -> exists j, 0 <= j /\ Z.testbit m j = true.
Proof.
  intros Hm Hne. exists (Z.log2 m). split; [apply Z.log2_nonneg|].
  apply Z.bit_log2. lia.
Qed.

Lemma mask_bit_nonzero m j : Z.testbit m j = true -> m <> 0.
Proof. intros Hbit ->. rewrite Z.bits_0 in Hbit. discriminate. Qed.

(** A bucket whose run held a match of [tag] holds one after a tag went to
    a block with a free slot. *)
Lemma insert_keeps_mask filter b blk k s cell tag2 b2 m :
  0 <= b -> 0 <= b2 ->
  blocks filter !! Z.to_nat (b / QUQU_BUCKETS_PER_BLOCK) = Some blk ->
  wf_block blk -> md_shape (md blk) k -> k <= 27 ->
  is_select (md blk) (b mod QUQU_BUCKETS_PER_BLOCK) s ->
  generate_match_mask filter tag2 b2 = Some m -> m <> 0 ->
  exists m',
    generate_match_mask
      {| metadata := metadata filter;
         blocks := <[Z.to_nat (b / QUQU_BUCKETS_PER_BLOCK) :=
                       inserted_block blk s (b mod QUQU_BUCKETS_PER_BLOCK) cell]>
                     (blocks filter) |} tag2 b2 = Some m'
    /\ m' <> 0.
Proof.
  intros Hb Hb2 Hblk Hwf Hshape Hk Hs Hm Hne.
  destruct (decide (Z.to_nat (b2 / QUQU_BUCKETS_PER_BLOCK)
                    = Z.to_nat (b / QUQU_BUCKETS_PER_BLOCK))) as [Heq|Hdiff].
  - assert (Ho : 0 <= b mod QUQU_BUCKETS_PER_BLOCK < 36)
      by (apply Z.mod_pos_bound; reflexivity).
    assert (Ho2 : 0 <= b2 mod QUQU_BUCKETS_PER_BLOCK < 36)
      by (apply Z.mod_pos_bound; reflexivity).
    destruct (md_shape_select _ _ _ Hshape Ho2) as (s2 & Hs2 & _ & Hs2k).
    destruct (run_bounds_exists _ _ _ Hs2) as (a2 & Hrun).
    pose proof (run_bounds_le _ _ _ _ Hrun) as Hae.
    assert (Hblk2 : blocks filter !! Z.to_nat (b2 / QUQU_BUCKETS_PER_BLOCK) = Some blk)
      by (rewrite Heq; exact Hblk).
    destruct (generate_match_mask_bound _ _ _ _ Hm) as [Hm0 _].
    destruct (nonzero_mask_bit m Hm0 Hne) as (j & Hj & Hbit).
    rewrite (generate_match_mask_run filter tag2 b2 blk _ _ Hb2 Hblk2 Hrun) in Hm by lia.
    injection Hm as <-.
    rewrite match_mask_bits in Hbit by lia.
    apply andb_prop in Hbit as [Hin Hcell]. apply andb_prop in Hin as [Haj Hje].
    apply andb_prop in Hcell as [_ Hcell].
    apply Z.leb_le in Haj. apply Z.ltb_lt in Hje.
    destruct (inserted_block_keeps_match blk k s (b mod QUQU_BUCKETS_PER_BLOCK) cell
                _ _ _ tag2 j Hwf Hshape Hk Hs Ho Ho2 Hrun ltac:(lia) Hcell)
      as (a' & e' & j' & Hrun' & He' & Hj' & Hcell').
    pose proof (run_bounds_le _ _ _ _ Hrun') as Hae'.
    eexists. split.
    + apply (generate_match_mask_run _ tag2 b2
               (inserted_block blk s (b mod QUQU_BUCKETS_PER_BLOCK) cell) a' e' Hb2);
        [|exact Hrun'|lia].
      cbn [blocks]. rewrite Heq. apply list_lookup_insert_eq.
      apply lookup_lt_Some with blk. exact Hblk.
    + apply (mask_bit_nonzero _ j'). rewrite match_mask_bits by lia.
      rewrite Hcell'.
      destruct (Z.leb_spec a' j'); [|lia]. destruct (Z.ltb_spec j' e'); [|lia].
      destruct (Z.ltb_spec j' 28); [reflexivity|lia].
  - exists m. split; [|exact Hne].
    rewrite generate_match_mask_frame by exact Hdiff. exact Hm.
Qed.

Lemma insert_keeps_defined filter i blk' tag b m :
  0 <= b ->
  generate_match_mask filter tag b = Some m ->
  (i < length (blocks filter))%nat ->
  exists m',
    generate_match_mask
      {| metadata := metadata filter; blocks := <[i := blk']> (blocks filter) |}
      tag b = Some m'.
Proof.
  intros Hb Hm Hi.
  destruct (generate_match_mask_block _ _ _ _ Hm) as (blk & Hblk).
  destruct (decide (Z.to_nat (b / QUQU_BUCKETS_PER_BLOCK) = i)) as [<-|Hne].
  - apply (generate_match_mask_defined _ tag b blk' Hb).
    cbn [blocks]. apply list_lookup_insert_eq. exact Hi.
  - exists m. rewrite generate_match_mask_frame by exact Hne. exact Hm.
Qed.

(** A hash that is present stays present when a tag is inserted, unless
    the insertion goes to a full block that holds both its buckets. *)
Lemma insert_keeps_present filter hash val filter' ok h2 :
  filter_ok filter -> 0 <= hash < 2 ^ 64 ->
  ~ same_block_full filter hash ->
  vqf_insert_val filter hash val = Some (filter', ok) ->
  0 <= h2 ->
  vqf_is_present filter h2 = Some true ->
  vqf_is_present filter' h2 = Some true.
Proof.
  intros Hok Hh Hnot Hins Hh2 Hpres. destruct ok;
    [|now rewrite (vqf_insert_val_false _ _ _ _ Hins)].
  pose proof Hok as [Hwf Hall].
  destruct (vqf_insert_val_inv _ _ _ _ Hins) as (alt & b & Halt & Hch & Hat).
  pose proof (primary_index_nonneg filter hash Hwf ltac:(lia)) as Hp0.
  pose proof (alt_index_nonneg _ _ _ Hwf Halt) as Ha0.
  assert (Hb0 : 0 <= b)
    by (destruct (choose_bucket_inv _ _ _ _ Hch) as [->|[-> _]]; lia).
  destruct (insert_at_inv _ _ _ _ Hwf Hb0 Hat) as (blk & s & Hblk & Hs & Ht & ->).
  destruct (filter_ok_lookup filter _ _ Hok Hblk) as (Hwfb & k & Hk).
  assert (Hnf : get_block_free_space (md blk) <> 36).
  { apply (choose_bucket_not_full filter (primary_index filter hash) alt b blk);
      auto.
    intros (Hsame & pblk & Hp & Hfull). apply Hnot. exists alt, pblk. auto. }
  rewrite get_block_free_space_eq in Hnf.
  pose proof (md_shape_not_full _ _ (proj1 Hwfb) Hk Hnf) as Hk27.
  pose proof (primary_index_nonneg filter h2 Hwf Hh2) as Hp2.
  revert Hpres. unfold vqf_is_present. cbv zeta.
  change (alt_index {| metadata := metadata filter; blocks := _ |} h2)
    with (alt_index filter h2).
  change (primary_index {| metadata := metadata filter; blocks := _ |} h2)
    with (primary_index filter h2).
  destruct (alt_index filter h2) as [alt2|] eqn:Halt2; [|obind; discriminate]. obind.
  pose proof (alt_index_nonneg _ _ _ Hwf Halt2) as Ha2.
  destruct (check_tags filter _ (primary_index filter h2)) as [f1|] eqn:Hc1;
    [|obind; discriminate]. obind.
  destruct (check_tags_inv _ _ _ _ Hc1) as (m1 & Hm1 & ->).
  assert (Hlen : (Z.to_nat (b / QUQU_BUCKETS_PER_BLOCK) < length (blocks filter))%nat)
    by (apply lookup_lt_Some with blk; exact Hblk).
  destruct (Z.eqb_spec m1 0) as [Hz|Hne1]; cbn [negb].
  - intros Hc2. destruct (check_tags_inv _ _ _ _ Hc2) as (m2 & Hm2 & Hn2).
    assert (Hne2 : m2 <> 0) by (intros ->; discriminate).
    destruct (insert_keeps_mask filter b blk k s (u16 (stored_tag hash val)) _ _ _
                Hb0 Ha2 Hblk Hwfb Hk Hk27 Hs Hm2 Hne2) as (m2' & Hm2' & Hne2').
    destruct (insert_keeps_defined filter (Z.to_nat (b / QUQU_BUCKETS_PER_BLOCK))
                (inserted_block blk s (b mod QUQU_BUCKETS_PER_BLOCK)
                   (u16 (stored_tag hash val))) _ _ _ Hp2 Hm1 Hlen) as (m1' & Hm1').
    rewrite (check_tags_of_mask _ _ _ _ Hm1'). obind.
    destruct (negb (m1' =? 0)); [reflexivity|].
    rewrite (check_tags_of_mask _ _ _ _ Hm2').
    destruct (Z.eqb_spec m2' 0); [contradiction|reflexivity].
  - intros _.
    destruct (insert_keeps_mask filter b blk k s (u16 (stored_tag hash val)) _ _ _
                Hb0 Hp2 Hblk Hwfb Hk Hk27 Hs Hm1 Hne1) as (m1' & Hm1' & Hne1').
    rewrite (check_tags_of_mask _ _ _ _ Hm1'). obind.
    destruct (Z.eqb_spec m1' 0); [contradiction|reflexivity].
Qed.

(** ** Insertions that return *)

Lemma insert_at_defined filter b cell blk k :
  0 <= b ->
  blocks filter !! Z.to_nat (b / QUQU_BUCKETS_PER_BLOCK) = Some blk ->
  wf_block blk -> md_shape (md blk) k -> k <= 27 ->
  exists s,
    is_select (md blk) (b mod QUQU_BUCKETS_PER_BLOCK) s
    /\ insert_at filter b cell
       = Some {| metadata := metadata filter;
                 blocks := <[Z.to_nat (b / QUQU_BUCKETS_PER_BLOCK) :=
                               inserted_block blk s (b mod QUQU_BUCKETS_PER_BLOCK)
                                 (u16 cell)]> (blocks filter) |}.
Proof.
  intros Hb Hblk [Hmd Hlen] Hshape Hk.
  assert (Ho : 0 <= b mod QUQU_BUCKETS_PER_BLOCK < 36)
    by (apply Z.mod_pos_bound; reflexivity).
  destruct (md_shape_select _ _ _ Hshape Ho) as (s & Hs & Hsk & Hso).
  pose proof (is_select_le _ _ _ Hs) as Hos.
  pose proof Hs as (Hs64 & _).
  exists s. split; [exact Hs|].
  unfold insert_at. cbv zeta. rewrite Hblk. obind.
  rewrite (select_64_select _ _ _ Hs) by lia. obind.
  rewrite (u8_id (s - b mod QUQU_BUCKETS_PER_BLOCK + 4)) by lia.
  rewrite (update_tags_512_ok _ _ _ Hlen) by lia. obind.
  change (8 / 2) with 4.
  replace (s - b mod QUQU_BUCKETS_PER_BLOCK + 4 + b mod QUQU_BUCKETS_PER_BLOCK - 4)
    with s by lia.
  rewrite (u64_id s) by lia. rewrite (u8_id s) by lia.
  unfold update_md. rewrite low_order_eq by lia. obind. reflexivity.
Qed.

Lemma bucket_block filter x :
  wf_filter filter -> range_ok filter -> 0 <= x < range (metadata filter) ->
  exists blk,
    blocks filter
      !! Z.to_nat (Z.shiftr x (key_remainder_bits (metadata filter))
                   / QUQU_BUCKETS_PER_BLOCK) = Some blk.
Proof.
  intros (Hkrb & _ & _) [_ Hrange] Hx. rewrite Hkrb.
  unfold QUQU_BUCKETS_PER_BLOCK, TAG_BITS in *. change (2 ^ 8) with 256 in Hrange.
  apply lookup_lt_is_Some_2.
  rewrite Z.shiftr_div_pow2 by lia. change (2 ^ 8) with 256.
  assert (0 <= x / 256 / 36 < Z.of_nat (length (blocks filter))); [|lia].
  split.
  - apply Z.div_pos; [apply Z.div_pos; lia|lia].
  - apply Z.div_lt_upper_bound; [lia|].
    apply Z.div_lt_upper_bound; lia.
Qed.

Lemma alt_index_block filter hash :
  wf_filter filter -> range_ok filter ->
  exists alt blk,
    alt_index filter hash = Some alt
    /\ blocks filter !! Z.to_nat (alt / QUQU_BUCKETS_PER_BLOCK) = Some blk.
Proof.
  intros Hwf Hr. pose proof Hr as [Hpos _]. unfold alt_index.
  destruct (Z.eqb_spec (range (metadata filter)) 0); [lia|].
  destruct (bucket_block filter
              (Z.lxor hash (u64 (Z.land hash TAG_MASK * 1540483477))
               mod range (metadata filter)) Hwf Hr) as (blk & Hblk);
    [apply Z.mod_pos_bound; lia|].
  eauto.
Qed.

Lemma choose_bucket_defined filter p alt pblk ablk :
  blocks filter !! Z.to_nat (p / QUQU_BUCKETS_PER_BLOCK) = Some pblk ->
  blocks filter !! Z.to_nat (alt / QUQU_BUCKETS_PER_BLOCK) = Some ablk ->
  exists c, choose_bucket filter p alt = Some c.
Proof.
  intros Hp Ha. unfold choose_bucket. rewrite Hp. obind.
  destruct (_ && _); [|eauto]. rewrite Ha. obind.
  destruct (_ >? _); [eauto|]. destruct (_ =? _); eauto.
Qed.

(** On a filter that meets the invariant, an insertion of a hash below
    [range] returns, unless both its buckets lie in one full block. *)
Lemma vqf_insert_val_defined filter hash val :
  filter_ok filter -> range_ok filter ->
  0 <= hash < range (metadata filter) ->
  ~ same_block_full filter hash ->
  exists filter' ok, vqf_insert_val filter hash val = Some (filter', ok).
Proof.
  intros Hok Hr Hh Hnot. pose proof Hok as [Hwf _].
  destruct (bucket_block filter hash Hwf Hr Hh) as (pblk & Hp).
  destruct (alt_index_block filter hash Hwf Hr) as (alt & ablk & Halt & Ha).
  destruct (choose_bucket_defined filter (primary_index filter hash) alt pblk ablk Hp Ha)
    as (c & Hc).
  pose proof (primary_index_nonneg filter hash Hwf ltac:(lia)) as Hp0.
  pose proof (alt_index_nonneg _ _ _ Hwf Halt) as Ha0.
  unfold vqf_insert_val. cbv zeta.
  fold (primary_index filter hash) in Hp. rewrite Hp. obind.
  rewrite Halt. obind. rewrite Hc. obind.
  destruct c as [b|]; [|eauto].
  assert (Hb : 0 <= b /\ exists blk,
               blocks filter !! Z.to_nat (b / QUQU_BUCKETS_PER_BLOCK) = Some blk).
  { destruct (choose_bucket_inv _ _ _ _ Hc) as [->|[-> _]]; eauto. }
  destruct Hb as (Hb0 & blk & Hblk).
  destruct (filter_ok_lookup filter _ _ Hok Hblk) as (Hwfb & k & Hk).
  assert (Hnf : get_block_free_space (md blk) <> 36).
  { apply (choose_bucket_not_full filter (primary_index filter hash) alt b blk);
      auto.
    intros (Hsame & pblk' & Hp' & Hfull). apply Hnot. exists alt, pblk'. auto. }
  rewrite get_block_free_space_eq in Hnf.
  pose proof (md_shape_not_full _ _ (proj1 Hwfb) Hk Hnf) as Hk27.
  destruct (insert_at_defined filter b (stored_tag hash val) blk k Hb0 Hblk Hwfb Hk Hk27)
    as (s & _ & ->).
  obind. eauto.
Qed.

Lemma range_ok_insert filter hash val filter' ok :
  wf_filter filter -> 0 <= hash < 2 ^ 64 -> range_ok filter ->
  vqf_insert_val filter hash val = Some (filter', ok) -> range_ok filter'.
Proof.
  intros Hwf Hh Hr Hins.
  destruct (vqf_insert_val_frame _ _ _ _ _ Hwf Hh Hins) as (_ & _ & _ & Hlen & Hmeta).
  unfold range_ok. rewrite Hlen, Hmeta. exact Hr.
Qed.

Lemma vqf_init_range_ok requested heap :
  0 <= requested ->
  (requested + QUQU_SLOTS_PER_BLOCK) / QUQU_SLOTS_PER_BLOCK
    * QUQU_BUCKETS_PER_BLOCK * 2 ^ TAG_BITS < 2 ^ 64 ->
  range_ok (vqf_init requested heap).
Proof.
  intros Hn Hfit.
  destruct (vqf_init_sizes requested heap Hn Hfit) as (Hnb & Hrange & Hlen).
  unfold range_ok. rewrite Hrange, Hlen.
  unfold QUQU_BUCKETS_PER_BLOCK, TAG_BITS. change (2 ^ 8) with 256. lia.
Qed.

(** ** Insertions that are refused *)

Lemma choose_bucket_refuse filter p alt :
  choose_bucket filter p alt = Some None ->
  exists pblk ablk,
    p / QUQU_BUCKETS_PER_BLOCK <> alt / QUQU_BUCKETS_PER_BLOCK
    /\ blocks filter !! Z.to_nat (p / QUQU_BUCKETS_PER_BLOCK) = Some pblk
    /\ blocks filter !! Z.to_nat (alt / QUQU_BUCKETS_PER_BLOCK) = Some ablk
    /\ get_block_free_space (md pblk) = QUQU_BUCKETS_PER_BLOCK
    /\ get_block_free_space (md ablk) <= QUQU_BUCKETS_PER_BLOCK.
Proof.
  unfold choose_bucket.
  destruct (blocks filter !! Z.to_nat (p / QUQU_BUCKETS_PER_BLOCK)) as [pblk|];
    [|discriminate]. obind.
  remember (get_block_free_space (md pblk)) as fp eqn:Hfp.
  destruct (fp <? QUQU_CHECK_ALT); cbn [andb]; [|discriminate].
  destruct (Z.eqb_spec (p / QUQU_BUCKETS_PER_BLOCK) (alt / QUQU_BUCKETS_PER_BLOCK))
    as [|Hdiff]; cbn [negb]; [discriminate|].
  destruct (blocks filter !! Z.to_nat (alt / QUQU_BUCKETS_PER_BLOCK)) as [ablk|];
    [|discriminate]. obind.
  remember (get_block_free_space (md ablk)) as fa eqn:Hfa.
  destruct (Z.gtb_spec fa fp) as [|Hle]; [discriminate|].
  destruct (Z.eqb_spec fp QUQU_BUCKETS_PER_BLOCK) as [Hfull|]; [|discriminate].
  intros _. exists pblk, ablk. rewrite <- Hfp, <- Hfa. repeat split; auto. lia.
Qed.

(** [vqf_insert_val] returns false only where the two buckets lie in
    different blocks that are both full. *)
Lemma vqf_insert_val_refused filter hash val filter' :
  filter_ok filter ->
  vqf_insert_val filter hash val = Some (filter', false) ->
  exists alt pblk ablk,
    alt_index filter hash = Some alt
    /\ primary_index filter hash / QUQU_BUCKETS_PER_BLOCK
       <> alt / QUQU_BUCKETS_PER_BLOCK
    /\ blocks filter !! Z.to_nat (primary_index filter hash / QUQU_BUCKETS_PER_BLOCK)
       = Some pblk
    /\ blocks filter !! Z.to_nat (alt / QUQU_BUCKETS_PER_BLOCK) = Some ablk
    /\ get_block_free_space (md pblk) = QUQU_BUCKETS_PER_BLOCK
    /\ get_block_free_space (md ablk) = QUQU_BUCKETS_PER_BLOCK.
Proof.
  intros Hok Hins.
  destruct (alt_index filter hash) as [alt|] eqn:Halt.
  2:{ unfold vqf_insert_val in Hins. cbv zeta in Hins. rewrite Halt in Hins.
      destruct (blocks filter !! _); discriminate. }
  destruct (choose_bucket filter (primary_index filter hash) alt) as [[b|]|] eqn:Hc.
  - unfold vqf_insert_val in Hins. cbv zeta in Hins.
    fold (primary_index filter hash) in Hins. rewrite Halt in Hins.
    destruct (blocks filter !! _); [|discriminate]. cbn [mbind option_bind] in Hins.
    rewrite Hc in Hins. cbn [mbind option_bind] in Hins.
    destruct (insert_at filter b _); discriminate.
  - destruct (choose_bucket_refuse _ _ _ Hc)
      as (pblk & ablk & Hdiff & Hp & Ha & Hfp & Hfa).
    destruct (filter_ok_lookup filter _ _ Hok Ha) as ([Hmd _] & k & Hk).
    pose proof (md_shape_free_space _ _ Hmd Hk) as Hfree.
    exists alt, pblk, ablk. repeat split; auto.
    unfold QUQU_BUCKETS_PER_BLOCK in *. lia.
  - unfold vqf_insert_val in Hins. cbv zeta in Hins.
    fold (primary_index filter hash) in Hins. rewrite Halt in Hins.
    destruct (blocks filter !! _); [|discriminate]. cbn [mbind option_bind] in Hins.
    rewrite Hc in Hins. discriminate.
Qed.

(** ** The choice between the two buckets *)

(** Where the primary block has fewer than [QUQU_CHECK_ALT] set bits in
    its metadata word and the alternate bucket lies in another block, the
    tag goes to the block with the larger count. *)
Lemma choose_bucket_max filter p alt b pblk ablk :
  blocks filter !! Z.to_nat (p / QUQU_BUCKETS_PER_BLOCK) = Some pblk ->
  blocks filter !! Z.to_nat (alt / QUQU_BUCKETS_PER_BLOCK) = Some ablk ->
  p / QUQU_BUCKETS_PER_BLOCK <> alt / QUQU_BUCKETS_PER_BLOCK ->
  get_block_free_space (md pblk) < QUQU_CHECK_ALT ->
  choose_bucket filter p alt = Some (Some b) ->
  exists blk,
    blocks filter !! Z.to_nat (b / QUQU_BUCKETS_PER_BLOCK) = Some blk
    /\ get_block_free_space (md blk)
       = Z.max (get_block_free_space (md pblk)) (get_block_free_space (md ablk)).
Proof.
  intros Hp Ha Hdiff Hlt. unfold choose_bucket. rewrite Hp. obind.
  remember (get_block_free_space (md pblk)) as fp eqn:Hfp.
  destruct (Z.ltb_spec fp QUQU_CHECK_ALT); [|lia]. cbn [andb].
  destruct (Z.eqb_spec (p / QUQU_BUCKETS_PER_BLOCK) (alt / QUQU_BUCKETS_PER_BLOCK));
    [contradiction|]. cbn [negb]. rewrite Ha. obind.
  remember (get_block_free_space (md ablk)) as fa eqn:Hfa.
  destruct (Z.gtb_spec fa fp) as [Hgt|Hle].
  - intros [= <-]. exists ablk. split; [exact Ha|]. rewrite <- Hfa. lia.
  - destruct (fp =? QUQU_BUCKETS_PER_BLOCK); [discriminate|].
    intros [= <-]. exists pblk. split; [exact Hp|]. rewrite <- Hfp. lia.
Qed.

(** With [QUQU_CHECK_ALT] set bits or more in the metadata word of the
    primary block, or with both buckets in one block, the primary bucket
    is taken. *)
Lemma choose_bucket_primary filter p alt pblk :
  blocks filter !! Z.to_nat (p / QUQU_BUCKETS_PER_BLOCK) = Some pblk ->
  QUQU_CHECK_ALT <= get_block_free_space (md pblk)
  \/ p / QUQU_BUCKETS_PER_BLOCK = alt / QUQU_BUCKETS_PER_BLOCK ->
  choose_bucket filter p alt = Some (Some p).
Proof.
  intros Hp Hcase. unfold choose_bucket. rewrite Hp. obind.
  remember (get_block_free_space (md pblk)) as fp eqn:Hfp.
  destruct (Z.ltb_spec fp QUQU_CHECK_ALT); cbn [andb]; [|reflexivity].
  destruct (Z.eqb_spec (p / QUQU_BUCKETS_PER_BLOCK) (alt / QUQU_BUCKETS_PER_BLOCK));
    cbn [negb]; [reflexivity|]. destruct Hcase; [lia|contradiction].
Qed.

(** ** Sequences of insertions *)

Lemma run_inserts_ok ops : forall filter filter' oks,
  filter_ok filter -> safe_inserts ops filter ->
  run_inserts ops filter = Some (filter', oks) ->
  filter_ok filter' /\ length oks = length ops.
Proof.
  induction ops as [|[hash val] ops IH]; intros filter filter' oks Hok Hsafe.
  - intros [= <- <-]. auto.
  - destruct Hsafe as (Hh & Hnot & Hrest). cbn [run_inserts].
    destruct (vqf_insert_val filter hash val) as [[f1 ok]|] eqn:Hins;
      [|discriminate]. obind.
    destruct (run_inserts ops f1) as [[f2 oks']|] eqn:Hrun; [|discriminate]. obind.
    intros [= <- <-].
    destruct (IH f1 f2 oks' (vqf_insert_val_ok _ _ _ _ _ Hok Hh Hnot Hins)
                (Hrest _ _ eq_refl) Hrun) as [Hok2 Hlen].
    split; [exact Hok2|]. cbn [length]. lia.
Qed.

Lemma run_inserts_keep_present ops : forall filter filter' oks h,
  filter_ok filter -> safe_inserts ops filter ->
  run_inserts ops filter = Some (filter', oks) ->
  0 <= h -> vqf_is_present filter h = Some true ->
  vqf_is_present filter' h = Some true.
Proof.
  induction ops as [|[hash val] ops IH]; intros filter filter' oks h Hok Hsafe.
  - intros [= <- <-]. auto.
  - destruct Hsafe as (Hh & Hnot & Hrest). cbn [run_inserts].
    destruct (vqf_insert_val filter hash val) as [[f1 ok]|] eqn:Hins;
      [|discriminate]. obind.
    destruct (run_inserts ops f1) as [[f2 oks']|] eqn:Hrun; [|discriminate]. obind.
    intros [= <- <-] Hh0 Hpres.
    apply (IH f1 f2 oks' h (vqf_insert_val_ok _ _ _ _ _ Hok Hh Hnot Hins)
             (Hrest _ _ eq_refl) Hrun Hh0).
    exact (insert_keeps_present _ _ _ _ _ _ Hok Hh Hnot Hins Hh0 Hpres).
Qed.

(** Every hash a sequence of insertions stored is present at its end. *)
Lemma run_inserts_present ops : forall filter filter' oks i hash val,
  filter_ok filter -> safe_inserts ops filter ->
  run_inserts ops filter = Some (filter', oks) ->
  ops !! i = Some (hash, val) -> oks !! i = Some true ->
  vqf_is_present filter' hash = Some true.
Proof.
  induction ops as [|[h0 v0] ops IH]; intros filter filter' oks i hash val Hok Hsafe.
  - intros _ Hi. discriminate.
  - destruct Hsafe as (Hh & Hnot & Hrest). cbn [run_inserts].
    destruct (vqf_insert_val filter h0 v0) as [[f1 ok]|] eqn:Hins;
      [|discriminate]. obind.
    destruct (run_inserts ops f1) as [[f2 oks']|] eqn:Hrun; [|discriminate]. obind.
    intros [= <- <-] Hop Hres.
    pose proof (vqf_insert_val_ok _ _ _ _ _ Hok Hh Hnot Hins) as Hok1.
    destruct i as [|i].
    + injection Hop as <- <-. injection Hres as ->.
      apply (run_inserts_keep_present ops f1 f2 oks' h0 Hok1 (Hrest _ _ eq_refl) Hrun);
        [lia|].
      destruct Hok as [Hwf _].
      exact (insert_then_present _ _ _ _ Hwf Hh Hins).
    + exact (IH f1 f2 oks' i hash val Hok1 (Hrest _ _ eq_refl) Hrun Hop Hres).
Qed.

(** ** Insertion followed by [vqf_query_iter] *)

Lemma filter_seq_none (P : nat -> bool) n : forall from,
  (forall j, (from <= j < from + n)%nat -> P j = false) ->
  List.filter P (seq from n) = [].
Proof.
  induction n as [|n IH]; intros from Hall; [reflexivity|].
  cbn [seq List.filter]. rewrite (Hall from) by lia.
  apply IH. intros j Hj. apply Hall. lia.
Qed.

Lemma filter_seq_single (P : nat -> bool) n : forall from t,
  (from <= t < from + n)%nat -> P t = true ->
  (forall j, (from <= j < from + n)%nat -> j <> t -> P j = false) ->
  List.filter P (seq from n) = [t].
Proof.
  induction n as [|n IH]; intros from t Ht Hp Hall; [lia|].
  cbn [seq List.filter]. destruct (Nat.eq_dec from t) as [->|Hne].
  - rewrite Hp. f_equal. apply filter_seq_none.
    intros j Hj. apply Hall; lia.
  - rewrite (Hall from) by lia. apply IH; [lia|exact Hp|].
    intros j Hj. apply Hall. lia.
Qed.

Lemma high_bytes_pow2 tags t cell :
  0 <= t <= 27 -> tags !! Z.to_nat t = Some cell ->
  high_bytes tags (2 ^ t) = [u8 (Z.shiftr cell 8)].
Proof.
  intros Ht Hcell. unfold high_bytes, high_bytes_from.
  rewrite (filter_seq_single _ 28 0%nat (Z.to_nat t)).
  - cbn [map]. rewrite (nth_of_lookup _ _ _ Hcell). reflexivity.
  - lia.
  - rewrite Z.pow2_bits_eqb by lia. apply Z.eqb_eq. lia.
  - intros j Hj Hne. rewrite Z.pow2_bits_eqb by lia. apply Z.eqb_neq. lia.
Qed.

Lemma insert_then_query_iter filter hash val alt filter' values :
  wf_filter filter -> 0 <= hash < 2 ^ 64 -> 0 <= val < 256 ->
  alt_index filter hash = Some alt ->
  generate_match_mask filter (Z.land hash TAG_MASK) (primary_index filter hash) = Some 0 ->
  generate_match_mask filter (Z.land hash TAG_MASK) alt = Some 0 ->
  vqf_insert_val filter hash val = Some (filter', true) ->
  vqf_query_iter filter' hash values = Some (true, values ++ [val]).
Proof.
  intros Hwf Hh Hv Halt Hp Ha Hins.
  destruct (vqf_insert_val_inv _ _ _ _ Hins) as (alt' & b & Halt' & Hch & Hat).
  rewrite Halt in Halt'. injection Halt' as <-.
  pose proof (primary_index_nonneg filter hash Hwf ltac:(lia)) as Hp0.
  pose proof (alt_index_nonneg _ _ _ Hwf Halt) as Ha0.
  assert (Hb0 : 0 <= b) by (destruct (choose_bucket_inv _ _ _ _ Hch) as [->|[-> _]]; lia).
  destruct (insert_at_inv _ _ _ _ Hwf Hb0 Hat) as (blk & s & Hblk & Hs & Ht & ->).
  pose proof (wf_filter_lookup _ _ _ Hwf Hblk) as Hwfb.
  pose proof (is_select_le _ _ _ Hs) as Hos.
  set (tag := Z.land hash TAG_MASK) in *.
  set (stored := stored_tag hash val) in *.
  set (blk' := inserted_block blk s (b mod QUQU_BUCKETS_PER_BLOCK) (u16 stored)).
  set (filter' :=
         {| metadata := metadata filter;
            blocks := <[Z.to_nat (b / QUQU_BUCKETS_PER_BLOCK) := blk']> (blocks filter) |}).
  assert (Hblk' : blocks filter' !! Z.to_nat (b / QUQU_BUCKETS_PER_BLOCK) = Some blk').
  { cbn [blocks filter']. apply list_lookup_insert_eq.
    eapply lookup_lt_Some. exact Hblk. }
  assert (Hlen' : length (tags blk') = 28%nat).
  { apply (inserted_block_wf blk s _ (u16 stored) Hwfb). lia. }
  assert (Hfound : forall vs,
    generate_match_mask filter tag b = Some 0 ->
    retrieve_values filter' tag b vs = Some (true, vs ++ [val])).
  { intros vs Hpre.
    rewrite (retrieve_values_spec filter' tag b blk'
               (2 ^ (s - b mod QUQU_BUCKETS_PER_BLOCK)) vs Hblk' Hlen').
    - rewrite (high_bytes_pow2 _ _ (u16 stored)).
      + unfold stored. rewrite stored_cell_val by lia.
        destruct (Z.eqb_spec (2 ^ (s - b mod QUQU_BUCKETS_PER_BLOCK)) 0) as [E|_];
          [|reflexivity].
        pose proof (Z.pow_pos_nonneg 2 (s - b mod QUQU_BUCKETS_PER_BLOCK)). lia.
      + lia.
      + cbn [tags inserted_block blk']. destruct Hwfb as [_ Hlen].
        rewrite shift_insert_lookup by (auto; lia).
        destruct (Z.ltb_spec (s - b mod QUQU_BUCKETS_PER_BLOCK)
                    (s - b mod QUQU_BUCKETS_PER_BLOCK)); [lia|].
        now rewrite Z.eqb_refl.
    - apply inserted_match_mask; auto. apply stored_cell_tag. }
  assert (Halt' : alt_index filter' hash = Some alt) by exact Halt.
  assert (Hprim : primary_index filter' hash = primary_index filter hash)
    by reflexivity.
  unfold vqf_query_iter. rewrite Halt', Hprim. obind. fold tag.
  destruct (choose_bucket_inv _ _ _ _ Hch) as [->|[-> Hne]].
  - rewrite Hfound by exact Hp. reflexivity.
  - assert (Hmask : generate_match_mask filter' tag (primary_index filter hash) = Some 0).
    { unfold filter'. rewrite generate_match_mask_frame; [exact Hp|].
      intros Heq. apply Hne. apply Z2Nat.inj in Heq; [lia| |].
      * apply Z.div_pos; [lia|reflexivity].
      * apply Z.div_pos; [lia|reflexivity]. }
    destruct (generate_match_mask_block _ _ _ _ Hmask) as (pblk & Hpblk).
    assert (Hplen : length (tags pblk) = 28%nat).
    { destruct (decide (Z.to_nat (primary_index filter hash / QUQU_BUCKETS_PER_BLOCK)
                        = Z.to_nat (alt / QUQU_BUCKETS_PER_BLOCK))) as [Heq|Hd].
      - rewrite Heq, Hblk' in Hpblk. injection Hpblk as <-. exact Hlen'.
      - cbn [blocks filter'] in Hpblk.
        rewrite list_lookup_insert_ne in Hpblk by auto.
        exact (proj2 (wf_filter_lookup _ _ _ Hwf Hpblk)). }
    rewrite (retrieve_values_spec filter' tag _ pblk 0 values Hpblk Hplen Hmask).
    obind. cbn [negb Z.eqb].
    unfold high_bytes. rewrite high_bytes_from_zero, app_nil_r.
    apply Hfound. exact Ha.
Qed.

Lemma vqf_insert_val_false_inv filter hash val filter' :
  vqf_insert_val filter hash val = Some (filter', false) ->
  exists alt,
    alt_index filter hash = Some alt
    /\ choose_bucket filter (primary_index filter hash) alt = Some None.
Proof.
  intros Hins. unfold vqf_insert_val in Hins. cbv zeta in Hins.
  fold (primary_index filter hash) in Hins.
  destruct (blocks filter !! _); [|discriminate]. cbn [mbind option_bind] in Hins.
  destruct (alt_index filter hash) as [alt|]; [|discriminate].
  cbn [mbind option_bind] in Hins.
  destruct (choose_bucket filter (primary_index filter hash) alt) as [[b|]|] eqn:Hc;
    [|exists alt; split; [reflexivity|exact Hc]|discriminate].
  cbn [mbind option_bind] in Hins. destruct (insert_at filter b _); discriminate.
Qed.

(** A hash whose two buckets have an empty match mask is found by none of
    the lookups. *)
Lemma absent_lookups filter hash alt :
  alt_index filter hash = Some alt ->
  generate_match_mask filter (Z.land hash TAG_MASK) (primary_index filter hash) = Some 0 ->
  generate_match_mask filter (Z.land hash TAG_MASK) alt = Some 0 ->
  vqf_is_present filter hash = Some false
  /\ (forall value, vqf_query filter hash value = Some (false, value))
  /\ (forall values, wf_filter filter ->
                     vqf_query_iter filter hash values = Some (false, values)).
Proof.
  intros Halt Hp Ha. split; [|split].
  - unfold vqf_is_present. cbv zeta. rewrite Halt. obind.
    rewrite (check_tags_of_mask _ _ _ _ Hp). obind. cbn [negb Z.eqb].
    rewrite (check_tags_of_mask _ _ _ _ Ha). reflexivity.
  - intros value. unfold vqf_query. cbv zeta. rewrite Halt. obind.
    rewrite (retrieve_value_none _ _ _ _ Hp). obind.
    apply retrieve_value_none. exact Ha.
  - intros values Hwf. unfold vqf_query_iter. cbv zeta. rewrite Halt. obind.
    destruct (generate_match_mask_block _ _ _ _ Hp) as (pblk & Hpblk).
    destruct (generate_match_mask_block _ _ _ _ Ha) as (ablk & Hablk).
    rewrite (retrieve_values_spec _ _ _ _ _ values Hpblk
               (proj2 (wf_filter_lookup _ _ _ Hwf Hpblk)) Hp).
    obind. cbn [negb Z.eqb]. unfold high_bytes.
    rewrite high_bytes_from_zero, app_nil_r.
    rewrite (retrieve_values_spec _ _ _ _ _ values Hablk
               (proj2 (wf_filter_lookup _ _ _ Hwf Hablk)) Ha).
    cbn [negb Z.eqb]. unfold high_bytes.
    rewrite high_bytes_from_zero, app_nil_r. reflexivity.
Qed.

(** ** [select_128_old] *)

Lemma rank_split x a d :
  0 <= a -> 0 <= d -> rank x (a + d) = rank x a + rank (Z.shiftr x a) d.
Proof.
  intros Ha Hd. pattern d. apply natlike_ind; [|clear d Hd|exact Hd].
  - rewrite Z.add_0_r, rank_0. lia.
  - intros d Hd IH.
    rewrite <- Z.add_1_r, Z.add_assoc, !rank_succ, IH, Z.shiftr_spec by lia.
    rewrite (Z.add_comm d a). lia.
Qed.

Lemma low_word_bits x i :
  0 <= i -> Z.testbit (Z.land x 0xffffffffffffffff) i = (i <? 64) && Z.testbit x i.
Proof.
  intros Hi. change 0xffffffffffffffff with (Z.ones 64).
  rewrite Z.land_spec, Z.testbit_ones_nonneg by lia.
  destruct (Z.ltb_spec i 64); [now rewrite andb_true_r|now rewrite andb_false_r].
Qed.

Lemma low_word_range x : 0 <= Z.land x 0xffffffffffffffff < 2 ^ 64.
Proof.
  change 0xffffffffffffffff with (Z.ones 64). rewrite Z.land_ones by lia.
  apply Z.mod_pos_bound. reflexivity.
Qed.

Lemma low_word_rank x i :
  0 <= i <= 64 -> rank (Z.land x 0xffffffffffffffff) i = rank x i.
Proof.
  intros Hi. apply rank_ext; [lia|]. intros j Hj.
  rewrite low_word_bits by lia. destruct (Z.ltb_spec j 64); [reflexivity|lia].
Qed.

Lemma high_word_id x : 0 <= x < 2 ^ 128 -> u64 (Z.shiftr x 64) = Z.shiftr x 64.
Proof.
  intros Hx. apply u64_id. rewrite Z.shiftr_div_pow2 by lia. split.
  - apply Z.div_pos; lia.
  - apply Z.div_lt_upper_bound; [lia|]. change (2 ^ 64 * 2 ^ 64) with (2 ^ 128). lia.
Qed.

Lemma int_of_u64_id x : 0 <= x < 2 ^ 31 -> int_of_u64 x = x.
Proof.
  intros Hx. unfold int_of_u64, u32. cbv zeta.
  rewrite Z.mod_small by lia. destruct (Z.ltb_spec x (2 ^ 31)); [reflexivity|lia].
Qed.

Lemma select_128_old_found vector r s :
  0 <= vector < 2 ^ 128 -> 0 <= r < 64 ->
  is_select_128 vector r s -> select_128_old vector r = Some s.
Proof.
  intros Hv Hr (Hs & Hbit & Hrank). unfold select_128_old. cbv zeta.
  rewrite one_eq by lia. obind.
  destruct (Z.lt_ge_cases s 64) as [Hlow|Hhigh].
  - assert (Hsel : is_select (Z.land vector 0xffffffffffffffff) r s).
    { split; [lia|]. split.
      - rewrite low_word_bits by lia. destruct (Z.ltb_spec s 64); [exact Hbit|lia].
      - rewrite low_word_rank by lia. exact Hrank. }
    rewrite (pdep_one_select _ _ _ Hsel).
    destruct (Z.eqb_spec (2 ^ s) 0) as [E|_].
    + pose proof (Z.pow_pos_nonneg 2 s). lia.
    + cbn [negb]. rewrite tzcnt_pow2 by lia. reflexivity.
  - pose proof (rank_split vector 64 (s - 64) ltac:(lia) ltac:(lia)) as Hsplit.
    replace (64 + (s - 64)) with s in Hsplit by lia.
    pose proof (rank_bounds (Z.shiftr vector 64) (s - 64) ltac:(lia)) as Hhb.
    pose proof (rank_bounds vector 64 ltac:(lia)) as Hlb.
    rewrite pdep_one_none by (rewrite ?low_word_rank; lia). cbn [negb Z.eqb].
    unfold word_rank. rewrite (popcount_rank _ (low_word_range vector)).
    rewrite low_word_rank by lia.
    rewrite (u64_id (r - rank vector 64))
      by (change (2 ^ 64) with 18446744073709551616; lia).
    rewrite int_of_u64_id by (change (2 ^ 31) with 2147483648; lia).
    rewrite (high_word_id _ Hv).
    rewrite (word_select_found _ _ (s - 64)).
    + obind. f_equal. replace (s - 64 + 64) with s by lia.
      apply u64_id. change (2 ^ 64) with 18446744073709551616. lia.
    + split; [lia|]. split; [|lia].
      rewrite Z.shiftr_spec by lia. replace (s - 64 + 64) with s by lia. exact Hbit.
Qed.

Lemma select_128_old_none vector r :
  0 <= vector < 2 ^ 128 -> 0 <= r < 64 ->
  rank vector 128 <= r -> select_128_old vector r = Some 128.
Proof.
  intros Hv Hr Hfew. unfold select_128_old. cbv zeta.
  rewrite one_eq by lia. obind.
  pose proof (rank_split vector 64 64 ltac:(lia) ltac:(lia)) as Hsplit.
  change (64 + 64) with 128 in Hsplit.
  pose proof (rank_bounds (Z.shiftr vector 64) 64 ltac:(lia)) as Hhb.
  pose proof (rank_bounds vector 64 ltac:(lia)) as Hlb.
  rewrite pdep_one_none by (rewrite ?low_word_rank; lia). cbn [negb Z.eqb].
  unfold word_rank. rewrite (popcount_rank _ (low_word_range vector)).
  rewrite low_word_rank by lia.
  rewrite (u64_id (r - rank vector 64))
    by (change (2 ^ 64) with 18446744073709551616; lia).
  rewrite int_of_u64_id by (change (2 ^ 31) with 2147483648; lia).
  rewrite (high_word_id _ Hv).
  rewrite word_select_none by lia. reflexivity.
Qed.

(** ** Counting the tags of a block *)

Lemma inserted_block_counts blk k s o cell :
  wf_block blk -> md_shape (md blk) k -> k <= 27 ->
  is_select (md blk) o s -> o < 36 ->
  md_shape (md (inserted_block blk s o cell)) (k + 1)
  /\ get_block_free_space (md (inserted_block blk s o cell)) = 63 - k.
Proof.
  intros [Hmd _] Hk Hk27 Hs Ho. unfold inserted_block. cbn [md].
  pose proof (md_shape_insert _ _ _ _ Hk Hk27 Hs Ho) as Hk'.
  split; [exact Hk'|].
  rewrite get_block_free_space_eq.
  rewrite (md_shape_popcount _ _ (pdep_range _ _) Hk').
  destruct Hk as (Hk0 & _). destruct (Z.eqb_spec (k + 1) 0); lia.
Qed.

Lemma insert_counts filter hash val filter' :
  filter_ok filter -> 0 <= hash < 2 ^ 64 ->
  ~ same_block_full filter hash ->
  vqf_insert_val filter hash val = Some (filter', true) ->
  exists b blk blk' k,
    (b = primary_index filter hash \/ alt_index filter hash = Some b)
    /\ blocks filter !! Z.to_nat (b / QUQU_BUCKETS_PER_BLOCK) = Some blk
    /\ blocks filter' !! Z.to_nat (b / QUQU_BUCKETS_PER_BLOCK) = Some blk'
    /\ md_shape (md blk) k /\ md_shape (md blk') (k + 1)
    /\ get_block_free_space (md blk) = (if k =? 0 then 63 else 64 - k)
    /\ get_block_free_space (md blk') = 63 - k.
Proof.
  intros Hok Hh Hnot Hins. pose proof Hok as [Hwf _].
  destruct (vqf_insert_val_inv _ _ _ _ Hins) as (alt & b & Halt & Hch & Hat).
  pose proof (primary_index_nonneg filter hash Hwf ltac:(lia)) as Hp0.
  pose proof (alt_index_nonneg _ _ _ Hwf Halt) as Ha0.
  assert (Hb0 : 0 <= b)
    by (destruct (choose_bucket_inv _ _ _ _ Hch) as [->|[-> _]]; lia).
  destruct (insert_at_inv _ _ _ _ Hwf Hb0 Hat) as (blk & s & Hblk & Hs & Ht & ->).
  destruct (filter_ok_lookup filter _ _ Hok Hblk) as (Hwfb & k & Hk).
  assert (Hnf : get_block_free_space (md blk) <> 36).
  { apply (choose_bucket_not_full filter (primary_index filter hash) alt b blk);
      auto.
    intros (Hsame & pblk & Hp & Hfull). apply Hnot. exists alt, pblk. auto. }
  rewrite get_block_free_space_eq in Hnf.
  pose proof (md_shape_not_full _ _ (proj1 Hwfb) Hk Hnf) as Hk27.
  assert (Ho : b mod QUQU_BUCKETS_PER_BLOCK < 36)
    by (apply Z.mod_pos_bound; reflexivity).
  destruct (inserted_block_counts blk k s (b mod QUQU_BUCKETS_PER_BLOCK)
              (u16 (stored_tag hash val)) Hwfb Hk Hk27 Hs Ho) as [Hk' Hfree'].
  exists b, blk, (inserted_block blk s (b mod QUQU_BUCKETS_PER_BLOCK)
                    (u16 (stored_tag hash val))), k.
  split; [destruct (choose_bucket_inv _ _ _ _ Hch) as [->|[-> _]]; auto|].
  split; [exact Hblk|]. split.
  { cbn [blocks]. apply list_lookup_insert_eq. eapply lookup_lt_Some. exact Hblk. }
  split; [exact Hk|]. split; [exact Hk'|]. split; [|exact Hfree'].
  rewrite get_block_free_space_eq. exact (md_shape_popcount _ _ (proj1 Hwfb) Hk).
Qed.

(** * Removal as the scalar build performs it *)

(** ** [remove_tags_512] *)

(** Below slot 4 the index wraps in [uint8_t] and the length in [size_t]:
    the move leaves the allocation. *)
Lemma remove_tags_512_low tags after t :
  length tags = 28%nat -> 0 <= t < 4 -> remove_tags_512 tags after (u8 t) = None.
Proof.
  intros Hlen Ht. unfold remove_tags_512, memmove_past. cbv zeta.
  rewrite length_app, Hlen. rewrite (u8_id t) by lia.
  assert (Hidx : u8 (t - 4) = t + 252).
  { unfold u8. change (2 ^ 8) with 256. symmetry.
    apply (Z.mod_unique (t - 4) 256 (-1)); lia. }
  rewrite Hidx. pose proof (remove_len_wrap (t + 252) ltac:(lia)) as Hbig.
  change (2 ^ 62) with 4611686018427387904 in Hbig.
  assert (Hafter : (length (option_list after) <= 1)%nat)
    by (destruct after; cbn; lia).
  destruct (Z.eqb_spec (u64 (u64 (QUQU_SLOTS_PER_BLOCK - (t + 252)) * 2) / 2) 0);
    [lia|].
  destruct (Z.leb_spec
              (t + 252 + 1 + u64 (u64 (QUQU_SLOTS_PER_BLOCK - (t + 252)) * 2) / 2)
              (Z.of_nat (28 + length (option_list after))));
    [lia|reflexivity].
Qed.

(** At the end of the allocation the move reads past it. *)
Lemma remove_tags_512_end tags t :
  length tags = 28%nat -> 0 <= t < 28 -> remove_tags_512 tags None (u8 t) = None.
Proof.
  intros Hlen Ht. destruct (Z.lt_ge_cases t 4) as [Hlow|Hhigh];
    [apply remove_tags_512_low; [exact Hlen|lia]|].
  unfold remove_tags_512, memmove_past. cbv zeta.
  rewrite length_app, Hlen. rewrite (u8_id t) by lia.
  rewrite (u8_id (t - 4)) by lia. rewrite remove_len by lia.
  destruct (Z.eqb_spec (28 - (t - 4)) 0); [lia|].
  change (@option_list Z None) with (@nil Z). cbn [length].
  destruct (Z.leb_spec (t - 4 + 1 + (28 - (t - 4))) (Z.of_nat (28 + 0)));
    [lia|reflexivity].
Qed.

(** From slot 4 on, the cell four slots below the one named is taken out,
    the cells above it move down by one, and the last cell receives the
    cell that follows the array. *)
Lemma remove_tags_512_high tags c t :
  length tags = 28%nat -> 4 <= t < 28 ->
  remove_tags_512 tags (Some c) (u8 t)
  = Some (take (Z.to_nat (t - 4)) tags ++ drop (Z.to_nat (t - 3)) tags ++ [c]).
Proof.
  intros Hlen Ht. unfold remove_tags_512, memmove_past. cbv zeta.
  rewrite length_app, Hlen. rewrite (u8_id t) by lia.
  rewrite (u8_id (t - 4)) by lia. rewrite remove_len by lia.
  destruct (Z.eqb_spec (28 - (t - 4)) 0); [lia|].
  change (option_list (Some c)) with [c]. cbn [length].
  destruct (Z.leb_spec (t - 4 + 1 + (28 - (t - 4))) (Z.of_nat (28 + 1))); [|lia].
  destruct (Z.leb_spec (t - 4 + (28 - (t - 4))) (Z.of_nat 28)); [|lia].
  cbn [andb]. f_equal. f_equal.
  replace (t - 4 + (28 - (t - 4))) with 28 by lia.
  replace (t - 4 + 1) with (t - 3) by lia.
  rewrite (drop_ge tags (Z.to_nat 28)) by lia. rewrite app_nil_r.
  rewrite take_ge; [|rewrite length_drop, length_app, Hlen; cbn [length]; lia].
  apply drop_app_le. lia.
Qed.

Lemma remove_tags_512_inv tags after t tags' :
  length tags = 28%nat -> 0 <= t < 28 ->
  remove_tags_512 tags after (u8 t) = Some tags' ->
  4 <= t
  /\ exists c,
       after = Some c
       /\ tags' = take (Z.to_nat (t - 4)) tags ++ drop (Z.to_nat (t - 3)) tags ++ [c]
       /\ length tags' = 28%nat.
Proof.
  intros Hlen Ht Hrem. destruct (Z.lt_ge_cases t 4) as [Hlow|Hhigh].
  { rewrite remove_tags_512_low in Hrem by (try exact Hlen; lia). discriminate. }
  destruct after as [c|].
  2:{ rewrite remove_tags_512_end in Hrem by (try exact Hlen; lia). discriminate. }
  rewrite remove_tags_512_high in Hrem by (try exact Hlen; lia).
  injection Hrem as <-. split; [exact Hhigh|]. exists c.
  split; [reflexivity|]. split; [reflexivity|].
  rewrite !length_app, length_take, length_drop, Hlen. cbn [length]. lia.
Qed.

(** ** [remove_md] on the metadata word of a block *)

Lemma remove_md_range x p :
  0 <= p < 64 ->
  0 <= Z.lor (_pext_u64 x (Z.lxor UINT64_MAX (Z.shiftl 1 p))) (Z.shiftl 1 63) < 2 ^ 64.
Proof.
  intros Hp. apply bits_above_64.
  - apply Z.lor_nonneg. split; [apply pext_range|]. rewrite Z.shiftl_1_l. lia.
  - intros i Hi. rewrite remove_md_bits by lia.
    destruct (Z.ltb_spec i 63); [lia|]. apply Z.eqb_neq. lia.
Qed.

Lemma remove_md_rank x p m :
  0 <= p < 64 -> 0 <= m <= 63 ->
  rank (Z.lor (_pext_u64 x (Z.lxor UINT64_MAX (Z.shiftl 1 p))) (Z.shiftl 1 63)) m
  = if m <=? p then rank x m else rank x (m + 1) - Z.b2z (Z.testbit x p).
Proof.
  intros Hp [Hm0 Hm]. revert Hm. pattern m. apply natlike_ind; [| |exact Hm0].
  - intros _. rewrite !rank_0. destruct (Z.leb_spec 0 p); [reflexivity|lia].
  - clear m Hm0. intros m Hm IH Hle. rewrite <- Z.add_1_r in *.
    rewrite rank_succ, IH, remove_md_bits by lia.
    destruct (Z.ltb_spec m 63); [|lia].
    destruct (Z.leb_spec m p), (Z.leb_spec (m + 1) p), (Z.ltb_spec m p); try lia.
    + rewrite (rank_succ x m) by lia. reflexivity.
    + assert (m = p) by lia. subst m.
      rewrite (rank_succ x (p + 1)), (rank_succ x p) by lia. lia.
    + rewrite (rank_succ x (m + 1)) by lia. lia.
Qed.

(** [remove_md] keeps the shape of the metadata word: the block counts one
    tag less where the bit taken out is a zero, and as many where it is a
    delimiter. *)
Lemma md_shape_remove x k p :
  md_shape x k -> 0 <= p < 63 ->
  (if Z.testbit x p then 1 <= k else 2 <= k) ->
  md_shape (Z.lor (_pext_u64 x (Z.lxor UINT64_MAX (Z.shiftl 1 p))) (Z.shiftl 1 63))
           (if Z.testbit x p then k else k - 1).
Proof.
  intros (Hk & Hrank & Hones & Htop) Hp Hcase.
  assert (Hupper : forall i, 35 + k <= i <= 63 -> 1 <= k -> Z.testbit x i = true).
  { intros i Hi Hk1. destruct (Z.eq_dec i 63) as [->|]; [|apply Hones; lia].
    rewrite Htop. destruct (Z.eqb_spec k 0); [lia|reflexivity]. }
  destruct (Z.testbit x p) eqn:Hbit.
  - split; [lia|]. split; [|split].
    + destruct (Z.eq_dec k 28) as [->|Hne].
      * change (36 + 28) with (63 + 1). rewrite rank_succ by lia.
        rewrite remove_md_rank, remove_md_bits by lia.
        destruct (Z.leb_spec 63 p); [lia|]. rewrite Hbit.
        change (63 + 1) with (36 + 28). rewrite Hrank. reflexivity.
      * rewrite remove_md_rank by lia. rewrite Hbit.
        destruct (Z.leb_spec (36 + k) p); [exact Hrank|].
        rewrite rank_succ, Hrank, Hupper by lia. reflexivity.
    + intros i Hi. rewrite remove_md_bits by lia.
      destruct (Z.ltb_spec i 63); [|lia].
      destruct (Z.ltb_spec i p); apply Hupper; lia.
    + rewrite remove_md_bits by lia. cbn.
      destruct (Z.eqb_spec k 0); [lia|reflexivity].
  - assert (Hp35 : p < 35 + k).
    { destruct (Z.lt_ge_cases p (35 + k)); [assumption|].
      rewrite Hupper in Hbit by lia. discriminate. }
    split; [lia|]. split; [|split].
    + rewrite remove_md_rank by lia. rewrite Hbit.
      destruct (Z.leb_spec (36 + (k - 1)) p); [lia|].
      replace (36 + (k - 1) + 1) with (36 + k) by lia. rewrite Hrank. reflexivity.
    + intros i Hi. rewrite remove_md_bits by lia.
      destruct (Z.ltb_spec i 63); [|lia].
      destruct (Z.ltb_spec i p); apply Hupper; lia.
    + rewrite remove_md_bits by lia. cbn.
      destruct (Z.eqb_spec (k - 1) 0); [lia|reflexivity].
Qed.

(** ** [remove_tags] and [vqf_remove] *)

Lemma match_mask_ctz_bit filter tag b m :
  generate_match_mask filter tag b = Some m -> m <> 0 ->
  exists t, __builtin_ctzll m = Some t /\ 0 <= t < 28 /\ Z.testbit m t = true.
Proof.
  intros Hm Hne. destruct (generate_match_mask_bound _ _ _ _ Hm) as [Hpos Hlt].
  unfold __builtin_ctzll. destruct (Z.eqb_spec m 0); [contradiction|].
  eexists. split; [reflexivity|].
  assert (Hlog : Z.testbit m (Z.log2 m) = true) by (apply Z.bit_log2; lia).
  pose proof (Z.log2_nonneg m) as Hl0.
  pose proof (Hlt _ Hl0 Hlog) as Hl28.
  destruct (tzcnt_loop_spec m 64 0 ltac:(lia)) as [Hr Hb].
  { exists (Z.log2 m). split; [lia|exact Hlog]. }
  split; [|exact Hb]. split; [lia|]. apply Hlt; [lia|exact Hb].
Qed.

(** A slot the scanner reports holds one of the tags the block counts. *)
Lemma mask_bit_below_count filter tag b blk k m t :
  0 <= b ->
  blocks filter !! Z.to_nat (b / QUQU_BUCKETS_PER_BLOCK) = Some blk ->
  md_shape (md blk) k ->
  generate_match_mask filter tag b = Some m ->
  0 <= t -> Z.testbit m t = true -> t < k.
Proof.
  intros Hb Hblk Hshape Hm Ht Hbit.
  assert (Ho : 0 <= b mod QUQU_BUCKETS_PER_BLOCK < 36)
    by (apply Z.mod_pos_bound; reflexivity).
  destruct (md_shape_select _ _ _ Hshape Ho) as (s & Hs & _ & Hsk).
  destruct (run_bounds_exists _ _ _ Hs) as (a & Hrun).
  pose proof (run_bounds_le _ _ _ _ Hrun) as Hae.
  destruct Hshape as (Hk & _).
  rewrite (generate_match_mask_run filter tag b blk _ _ Hb Hblk Hrun) in Hm by lia.
  injection Hm as <-. rewrite match_mask_bits in Hbit by lia.
  apply andb_prop in Hbit as [Hin _]. apply andb_prop in Hin as [_ Hlt].
  apply Z.ltb_lt in Hlt. lia.
Qed.

Lemma low_order_None index :
  ~ 0 <= index < 64 -> low_order_pdep_table index = None.
Proof.
  intros Hout. unfold low_order_pdep_table.
  destruct (Z.leb_spec 0 index), (Z.ltb_spec index 64); try reflexivity. lia.
Qed.

(** A [remove_tags] that returns false found nothing and changed nothing. *)
Lemma remove_tags_false_inv filter tag b filter' :
  remove_tags filter tag b = Some (filter', false) ->
  generate_match_mask filter tag b = Some 0 /\ filter' = filter.
Proof.
  unfold remove_tags. cbv zeta.
  destruct (generate_match_mask filter tag b) as [m|]; [|discriminate]. obind.
  destruct (Z.eqb_spec m 0) as [->|Hne]; cbn [negb].
  - intros [= <-]. auto.
  - destruct (blocks filter !! _) as [blk|]; [|discriminate]. obind.
    destruct (__builtin_ctzll m) as [t|]; [|discriminate]. obind.
    destruct (remove_tags_512 _ _ _) as [tags'|]; [|discriminate]. obind.
    destruct (remove_md _ _) as [md'|]; discriminate.
Qed.

(** A [remove_tags] that returns true found the tag at a slot [t] from 4
    on, in a block that is not the last one: it took out the cell at slot
    [t - 4] and the bit [t + offset - 8] of the metadata word. *)
Lemma remove_tags_true_inv filter tag b filter' :
  wf_filter filter -> 0 <= b ->
  remove_tags filter tag b = Some (filter', true) ->
  exists blk m t c,
    blocks filter !! Z.to_nat (b / QUQU_BUCKETS_PER_BLOCK) = Some blk
    /\ generate_match_mask filter tag b = Some m
    /\ __builtin_ctzll m = Some t /\ Z.testbit m t = true
    /\ 4 <= t < 28 /\ 8 <= t + b mod QUQU_BUCKETS_PER_BLOCK
    /\ cell_after (blocks filter) (Z.to_nat (b / QUQU_BUCKETS_PER_BLOCK)) = Some c
    /\ filter' =
       {| metadata := metadata filter;
          blocks :=
            <[Z.to_nat (b / QUQU_BUCKETS_PER_BLOCK) :=
                {| md := Z.lor (_pext_u64 (md blk)
                                  (Z.lxor UINT64_MAX
                                     (Z.shiftl 1 (t + b mod QUQU_BUCKETS_PER_BLOCK - 8))))
                               (Z.shiftl 1 63);
                   tags := take (Z.to_nat (t - 4)) (tags blk)
                             ++ drop (Z.to_nat (t - 3)) (tags blk) ++ [c] |}]>
              (blocks filter) |}.
Proof.
  intros Hwf Hb. unfold remove_tags. cbv zeta.
  destruct (generate_match_mask filter tag b) as [m|] eqn:Hm; [|discriminate]. obind.
  destruct (Z.eqb_spec m 0) as [->|Hne]; cbn [negb]; [discriminate|].
  destruct (blocks filter !! _) as [blk|] eqn:Hblk; [|discriminate]. obind.
  destruct (match_mask_ctz_bit _ _ _ _ Hm Hne) as (t & Hctz & Ht & Hbit).
  rewrite Hctz. obind.
  destruct (wf_filter_lookup _ _ _ Hwf Hblk) as [_ Hlen].
  destruct (remove_tags_512 _ _ _) as [tags'|] eqn:Htags; [|discriminate]. obind.
  destruct (remove_tags_512_inv _ _ _ _ Hlen Ht Htags) as (Ht4 & c & Hc & -> & _).
  assert (Ho : 0 <= b mod QUQU_BUCKETS_PER_BLOCK < 36)
    by (apply Z.mod_pos_bound; reflexivity).
  destruct (Z.lt_ge_cases (t + b mod QUQU_BUCKETS_PER_BLOCK) 8) as [Hlow|Hhigh].
  - assert (Hidx : u8 (u64 (t + b mod QUQU_BUCKETS_PER_BLOCK - 8))
                   = t + b mod QUQU_BUCKETS_PER_BLOCK + 248).
    { unfold u8, u64. change (2 ^ 8) with 256.
      change (2 ^ 64) with 18446744073709551616.
      rewrite <- (Z.mod_unique (t + b mod QUQU_BUCKETS_PER_BLOCK - 8)
                    18446744073709551616 (-1)
                    (t + b mod QUQU_BUCKETS_PER_BLOCK - 8 + 18446744073709551616))
        by lia.
      symmetry. apply (Z.mod_unique _ 256 72057594037927935); lia. }
    rewrite Hidx. unfold remove_md. rewrite low_order_None by lia. discriminate.
  - rewrite (u64_id (t + b mod QUQU_BUCKETS_PER_BLOCK - 8))
      by (change (2 ^ 64) with 18446744073709551616; lia).
    rewrite (u8_id (t + b mod QUQU_BUCKETS_PER_BLOCK - 8)) by lia.
    unfold remove_md. rewrite low_order_eq by lia. obind.
    intros [= <-]. exists blk, m, t, c. repeat split; auto; lia.
Qed.

Lemma remove_tags_ok filter tag b filter' found :
  filter_ok filter -> 0 <= b ->
  remove_tags filter tag b = Some (filter', found) ->
  filter_ok filter'.
Proof.
  intros Hok Hb Hrem. destruct found.
  2:{ destruct (remove_tags_false_inv _ _ _ _ Hrem) as [_ ->]. exact Hok. }
  pose proof Hok as [Hwf Hall].
  destruct (remove_tags_true_inv _ _ _ _ Hwf Hb Hrem)
    as (blk & m & t & c & Hblk & Hm & _ & Hbit & Ht & Hto & _ & ->).
  destruct (filter_ok_lookup _ _ _ Hok Hblk) as ([Hmd Hlen] & k & Hk).
  assert (Ht0 : 0 <= t) by lia.
  pose proof (mask_bit_below_count _ _ _ _ _ _ _ Hb Hblk Hk Hm Ht0 Hbit) as Htk.
  assert (Ho : 0 <= b mod QUQU_BUCKETS_PER_BLOCK < 36)
    by (apply Z.mod_pos_bound; reflexivity).
  destruct Hwf as (Hkrb & Hrange & Hblocks).
  split; [split; [exact Hkrb|split; [exact Hrange|]]|]; cbn [blocks metadata].
  - apply Forall_insert; [exact Hblocks|]. split; cbn [md tags].
    + apply remove_md_range. lia.
    + rewrite !length_app, length_take, length_drop, Hlen. cbn [length]. lia.
  - apply Forall_insert; [exact Hall|]. cbn [md].
    eexists. apply (md_shape_remove _ k); [exact Hk|lia|].
    destruct (Z.testbit (md blk) _); lia.
Qed.

(** A removal that returns keeps the invariant. *)
Lemma vqf_remove_ok filter hash filter' found :
  filter_ok filter -> 0 <= hash ->
  vqf_remove filter hash = Some (filter', found) ->
  filter_ok filter'.
Proof.
  intros Hok Hh. pose proof Hok as [Hwf _]. unfold vqf_remove. cbv zeta.
  destruct (alt_index filter hash) as [alt|] eqn:Halt; [|discriminate]. obind.
  pose proof (primary_index_nonneg filter hash Hwf Hh) as Hp0.
  pose proof (alt_index_nonneg _ _ _ Hwf Halt) as Ha0.
  destruct (remove_tags filter _ (primary_index filter hash)) as [[f1 r1]|] eqn:H1;
    [|discriminate]. obind.
  pose proof (remove_tags_ok _ _ _ _ _ Hok Hp0 H1) as Hok1.
  destruct r1.
  - intros [= <- <-]. exact Hok1.
  - intros H2. exact (remove_tags_ok _ _ _ _ _ Hok1 Ha0 H2).
Qed.

Lemma reachable_ok filter : reachable filter -> filter_ok filter.
Proof.
  induction 1 as [nslots heap|filter hash val filter' ok _ IH Hh Hnot Hins
                  |filter hash filter' ok _ IH Hh Hrem].
  - apply vqf_init_ok.
  - exact (vqf_insert_val_ok _ _ _ _ _ IH Hh Hnot Hins).
  - exact (vqf_remove_ok _ _ _ _ IH (proj1 Hh) Hrem).
Qed.

(** ** The invariant by evaluation *)

Lemma md_shapeb_ok x k : md_shapeb x k = true -> md_shape x k.
Proof.
  unfold md_shapeb. intros H.
  apply andb_prop in H as [H Htop]. apply andb_prop in H as [H Hones].
  apply andb_prop in H as [H Hrank]. apply andb_prop in H as [Hk0 Hk28].
  apply Z.leb_le in Hk0, Hk28. apply Z.eqb_eq in Hrank.
  apply Bool.eqb_prop in Htop.
  split; [lia|]. split; [exact Hrank|]. split; [|exact Htop].
  intros i Hi. rewrite forallb_forall in Hones.
  rewrite <- (Z2Nat.id i) by lia. apply Hones.
  apply in_seq. lia.
Qed.

Lemma block_okb_ok blk :
  block_okb blk = true -> wf_block blk /\ exists k, md_shape (md blk) k.
Proof.
  unfold block_okb. intros H.
  apply andb_prop in H as [H Hex]. apply andb_prop in H as [H Hlen].
  apply andb_prop in H as [Hmd0 Hmd64].
  apply Z.leb_le in Hmd0. apply Z.ltb_lt in Hmd64. apply Nat.eqb_eq in Hlen.
  split; [split; [lia|exact Hlen]|].
  apply existsb_exists in Hex as (k & _ & Hk).
  exists (Z.of_nat k). apply md_shapeb_ok. exact Hk.
Qed.

Lemma filter_okb_ok filter : filter_okb filter = true -> filter_ok filter.
Proof.
  unfold filter_okb. intros H.
  apply andb_prop in H as [H Hblocks]. apply andb_prop in H as [H Hr64].
  apply andb_prop in H as [Hkrb Hr0].
  apply Z.eqb_eq in Hkrb. apply Z.leb_le in Hr0. apply Z.ltb_lt in Hr64.
  rewrite forallb_forall in Hblocks.
  split; [split; [exact Hkrb|split; [lia|]]|].
  - apply Forall_forall. intros blk Hin.
    apply (block_okb_ok blk). apply Hblocks. apply list_elem_of_In. exact Hin.
  - apply Forall_forall. intros blk Hin.
    apply (block_okb_ok blk). apply Hblocks. apply list_elem_of_In. exact Hin.
Qed.

(** ** Sequences of operations *)

Lemma run_inserts_reachable ops : forall filter filter' oks,
  reachable filter -> safe_inserts ops filter ->
  run_inserts ops filter = Some (filter', oks) ->
  reachable filter'.
Proof.
  induction ops as [|[hash val] ops IH]; intros filter filter' oks Hreach Hsafe.
  - intros [= <- <-]. exact Hreach.
  - destruct Hsafe as (Hh & Hnot & Hrest). cbn [run_inserts].
    destruct (vqf_insert_val filter hash val) as [[f1 ok]|] eqn:Hins;
      [|discriminate]. obind.
    destruct (run_inserts ops f1) as [[f2 oks']|] eqn:Hrun; [|discriminate]. obind.
    intros [= <- <-].
    apply (IH f1 f2 oks'); [|exact (Hrest _ _ eq_refl)|exact Hrun].
    exact (reach_insert _ _ _ _ _ Hreach Hh Hnot Hins).
Qed.
(** ** Claims *)

(** C1 at a failing input: 27 insertions of 0x100, one of 0x200 and one of
    0x000 all return true (the three hashes have tag 0, so that their two
    buckets coincide, in block 0); the last one finds block 0 full, and
    pushes the cell of 0x200 out of the tag vector.  [vqf_is_present] then
    answers false for 0x200, which was inserted and never removed. *)
Theorem false_negative_after_full_block :
  exists filter,
    run_inserts (replicate 27 (0x100, 1) ++ [(0x200, 2); (0x000, 3)])
      (vqf_init 1024 zero_heap) = Some (filter, replicate 29 true)
    /\ vqf_is_present filter 0x200 = Some false.
Proof.
  eexists. split; [vm_compute; reflexivity|]. vm_compute. reflexivity.
Qed.

(** C2 (value round trip): when [vqf_insert_val filter hash val] returns
    true and, before the call, neither candidate bucket of [hash] held a
    cell with the tag of [hash], then [vqf_query] on the resulting filter
    returns true and sets its out-parameter to [val], the upper 8 bits of
    the 16-bit cell that was stored. *)
Theorem value_round_trip filter hash val alt filter' out :
  wf_filter filter -> 0 <= hash < 2 ^ 64 -> 0 <= val < 256 ->
  alt_index filter hash = Some alt ->
  generate_match_mask filter (Z.land hash TAG_MASK) (primary_index filter hash) = Some 0 ->
  generate_match_mask filter (Z.land hash TAG_MASK) alt = Some 0 ->
  vqf_insert_val filter hash val = Some (filter', true) ->
  vqf_query filter' hash out = Some (true, val).
Proof. apply insert_then_query. Qed.

Lemma value_round_trip_witness :
  exists filter',
    vqf_insert_val (vqf_init 1024 zero_heap) 0x2A 7 = Some (filter', true)
    /\ vqf_query filter' 0x2A 0 = Some (true, 7).
Proof.
  eexists. split; [vm_compute; reflexivity|].
  apply (value_round_trip (vqf_init 1024 zero_heap) 0x2A 7 558 _ 0).
  - apply vqf_init_wf.
  - lia.
  - lia.
  - vm_compute. reflexivity.
  - vm_compute. reflexivity.
  - vm_compute. reflexivity.
  - vm_compute. reflexivity.
Defined.

(** C3 at a failing input: the first 22 insertions of 0x101 go to its
    primary bucket (bucket 1, block 0), the 23rd finds fewer than 43 set
    bits in the metadata word of block 0 and goes to the alternate bucket
    (bucket 868, block 24).  [vqf_query_iter] returns the 22 values of the
    primary bucket and stops: the value 23, which [retrieve_values] finds
    in the alternate bucket, is not collected. *)
Theorem query_iter_skips_alternate :
  exists filter,
    run_inserts (map (fun v => (0x101, Z.of_nat v)) (seq 1 23))
      (vqf_init 1024 zero_heap) = Some (filter, replicate 23 true)
    /\ primary_index filter 0x101 = 1 /\ alt_index filter 0x101 = Some 868
    /\ retrieve_values filter 1 868 [] = Some (true, [23])
    /\ vqf_query_iter filter 0x101 []
       = Some (true, map Z.of_nat (seq 1 22)).
Proof.
  eexists. split; [vm_compute; reflexivity|].
  eval_conj.
Qed.

(** C4 at a failing input: after one insertion of 0x2A into a fresh filter
    the scanner finds the tag at slot 0; [remove_tags_512] takes 4 from
    that index in [uint8_t] and calls [memmove] outside the tag vector:
    the behaviour of [vqf_remove] is undefined. *)
Theorem remove_after_insert_undefined :
  exists filter,
    vqf_insert (vqf_init 1024 zero_heap) 0x2A = Some (filter, true)
    /\ generate_match_mask filter 0x2A 0 = Some 1
    /\ vqf_remove filter 0x2A = None.
Proof.
  eexists. split; [vm_compute; reflexivity|].
  eval_conj.
Qed.

(** C5, as the claim states it, fails: an insertion that returns true
    leaves [nelts] at 0. *)
Lemma nelts_not_incremented :
  exists filter',
    vqf_insert_val (vqf_init 1024 zero_heap) 0x2A 7 = Some (filter', true)
    /\ nelts (metadata filter') <> nelts (metadata (vqf_init 1024 zero_heap)) + 1.
Proof. eexists. split; [vm_compute; reflexivity|]. vm_compute. discriminate. Qed.

(** C5 (amended): [vqf_insert] and [vqf_insert_val] never write the
    metadata: after any sequence of insertions (lookups return no filter)
    [nelts] has the value it had before, 0 after [vqf_init], whatever the
    number of insertions that returned true. *)
Theorem inserts_keep_nelts ops filter filter' oks :
  run_inserts ops filter = Some (filter', oks) ->
  metadata filter' = metadata filter
  /\ nelts (metadata filter') = nelts (metadata filter).
Proof.
  intros Hrun. assert (Hmeta : metadata filter' = metadata filter);
    [|split; [exact Hmeta|now rewrite Hmeta]].
  revert filter filter' oks Hrun.
  induction ops as [|[hash val] ops IH]; intros filter filter' oks Hrun.
  - injection Hrun as <- _. reflexivity.
  - cbn [run_inserts] in Hrun.
    destruct (vqf_insert_val filter hash val) as [[f1 ok]|] eqn:Hins;
      [|discriminate].
    cbn [mbind option_bind] in Hrun.
    destruct (run_inserts ops f1) as [[f2 oks']|] eqn:Hrest; [|discriminate].
    cbn [mbind option_bind] in Hrun. injection Hrun as <- _.
    rewrite (IH _ _ _ Hrest). exact (vqf_insert_val_metadata _ _ _ _ _ Hins).
Qed.

Lemma inserts_keep_nelts_witness :
  exists filter' oks,
    run_inserts [(0x2A, 7); (0x12B, 3)] (vqf_init 1024 zero_heap) = Some (filter', oks)
    /\ oks = [true; true]
    /\ nelts (metadata filter') = 0.
Proof.
  eexists _, _. split; [vm_compute; reflexivity|]. split; [reflexivity|].
  refine (proj2 (inserts_keep_nelts [(0x2A, 7); (0x12B, 3)]
                   (vqf_init 1024 zero_heap) _ [true; true] _)).
  vm_compute. reflexivity.
Defined.

(** C6 at a failing input: after 28 insertions of 0x100 block 0 is full
    (its metadata word has 36 set bits) and holds both buckets of the hash
    0x000; [vqf_insert] of 0x000 returns true, and the metadata word and the
    tag vector of block 0 are not what they were: the word is left with 35
    set bits and the last cell is lost. *)
Theorem full_block_insert_same_block :
  exists filter blk filter' blk',
    run_inserts (replicate 28 (0x100, 1)) (vqf_init 1024 zero_heap)
      = Some (filter, replicate 28 true)
    /\ primary_index filter 0x000 = 0 /\ alt_index filter 0x000 = Some 0
    /\ blocks filter !! 0%nat = Some blk
    /\ get_block_free_space (md blk) = QUQU_BUCKETS_PER_BLOCK
    /\ tags blk = replicate 28 256
    /\ vqf_insert filter 0x000 = Some (filter', true)
    /\ blocks filter' !! 0%nat = Some blk'
    /\ get_block_free_space (md blk') = 35
    /\ tags blk' = 0 :: replicate 27 256.
Proof.
  eexists _, _, _, _. split; [vm_compute; reflexivity|].
  eval_conj.
Qed.

(** C7, as the claim states it, fails in the first reachable state: the
    metadata words [vqf_init] writes have 63 set bits among their low 63
    bits, not 36. *)
Lemma init_popcount_not_36 :
  reachable (vqf_init 1024 zero_heap)
  /\ exists blk,
       blocks (vqf_init 1024 zero_heap) !! 0%nat = Some blk
       /\ __builtin_popcountll (Z.land (md blk) (2 ^ 63 - 1)) = 63
       /\ __builtin_popcountll (Z.land (md blk) (2 ^ 63 - 1))
          <> QUQU_BUCKETS_PER_BLOCK.
Proof.
  split; [apply reach_init|]. eexists. split; [reflexivity|].
  split; [reflexivity|discriminate].
Qed.

(** C7 (amended): in every filter reached from [vqf_init] by insertions
    and by removals that return, the insertions on a full block that holds
    both buckets of the hash left out, every metadata word has [63 - k] set
    bits among its low 63 bits for some [k] from 0 to 28 (63 after
    [vqf_init]; an insertion takes one from the count, a removal gives one
    back where the bit it takes out of the word is a zero); the whole word
    has at least 36 and at most 63 set bits, its low 63 bits at least 35. *)
Theorem reachable_md_popcount filter blk :
  reachable filter -> blk ∈ blocks filter ->
  (exists k, 0 <= k <= 28
     /\ __builtin_popcountll (Z.land (md blk) (2 ^ 63 - 1)) = 63 - k
     /\ __builtin_popcountll (md blk) = if k =? 0 then 63 else 64 - k)
  /\ 36 <= __builtin_popcountll (md blk) <= 63
  /\ 35 <= __builtin_popcountll (Z.land (md blk) (2 ^ 63 - 1)) <= 63.
Proof.
  intros Hreach Hin. apply reachable_ok in Hreach.
  apply list_elem_of_lookup in Hin. destruct Hin as (i & Hi).
  destruct (filter_ok_lookup _ _ _ Hreach Hi) as ([Hmd _] & k & Hk).
  split; [|split].
  - exists k. split; [apply Hk|]. split.
    + rewrite popcount_low63. apply md_shape_rank63. exact Hk.
    + apply md_shape_popcount; assumption.
  - exact (md_shape_popcount_range _ _ Hmd Hk).
  - exact (md_shape_low63 _ _ Hk).
Qed.

Lemma reachable_md_popcount_witness :
  exists filter filter' blk,
    run_inserts [(0x801, 1); (0x802, 2); (0x803, 3); (0x804, 4); (0x805, 5)]
      (vqf_init 1024 zero_heap)
    = Some (filter, [true; true; true; true; true])
    /\ vqf_remove filter 0x805 = Some (filter', true)
    /\ blocks filter' !! 0%nat = Some blk
    /\ 36 <= __builtin_popcountll (md blk) <= 63
    /\ 35 <= __builtin_popcountll (Z.land (md blk) (2 ^ 63 - 1)) <= 63.
Proof.
  eexists _, _, _. split; [vm_compute; reflexivity|].
  split; [vm_compute; reflexivity|]. split; [vm_compute; reflexivity|].
  refine (proj2 (reachable_md_popcount _ _ _ _)).
  - eapply (reach_remove _ 0x805 _ true).
    + eapply (run_inserts_reachable
                [(0x801, 1); (0x802, 2); (0x803, 3); (0x804, 4); (0x805, 5)]
                (vqf_init 1024 zero_heap)).
      * apply reach_init.
      * do 5 safe_inserts_step. exact I.
      * vm_compute. reflexivity.
    + lia.
    + vm_compute. reflexivity.
  - apply list_elem_of_lookup. exists 0%nat. vm_compute. reflexivity.
Defined.

(** C8, as the claim states it, fails: for one requested slot the source
    allocates one block, and the rounded-up quotient is two. *)
Lemma init_nblocks_not_ceil :
  nblocks (metadata (vqf_init 1 zero_heap)) = 1
  /\ ceil_div (1 + QUQU_SLOTS_PER_BLOCK) QUQU_SLOTS_PER_BLOCK = 2.
Proof. split; reflexivity. Qed.

(** C8 (amended): for every requested number of slots whose sizes fit 64 bits,
    [vqf_init] returns a filter with [nblocks] the quotient of
    [requested + 28] by 28 rounded down (one more than [requested / 28]), with
    [nslots = nblocks * 28], [range = nblocks * 36 * 2 ^ 8], [nelts = 0],
    [nblocks] blocks, and every metadata word equal to [2 ^ 63 - 1]. *)
Theorem vqf_init_spec requested heap :
  0 <= requested ->
  (requested + QUQU_SLOTS_PER_BLOCK) / QUQU_SLOTS_PER_BLOCK
    * QUQU_BUCKETS_PER_BLOCK * 2 ^ TAG_BITS < 2 ^ 64 ->
  let filter := vqf_init requested heap in
  let m := metadata filter in
  nblocks m = (requested + QUQU_SLOTS_PER_BLOCK) / QUQU_SLOTS_PER_BLOCK
  /\ nblocks m = requested / QUQU_SLOTS_PER_BLOCK + 1
  /\ nslots m = nblocks m * QUQU_SLOTS_PER_BLOCK
  /\ range m = nblocks m * QUQU_BUCKETS_PER_BLOCK * 2 ^ TAG_BITS
  /\ nelts m = 0
  /\ length (blocks filter) = Z.to_nat (nblocks m)
  /\ (forall blk, blk ∈ blocks filter -> md blk = 2 ^ 63 - 1).
Proof.
  intros Hn Hfit. cbv zeta.
  unfold QUQU_SLOTS_PER_BLOCK, QUQU_BUCKETS_PER_BLOCK, TAG_BITS in *.
  change (2 ^ 8) with 256 in *. change (2 ^ 64) with 18446744073709551616 in Hfit.
  assert (Hq : 0 <= (requested + 28) / 28) by (apply Z.div_pos; lia).
  assert (Hsmall : requested + 28 < 18446744073709551616).
  { pose proof (Z.mul_div_le (requested + 28) 28 ltac:(lia)).
    pose proof (Z.mod_pos_bound (requested + 28) 28 ltac:(lia)).
    pose proof (Z.div_mod (requested + 28) 28 ltac:(lia)). lia. }
  assert (Hnb : nblocks (metadata (vqf_init requested heap)) = (requested + 28) / 28).
  { unfold vqf_init. cbn [metadata nblocks]. unfold QUQU_SLOTS_PER_BLOCK.
    rewrite u64_id; [reflexivity|].
    change (2 ^ 64) with 18446744073709551616. lia. }
  split; [exact Hnb|]. rewrite Hnb.
  split. { replace (requested + 28) with (requested + 1 * 28) by lia.
           apply Z.div_add. lia. }
  unfold vqf_init. cbn [metadata nblocks nelts range nslots blocks].
  unfold QUQU_SLOTS_PER_BLOCK, QUQU_BUCKETS_PER_BLOCK.
  rewrite (u64_id (requested + 28))
    by (change (2 ^ 64) with 18446744073709551616; lia).
  split. { apply u64_id. change (2 ^ 64) with 18446744073709551616. lia. }
  split. { change (u64 (Z.shiftl 1 8)) with 256.
           rewrite (u64_id ((requested + 28) / 28 * 36))
             by (change (2 ^ 64) with 18446744073709551616; lia).
           apply u64_id. change (2 ^ 64) with 18446744073709551616. lia. }
  split; [reflexivity|].
  split. { rewrite length_map, length_seq. reflexivity. }
  intros blk Hin. apply list_elem_of_In in Hin. apply in_map_iff in Hin.
  destruct Hin as (i & <- & _). exact init_md.
Qed.

Lemma vqf_init_spec_witness :
  let m := metadata (vqf_init 1024 zero_heap) in
  nblocks m = 37 /\ nslots m = 1036 /\ range m = 340992 /\ nelts m = 0
  /\ length (blocks (vqf_init 1024 zero_heap)) = 37%nat.
Proof.
  pose proof (vqf_init_spec 1024 zero_heap ltac:(lia) ltac:(vm_compute; reflexivity))
    as (H1 & _ & H3 & H4 & H5 & H6 & _).
  cbv zeta in *. rewrite H3, H4, H6, H1. repeat split; try reflexivity; exact H5.
Defined.

(** C9, as the claim states it, fails: on the word [vqf_init] writes,
    [update_md] and [remove_md] both turn bit 63 from 0 to 1. *)
Lemma md_top_bit_changes :
  Z.testbit (2 ^ 63 - 1) 63 = false
  /\ (exists md', update_md (2 ^ 63 - 1) 0 = Some md' /\ Z.testbit md' 63 = true)
  /\ (exists md', remove_md (2 ^ 63 - 1) 0 = Some md' /\ Z.testbit md' 63 = true).
Proof.
  split; [reflexivity|].
  split; eexists; (split; [vm_compute; reflexivity|reflexivity]).
Qed.

(** C9 (amended): for every metadata word and every position from 0 to 62,
    [update_md] puts the old bit 62 into bit 63, and [remove_md] sets bit
    63; so the top bit is unchanged by [update_md] when bits 62 and 63
    agree, and by [remove_md] when it was set. *)
Theorem md_top_bit md index :
  0 <= index <= 62 ->
  (exists md', update_md md index = Some md'
               /\ Z.testbit md' 63 = Z.testbit md 62)
  /\ (exists md', remove_md md index = Some md' /\ Z.testbit md' 63 = true).
Proof.
  intros Hi. split.
  - exists (_pdep_u64 md (Z.lxor UINT64_MAX (Z.shiftl 1 index))). split.
    + unfold update_md. rewrite low_order_eq by lia. reflexivity.
    + rewrite update_md_bits by lia.
      destruct (Z.ltb_spec 63 index), (Z.eqb_spec 63 index); try lia. reflexivity.
  - exists (Z.lor (_pext_u64 md (Z.lxor UINT64_MAX (Z.shiftl 1 index))) (Z.shiftl 1 63)).
    split.
    + unfold remove_md. rewrite low_order_eq by lia. reflexivity.
    + rewrite Z.lor_spec.
      replace (Z.testbit (Z.shiftl 1 63) 63) with true by reflexivity.
      apply orb_true_r.
Qed.

Lemma md_top_bit_witness :
  (exists md', update_md (2 ^ 64 - 1) 5 = Some md' /\ Z.testbit md' 63 = true)
  /\ (exists md', remove_md (2 ^ 64 - 1) 5 = Some md' /\ Z.testbit md' 63 = true).
Proof. exact (md_top_bit (2 ^ 64 - 1) 5 ltac:(lia)). Defined.

(** C10 (plain insert): [vqf_insert] makes the same state change and
    returns the same boolean as [vqf_insert_val] with value 0; the cell it
    stores is the tag alone, its upper byte is 0, and a query that finds
    this cell reports the value 0. *)
Theorem vqf_insert_default_val filter hash :
  vqf_insert filter hash = vqf_insert_val filter hash 0
  /\ u16 (stored_tag hash 0) = Z.land hash TAG_MASK
  /\ u8 (Z.shiftr (u16 (stored_tag hash 0)) 8) = 0
  /\ (forall alt filter' out,
        wf_filter filter -> 0 <= hash < 2 ^ 64 ->
        alt_index filter hash = Some alt ->
        generate_match_mask filter (Z.land hash TAG_MASK)
          (primary_index filter hash) = Some 0 ->
        generate_match_mask filter (Z.land hash TAG_MASK) alt = Some 0 ->
        vqf_insert filter hash = Some (filter', true) ->
        vqf_query filter' hash out = Some (true, 0)).
Proof.
  split; [reflexivity|]. split; [|split].
  - unfold stored_tag. change (u64 (Z.shiftl 0 8)) with 0. rewrite Z.lor_0_r.
    unfold u16, TAG_MASK. change 255 with (Z.ones 8). rewrite Z.land_ones by lia.
    pose proof (Z.mod_pos_bound hash (2 ^ 8) ltac:(lia)).
    apply Z.mod_small. change (2 ^ 8) with 256 in *. change (2 ^ 16) with 65536. lia.
  - apply stored_cell_val. lia.
  - intros alt filter' out Hwf Hh Halt Hp Ha Hins.
    apply (insert_then_query filter hash 0 alt filter' out); auto. lia.
Qed.

Lemma vqf_insert_default_val_witness :
  exists filter',
    vqf_insert (vqf_init 1024 zero_heap) 0x2A = Some (filter', true)
    /\ vqf_query filter' 0x2A 5 = Some (true, 0).
Proof.
  eexists. split; [vm_compute; reflexivity|].
  apply (proj2 (proj2 (proj2 (vqf_insert_default_val (vqf_init 1024 zero_heap) 0x2A)))
           558 _ 5).
  - apply vqf_init_wf.
  - lia.
  - vm_compute. reflexivity.
  - vm_compute. reflexivity.
  - vm_compute. reflexivity.
  - vm_compute. reflexivity.
Defined.

(** * Further properties of the filter *)

(** ** Select on a metadata word *)

(** X1: [word_select val rank] is the position of the set bit of [val]
    that has [rank] set bits below it, and 64 when [val] has no more than
    [rank] set bits. *)
Theorem word_select_position val r :
  0 <= r < 64 ->
  (forall s, is_select val r s -> word_select val r = Some s)
  /\ (rank val 64 <= r -> word_select val r = Some 64).
Proof.
  intros Hr. split.
  - intros s. apply word_select_found.
  - apply word_select_none. exact Hr.
Qed.

Lemma word_select_position_witness :
  word_select 22 1 = Some 2 /\ word_select 22 3 = Some 64.
Proof.
  split.
  - apply (proj1 (word_select_position 22 1 ltac:(lia)) 2).
    split; [lia|]. split; reflexivity.
  - apply (proj2 (word_select_position 22 3 ltac:(lia))).
    apply Z.leb_le. reflexivity.
Defined.

(** X2: [lookup_64] and [select_64] give the slot at which the run of a
    bucket ends, moved up by 4: for the set bit at position [s] with
    [rank] set bits below it, the single bit [s - rank + 4] and its index;
    [select_64] is 64 when the word has no more than [rank] set bits. *)
Theorem select_64_position x o :
  0 <= o < 64 ->
  (forall s, is_select x o s -> s - o < 60 ->
             lookup_64 x o = Some (2 ^ (s - o + 4))
             /\ select_64 x o = Some (s - o + 4))
  /\ (rank x 64 <= o -> select_64 x o = Some 64).
Proof.
  intros Ho. split.
  - intros s Hs Hlt. split.
    + apply lookup_64_select; assumption.
    + apply select_64_select; assumption.
  - apply select_64_none. exact Ho.
Qed.

Lemma select_64_position_witness :
  (lookup_64 22 1 = Some 32 /\ select_64 22 1 = Some 5)
  /\ select_64 22 3 = Some 64.
Proof.
  split.
  - apply (proj1 (select_64_position 22 1 ltac:(lia)) 2); [|lia].
    split; [lia|]. split; reflexivity.
  - apply (proj2 (select_64_position 22 3 ltac:(lia))).
    apply Z.leb_le. reflexivity.
Defined.

(** ** The metadata word *)

(** X3: [update_md md index] puts a zero at bit [index]: the bits below
    keep their place, the bits from [index] on move up by one, and the old
    bit 63 is dropped. *)
Theorem update_md_inserts_zero x p :
  0 <= p < 64 ->
  exists x',
    update_md x p = Some x'
    /\ 0 <= x' < 2 ^ 64
    /\ forall i, 0 <= i ->
         Z.testbit x' i =
         (i <? 64) && (if i <? p then Z.testbit x i
                       else if i =? p then false else Z.testbit x (i - 1)).
Proof.
  intros Hp. unfold update_md. rewrite low_order_eq by exact Hp. obind.
  eexists. split; [reflexivity|]. split; [apply pdep_range|].
  intros i Hi. apply update_md_bits; assumption.
Qed.

Lemma update_md_inserts_zero_witness :
  exists x',
    update_md 22 1 = Some x'
    /\ 0 <= x' < 2 ^ 64
    /\ forall i, 0 <= i ->
         Z.testbit x' i =
         (i <? 64) && (if i <? 1 then Z.testbit 22 i
                       else if i =? 1 then false else Z.testbit 22 (i - 1)).
Proof. exact (update_md_inserts_zero 22 1 ltac:(lia)). Defined.

(** X4: [remove_md md index] takes bit [index] out: the bits below keep
    their place, the bits above move down by one, and bit 63 is set. *)
Theorem remove_md_deletes_bit x p :
  0 <= p < 64 ->
  exists x',
    remove_md x p = Some x'
    /\ forall j, 0 <= j ->
         Z.testbit x' j =
         if j <? 63 then Z.testbit x (if j <? p then j else j + 1) else j =? 63.
Proof.
  intros Hp. unfold remove_md. rewrite low_order_eq by exact Hp. obind.
  eexists. split; [reflexivity|].
  intros j Hj. apply remove_md_bits; assumption.
Qed.

Lemma remove_md_deletes_bit_witness :
  exists x',
    remove_md 22 1 = Some x'
    /\ forall j, 0 <= j ->
         Z.testbit x' j =
         if j <? 63 then Z.testbit 22 (if j <? 1 then j else j + 1) else j =? 63.
Proof. exact (remove_md_deletes_bit 22 1 ltac:(lia)). Defined.

(** X5: [remove_md] after [update_md] at the same index gives the word
    back except for bit 63, which is set whatever it was. *)
Theorem remove_md_after_update_md x p :
  0 <= p < 64 ->
  update_md x p ≫= (fun y => remove_md y p)
  = Some (Z.lor (x mod 2 ^ 63) (2 ^ 63)).
Proof. apply remove_after_update. Qed.

Lemma remove_md_after_update_md_witness :
  update_md (2 ^ 63 - 1) 5 ≫= (fun y => remove_md y 5) = Some (2 ^ 64 - 1).
Proof. exact (remove_md_after_update_md (2 ^ 63 - 1) 5 ltac:(lia)). Defined.

(** X6: [update_md] after [remove_md] at an index whose bit is clear
    gives the word back. *)
Theorem update_md_after_remove_md x p :
  0 <= x < 2 ^ 64 -> 0 <= p < 64 -> Z.testbit x p = false ->
  remove_md x p ≫= (fun y => update_md y p) = Some x.
Proof. apply update_after_remove. Qed.

Lemma update_md_after_remove_md_witness :
  remove_md 21 1 ≫= (fun y => update_md y 1) = Some 21.
Proof.
  apply (update_md_after_remove_md 21 1); [lia|lia|reflexivity].
Defined.

(** ** The tag vector *)

(** X7: [update_tags_512 block index tag] with [index - 4] a slot of the
    block writes [tag] there, moves the cells from that slot on up by one
    and drops the last cell; with [index - 4] beyond the 28 slots the
    [memmove] leaves the array. *)
Theorem update_tags_512_layout tags t tag :
  length tags = 28%nat -> 0 <= t <= 60 ->
  (t <= 27 ->
   exists tags',
     update_tags_512 tags (t + 4) tag = Some tags'
     /\ length tags' = 28%nat
     /\ forall i, 0 <= i < 28 ->
          tags' !! Z.to_nat i =
          if i <? t then tags !! Z.to_nat i
          else if i =? t then Some tag else tags !! Z.to_nat (i - 1))
  /\ (28 <= t -> update_tags_512 tags (t + 4) tag = None).
Proof.
  intros Hlen Ht. split.
  - intros Ht27. exists (shift_insert tags t tag).
    split; [apply update_tags_512_ok; [exact Hlen|lia]|].
    split; [apply shift_insert_length; [exact Hlen|lia]|].
    intros i Hi. rewrite shift_insert_lookup by (try exact Hlen; lia).
    destruct (i <? t); [reflexivity|]. destruct (i =? t); [reflexivity|].
    destruct (Z.ltb_spec i 28); [reflexivity|lia].
  - intros Ht28. apply update_tags_512_overflow; [exact Hlen|lia].
Qed.

Lemma update_tags_512_layout_witness :
  (exists tags',
     update_tags_512 (replicate 28 7) 6 9 = Some tags'
     /\ length tags' = 28%nat
     /\ forall i, 0 <= i < 28 ->
          tags' !! Z.to_nat i =
          if i <? 2 then replicate 28 7 !! Z.to_nat i
          else if i =? 2 then Some 9 else replicate 28 7 !! Z.to_nat (i - 1))
  /\ update_tags_512 (replicate 28 7) 34 9 = None.
Proof.
  split.
  - apply (proj1 (update_tags_512_layout (replicate 28 7) 2 9 eq_refl ltac:(lia))).
    lia.
  - apply (proj2 (update_tags_512_layout (replicate 28 7) 30 9 eq_refl ltac:(lia))).
    lia.
Defined.

(** ** The match scanner *)

(** X8: bit [i] of the mask [generate_match_mask] returns is set exactly
    when slot [i] lies in the run of the bucket and the low byte of its
    cell is the tag. *)
Theorem match_mask_characterised filter tag b blk a e :
  0 <= b ->
  blocks filter !! Z.to_nat (b / QUQU_BUCKETS_PER_BLOCK) = Some blk ->
  run_bounds (md blk) (b mod QUQU_BUCKETS_PER_BLOCK) a e -> e < 60 ->
  exists m,
    generate_match_mask filter tag b = Some m
    /\ forall i, 0 <= i ->
         Z.testbit m i
         = (a <=? i) && (i <? e) && ((i <? 28) && cell_matches (tags blk) tag i).
Proof.
  intros Hb Hblk Hrun He. pose proof (run_bounds_le _ _ _ _ Hrun) as Hae.
  eexists. split; [exact (generate_match_mask_run _ tag _ _ _ _ Hb Hblk Hrun He)|].
  intros i Hi. apply match_mask_bits; assumption.
Qed.

Lemma match_mask_characterised_witness :
  exists filter blk,
    run_inserts [(0x02A, 7); (0x12A, 5); (0x12B, 6); (0x12A, 9)]
      (vqf_init 1024 zero_heap)
    = Some (filter, [true; true; true; true])
    /\ blocks filter !! 0%nat = Some blk
    /\ exists m,
         generate_match_mask filter 0x2A 1 = Some m
         /\ (forall i, 0 <= i ->
               Z.testbit m i
               = (1 <=? i) && (i <? 4)
                 && ((i <? 28) && cell_matches (tags blk) 0x2A i))
         /\ map (Z.testbit m) [0; 1; 2; 3; 4] = [false; true; false; true; false].
Proof.
  eexists _, _. split; [vm_compute; reflexivity|].
  split; [vm_compute; reflexivity|].
  match goal with
  | |- exists m, generate_match_mask ?F _ _ = _ /\ (forall i, _ -> _ = _ && (_ && cell_matches (tags ?B) _ _)) /\ _ =>
      destruct (match_mask_characterised F 0x2A 1 B 1 4) as (m & Hm & Hbits)
  end.
  - lia.
  - vm_compute. reflexivity.
  - split.
    + exists 5. split; [|reflexivity]. split; [lia|]. split; reflexivity.
    + exists 1. split; [|reflexivity]. split; [lia|]. split; reflexivity.
  - lia.
  - exists m. split; [exact Hm|]. split; [exact Hbits|].
    cbn [map]. rewrite !Hbits by lia. vm_compute. reflexivity.
Defined.

(** ** Lookups *)

(** X9: on a well-formed filter, [vqf_query] and [vqf_query_iter] return
    the boolean [vqf_is_present] returns. *)
Theorem lookups_return_same_boolean filter hash found :
  wf_filter filter ->
  vqf_is_present filter hash = Some found ->
  (forall value, exists value', vqf_query filter hash value = Some (found, value'))
  /\ (forall values, exists values',
        vqf_query_iter filter hash values = Some (found, values')).
Proof. apply lookups_agree. Qed.

Lemma lookups_return_same_boolean_witness :
  (forall value, exists value',
      vqf_query (vqf_init 1024 zero_heap) 0x2A value = Some (false, value'))
  /\ (forall values, exists values',
        vqf_query_iter (vqf_init 1024 zero_heap) 0x2A values = Some (false, values')).
Proof.
  apply (lookups_return_same_boolean (vqf_init 1024 zero_heap) 0x2A false).
  - apply vqf_init_wf.
  - vm_compute. reflexivity.
Defined.

(** X10: [retrieve_values] returns whether the mask of the bucket is not
    zero and appends, in slot order, the upper byte of every cell the mask
    selects. *)
Theorem retrieve_values_collects filter tag b blk m values :
  blocks filter !! Z.to_nat (b / QUQU_BUCKETS_PER_BLOCK) = Some blk ->
  length (tags blk) = 28%nat ->
  generate_match_mask filter tag b = Some m ->
  retrieve_values filter tag b values
  = Some (negb (m =? 0), values ++ high_bytes (tags blk) m).
Proof. apply retrieve_values_spec. Qed.

Lemma retrieve_values_collects_witness :
  exists filter,
    run_inserts [(0x02A, 7); (0x12A, 5); (0x12B, 6); (0x12A, 9)]
      (vqf_init 1024 zero_heap)
    = Some (filter, [true; true; true; true])
    /\ generate_match_mask filter 0x2A 1 = Some 10
    /\ retrieve_values filter 0x2A 1 [1] = Some (true, [1; 5; 9]).
Proof.
  eexists. split; [vm_compute; reflexivity|].
  split; [vm_compute; reflexivity|].
  match goal with
  | |- retrieve_values ?F _ _ _ = _ =>
      let blk := eval vm_compute in (blocks F !! 0%nat) in
      match blk with
      | Some ?B =>
          refine (eq_trans (retrieve_values_collects F 0x2A 1 B 10 [1] _ _ _) _)
      end
  end.
  - vm_compute. reflexivity.
  - reflexivity.
  - vm_compute. reflexivity.
  - vm_compute. reflexivity.
Defined.

(** X11: a [vqf_query] that returns false leaves the value it was handed
    as it was. *)
Theorem query_miss_keeps_value filter hash val val' :
  vqf_query filter hash val = Some (false, val') -> val' = val.
Proof. apply vqf_query_false. Qed.

Lemma query_miss_keeps_value_witness :
  exists val',
    vqf_query (vqf_init 1024 zero_heap) 0x2A 9 = Some (false, val') /\ val' = 9.
Proof.
  eexists. split; [vm_compute; reflexivity|].
  apply (query_miss_keeps_value (vqf_init 1024 zero_heap) 0x2A 9 9).
  vm_compute. reflexivity.
Defined.

(** ** Insertion followed by a lookup *)

(** X12: a hash whose insertion returned true is present right after. *)
Theorem inserted_hash_is_present filter hash val filter' :
  wf_filter filter -> 0 <= hash < 2 ^ 64 ->
  vqf_insert_val filter hash val = Some (filter', true) ->
  vqf_is_present filter' hash = Some true.
Proof. apply insert_then_present. Qed.

Lemma inserted_hash_is_present_witness :
  exists filter',
    vqf_insert_val (vqf_init 1024 zero_heap) 0x2A 7 = Some (filter', true)
    /\ vqf_is_present filter' 0x2A = Some true.
Proof.
  eexists. split; [vm_compute; reflexivity|].
  apply (inserted_hash_is_present (vqf_init 1024 zero_heap) 0x2A 7).
  - apply vqf_init_wf.
  - lia.
  - vm_compute. reflexivity.
Defined.

(** X13: after a hash whose tag neither of its buckets held is inserted
    with a value, [vqf_query_iter] returns true and appends this value and
    nothing else. *)
Theorem query_iter_after_insert filter hash val alt filter' values :
  wf_filter filter -> 0 <= hash < 2 ^ 64 -> 0 <= val < 256 ->
  alt_index filter hash = Some alt ->
  generate_match_mask filter (Z.land hash TAG_MASK) (primary_index filter hash) = Some 0 ->
  generate_match_mask filter (Z.land hash TAG_MASK) alt = Some 0 ->
  vqf_insert_val filter hash val = Some (filter', true) ->
  vqf_query_iter filter' hash values = Some (true, values ++ [val]).
Proof. apply insert_then_query_iter. Qed.

Lemma query_iter_after_insert_witness :
  exists filter',
    vqf_insert_val (vqf_init 1024 zero_heap) 0x2A 7 = Some (filter', true)
    /\ vqf_query_iter filter' 0x2A [1; 2] = Some (true, [1; 2] ++ [7]).
Proof.
  eexists. split; [vm_compute; reflexivity|].
  apply (query_iter_after_insert (vqf_init 1024 zero_heap) 0x2A 7 558 _ [1; 2]).
  - apply vqf_init_wf.
  - lia.
  - lia.
  - vm_compute. reflexivity.
  - vm_compute. reflexivity.
  - vm_compute. reflexivity.
  - vm_compute. reflexivity.
Defined.

(** ** What an insertion changes *)

(** X14: an insertion that returns leaves the filter well formed, does not
    touch the metadata or the number of blocks, and changes no block but
    the one of the primary or of the alternate bucket. *)
Theorem insert_changes_one_block filter hash val filter' ok :
  wf_filter filter -> 0 <= hash < 2 ^ 64 ->
  vqf_insert_val filter hash val = Some (filter', ok) ->
  wf_filter filter'
  /\ metadata filter' = metadata filter
  /\ length (blocks filter') = length (blocks filter)
  /\ exists b,
       (b = primary_index filter hash \/ alt_index filter hash = Some b)
       /\ forall i, i <> Z.to_nat (b / QUQU_BUCKETS_PER_BLOCK) ->
                    blocks filter' !! i = blocks filter !! i.
Proof.
  intros Hwf Hh Hins.
  destruct (vqf_insert_val_frame _ _ _ _ _ Hwf Hh Hins) as (b & Hb & Hrest & Hlen & Hm).
  split; [exact (vqf_insert_val_wf _ _ _ _ _ Hwf Hh Hins)|].
  split; [exact Hm|]. split; [exact Hlen|]. exists b. auto.
Qed.

Lemma insert_changes_one_block_witness :
  exists filter',
    vqf_insert_val (vqf_init 1024 zero_heap) 0x2A 7 = Some (filter', true)
    /\ wf_filter filter'
    /\ metadata filter' = metadata (vqf_init 1024 zero_heap)
    /\ length (blocks filter') = length (blocks (vqf_init 1024 zero_heap))
    /\ exists b,
         (b = primary_index (vqf_init 1024 zero_heap) 0x2A
          \/ alt_index (vqf_init 1024 zero_heap) 0x2A = Some b)
         /\ forall i, i <> Z.to_nat (b / QUQU_BUCKETS_PER_BLOCK) ->
                      blocks filter' !! i = blocks (vqf_init 1024 zero_heap) !! i.
Proof.
  eexists. split; [vm_compute; reflexivity|].
  apply (insert_changes_one_block (vqf_init 1024 zero_heap) 0x2A 7 _ true).
  - apply vqf_init_wf.
  - lia.
  - vm_compute. reflexivity.
Defined.

(** X15: a hash that is present stays present when another tag is
    inserted, unless that insertion goes to a full block that holds both
    its buckets. *)
Theorem insert_keeps_others_present filter hash val filter' ok h2 :
  filter_ok filter -> 0 <= hash < 2 ^ 64 ->
  ~ same_block_full filter hash ->
  vqf_insert_val filter hash val = Some (filter', ok) ->
  0 <= h2 ->
  vqf_is_present filter h2 = Some true ->
  vqf_is_present filter' h2 = Some true.
Proof. apply insert_keeps_present. Qed.

Lemma insert_keeps_others_present_witness :
  exists f1 f2,
    vqf_insert_val (vqf_init 1024 zero_heap) 0x2A 7 = Some (f1, true)
    /\ vqf_insert_val f1 0x12B 3 = Some (f2, true)
    /\ vqf_is_present f2 0x2A = Some true.
Proof.
  eexists _, _. split; [vm_compute; reflexivity|].
  split; [vm_compute; reflexivity|].
  eapply (insert_keeps_others_present _ 0x12B 3 _ true 0x2A).
  - apply (vqf_insert_val_ok (vqf_init 1024 zero_heap) 0x2A 7 _ true).
    + apply vqf_init_ok.
    + lia.
    + intros (alt & blk & Halt & Hsame & _).
      vm_compute in Halt. injection Halt as <-. vm_compute in Hsame. discriminate.
    + vm_compute. reflexivity.
  - lia.
  - intros (alt & blk & Halt & Hsame & _).
    vm_compute in Halt. injection Halt as <-. vm_compute in Hsame. discriminate.
  - vm_compute. reflexivity.
  - lia.
  - vm_compute. reflexivity.
Defined.

(** X16: at the end of a sequence of insertions none of which goes to a
    full block that holds both its buckets, every hash whose insertion
    returned true is present. *)
Theorem inserted_hashes_stay_present ops filter filter' oks i hash val :
  filter_ok filter -> safe_inserts ops filter ->
  run_inserts ops filter = Some (filter', oks) ->
  ops !! i = Some (hash, val) -> oks !! i = Some true ->
  vqf_is_present filter' hash = Some true.
Proof. apply run_inserts_present. Qed.

Lemma inserted_hashes_stay_present_witness :
  exists filter',
    run_inserts [(0x2A, 7); (0x12B, 3)] (vqf_init 1024 zero_heap)
    = Some (filter', [true; true])
    /\ vqf_is_present filter' 0x2A = Some true.
Proof.
  eexists. split; [vm_compute; reflexivity|].
  apply (inserted_hashes_stay_present [(0x2A, 7); (0x12B, 3)]
           (vqf_init 1024 zero_heap) _ [true; true] 0%nat 0x2A 7).
  - apply vqf_init_ok.
  - split; [lia|]. split.
    + intros (alt & blk & Halt & Hsame & _).
      vm_compute in Halt. injection Halt as <-. vm_compute in Hsame. discriminate.
    + intros f1 ok1 Hins. vm_compute in Hins. injection Hins as <- <-.
      split; [lia|]. split; [|intros; exact I].
      intros (alt & blk & Halt & Hsame & _).
      vm_compute in Halt. injection Halt as <-. vm_compute in Hsame. discriminate.
  - vm_compute. reflexivity.
  - reflexivity.
  - reflexivity.
Defined.

(** ** When an insertion returns, and what it returns *)

(** X17: on a filter that meets the invariant, the insertion of a hash
    below [range] returns (no table, block or cell is read or written out
    of bounds), unless both its buckets lie in one full block. *)
Theorem insert_returns filter hash val :
  filter_ok filter -> range_ok filter ->
  0 <= hash < range (metadata filter) ->
  ~ same_block_full filter hash ->
  exists filter' ok, vqf_insert_val filter hash val = Some (filter', ok).
Proof. apply vqf_insert_val_defined. Qed.

Lemma insert_returns_witness :
  exists filter' ok,
    vqf_insert_val (vqf_init 1024 zero_heap) 0x2A 7 = Some (filter', ok).
Proof.
  apply (insert_returns (vqf_init 1024 zero_heap) 0x2A 7).
  - apply vqf_init_ok.
  - apply vqf_init_range_ok; [lia|vm_compute; reflexivity].
  - vm_compute. split; [discriminate|reflexivity].
  - intros (alt & blk & Halt & Hsame & _).
    vm_compute in Halt. injection Halt as <-. vm_compute in Hsame. discriminate.
Defined.

(** X18: on a filter that meets the invariant, [vqf_insert_val] returns
    false exactly when the two buckets lie in different blocks that are
    both full, and the filter is then left as it was. *)
Theorem insert_refused_iff_both_full filter hash val :
  filter_ok filter ->
  ((exists filter', vqf_insert_val filter hash val = Some (filter', false))
   <-> exists alt pblk ablk,
         alt_index filter hash = Some alt
         /\ primary_index filter hash / QUQU_BUCKETS_PER_BLOCK
            <> alt / QUQU_BUCKETS_PER_BLOCK
         /\ blocks filter
              !! Z.to_nat (primary_index filter hash / QUQU_BUCKETS_PER_BLOCK)
            = Some pblk
         /\ blocks filter !! Z.to_nat (alt / QUQU_BUCKETS_PER_BLOCK) = Some ablk
         /\ get_block_free_space (md pblk) = QUQU_BUCKETS_PER_BLOCK
         /\ get_block_free_space (md ablk) = QUQU_BUCKETS_PER_BLOCK)
  /\ forall filter',
       vqf_insert_val filter hash val = Some (filter', false) -> filter' = filter.
Proof.
  intros Hok. split; [split|].
  - intros (filter' & Hins). exact (vqf_insert_val_refused _ _ _ _ Hok Hins).
  - intros (alt & pblk & ablk & Halt & Hdiff & Hp & Ha & Hfp & Hfa).
    exists filter.
    exact (full_blocks_insert_refused _ _ val _ _ _ Halt Hdiff Hp Ha Hfp Hfa).
  - intros filter'. apply vqf_insert_val_false.
Qed.

Lemma insert_refused_iff_both_full_witness :
  exists filter,
    run_inserts (replicate 56 (0x101, 1)) (vqf_init 28 zero_heap)
    = Some (filter, replicate 56 true)
    /\ map (fun blk => get_block_free_space (md blk)) (blocks filter) = [36; 36]
    /\ vqf_insert_val filter 0x101 2 = Some (filter, false).
Proof.
  eexists. split; [vm_compute; reflexivity|].
  split; [vm_compute; reflexivity|].
  match goal with
  | |- vqf_insert_val ?F _ _ = _ =>
      let pblk := eval vm_compute in (blocks F !! 0%nat) in
      let ablk := eval vm_compute in (blocks F !! 1%nat) in
      let alt := eval vm_compute in (alt_index F 0x101) in
      match constr:((pblk, ablk, alt)) with
      | (Some ?P, Some ?A, Some ?a) =>
          destruct (insert_refused_iff_both_full F 0x101 2) as [[_ Hfull] Hsame];
          [ apply filter_okb_ok; vm_compute; reflexivity
          | destruct Hfull as (filter' & Hins);
            [ exists a, P, A; split; [vm_compute; reflexivity|];
              split; [vm_compute; discriminate|]; eval_conj
            | rewrite (Hsame filter' Hins) in Hins; exact Hins ] ]
      end
  end.
Defined.

(** X19: with [QUQU_CHECK_ALT] set bits or more in the metadata word of
    the primary block, or with both buckets in one block, an insertion
    that returns returns true and changes the primary block only. *)
Theorem primary_bucket_taken filter hash val alt pblk filter' ok :
  wf_filter filter -> 0 <= hash < 2 ^ 64 ->
  alt_index filter hash = Some alt ->
  blocks filter !! Z.to_nat (primary_index filter hash / QUQU_BUCKETS_PER_BLOCK)
    = Some pblk ->
  QUQU_CHECK_ALT <= get_block_free_space (md pblk)
  \/ primary_index filter hash / QUQU_BUCKETS_PER_BLOCK = alt / QUQU_BUCKETS_PER_BLOCK ->
  vqf_insert_val filter hash val = Some (filter', ok) ->
  ok = true
  /\ insert_at filter (primary_index filter hash) (stored_tag hash val) = Some filter'
  /\ forall i,
       i <> Z.to_nat (primary_index filter hash / QUQU_BUCKETS_PER_BLOCK) ->
       blocks filter' !! i = blocks filter !! i.
Proof.
  intros Hwf Hh Halt Hp Hcase Hins.
  pose proof (choose_bucket_primary filter _ alt pblk Hp Hcase) as Hch.
  destruct ok.
  - destruct (vqf_insert_val_inv _ _ _ _ Hins) as (alt' & b & Halt' & Hch' & Hat).
    rewrite Halt in Halt'. injection Halt' as <-.
    rewrite Hch in Hch'. injection Hch' as <-.
    split; [reflexivity|]. split; [exact Hat|].
    pose proof (primary_index_nonneg filter hash Hwf ltac:(lia)) as Hp0.
    destruct (insert_at_inv _ _ _ _ Hwf Hp0 Hat) as (blk & s & _ & _ & _ & ->).
    intros i Hi. cbn [blocks]. apply list_lookup_insert_ne. auto.
  - destruct (vqf_insert_val_false_inv _ _ _ _ Hins) as (alt' & Halt' & Hch').
    rewrite Halt in Halt'. injection Halt' as <-.
    rewrite Hch in Hch'. discriminate.
Qed.

Lemma primary_bucket_taken_witness :
  exists filter',
    vqf_insert_val (vqf_init 1024 zero_heap) 0x2A 7 = Some (filter', true)
    /\ insert_at (vqf_init 1024 zero_heap) (primary_index (vqf_init 1024 zero_heap) 0x2A)
         (stored_tag 0x2A 7) = Some filter'
    /\ forall i,
         i <> Z.to_nat (primary_index (vqf_init 1024 zero_heap) 0x2A
                        / QUQU_BUCKETS_PER_BLOCK) ->
         blocks filter' !! i = blocks (vqf_init 1024 zero_heap) !! i.
Proof.
  eexists. split; [vm_compute; reflexivity|].
  refine (proj2 (primary_bucket_taken (vqf_init 1024 zero_heap) 0x2A 7 558
                   {| md := 2 ^ 63 - 1; tags := replicate 28 0 |} _ true
                   (vqf_init_wf _ _) _ _ _ _ _)).
  - lia.
  - vm_compute. reflexivity.
  - vm_compute. reflexivity.
  - left. vm_compute. discriminate.
  - vm_compute. reflexivity.
Defined.

(** X20: where the alternate bucket lies in another block and the
    metadata word of the primary block has fewer than [QUQU_CHECK_ALT] set
    bits, the tag goes to the block whose metadata word has the larger
    number of set bits. *)
Theorem emptier_block_taken filter hash val alt pblk ablk filter' :
  alt_index filter hash = Some alt ->
  blocks filter !! Z.to_nat (primary_index filter hash / QUQU_BUCKETS_PER_BLOCK)
    = Some pblk ->
  blocks filter !! Z.to_nat (alt / QUQU_BUCKETS_PER_BLOCK) = Some ablk ->
  primary_index filter hash / QUQU_BUCKETS_PER_BLOCK <> alt / QUQU_BUCKETS_PER_BLOCK ->
  get_block_free_space (md pblk) < QUQU_CHECK_ALT ->
  vqf_insert_val filter hash val = Some (filter', true) ->
  exists b blk,
    insert_at filter b (stored_tag hash val) = Some filter'
    /\ blocks filter !! Z.to_nat (b / QUQU_BUCKETS_PER_BLOCK) = Some blk
    /\ get_block_free_space (md blk)
       = Z.max (get_block_free_space (md pblk)) (get_block_free_space (md ablk)).
Proof.
  intros Halt Hp Ha Hdiff Hlt Hins.
  destruct (vqf_insert_val_inv _ _ _ _ Hins) as (alt' & b & Halt' & Hch & Hat).
  rewrite Halt in Halt'. injection Halt' as <-.
  destruct (choose_bucket_max _ _ _ _ _ _ Hp Ha Hdiff Hlt Hch) as (blk & Hblk & Hmax).
  exists b, blk. auto.
Qed.

Lemma emptier_block_taken_witness :
  exists filter filter',
    run_inserts (replicate 22 (0x101, 1)) (vqf_init 1024 zero_heap)
    = Some (filter, replicate 22 true)
    /\ vqf_insert_val filter 0x101 2 = Some (filter', true)
    /\ exists b blk,
         insert_at filter b (stored_tag 0x101 2) = Some filter'
         /\ blocks filter !! Z.to_nat (b / QUQU_BUCKETS_PER_BLOCK) = Some blk
         /\ get_block_free_space (md blk) = 63.
Proof.
  eexists _, _. split; [vm_compute; reflexivity|].
  split; [vm_compute; reflexivity|].
  match goal with
  | |- exists b blk, insert_at ?F b _ = Some ?F' /\ _ =>
      let pblk := eval vm_compute in (blocks F !! 0%nat) in
      let ablk := eval vm_compute in (blocks F !! 24%nat) in
      match constr:((pblk, ablk)) with
      | (Some ?P, Some ?A) =>
          destruct (emptier_block_taken F 0x101 2 868 P A F')
            as (b & blk & Hat & Hblk & Hmax)
      end
  end.
  - vm_compute. reflexivity.
  - vm_compute. reflexivity.
  - vm_compute. reflexivity.
  - vm_compute. discriminate.
  - vm_compute. reflexivity.
  - vm_compute. reflexivity.
  - exists b, blk. split; [exact Hat|]. split; [exact Hblk|].
    rewrite Hmax. vm_compute. reflexivity.
Defined.

(** ** The filter [vqf_init] returns *)

(** X21: whatever the allocation held, no hash below [range] is found in
    the filter [vqf_init] returns: [vqf_is_present], [vqf_query],
    [vqf_query_iter] and [vqf_remove] return false, the value and the
    vector handed to the queries and the filter itself are left as they
    were. *)
Theorem fresh_filter_is_empty requested heap hash :
  0 <= requested ->
  (requested + QUQU_SLOTS_PER_BLOCK) / QUQU_SLOTS_PER_BLOCK
    * QUQU_BUCKETS_PER_BLOCK * 2 ^ TAG_BITS < 2 ^ 64 ->
  0 <= hash < range (metadata (vqf_init requested heap)) ->
  vqf_is_present (vqf_init requested heap) hash = Some false
  /\ (forall value, vqf_query (vqf_init requested heap) hash value = Some (false, value))
  /\ (forall values,
        vqf_query_iter (vqf_init requested heap) hash values = Some (false, values))
  /\ vqf_remove (vqf_init requested heap) hash = Some (vqf_init requested heap, false).
Proof.
  intros Hn Hfit Hh.
  destruct (vqf_init_empty requested heap hash Hn Hfit Hh) as (alt & Halt & Hp & Ha).
  destruct (absent_lookups _ _ _ Halt Hp Ha) as (Hpres & Hq & Hiter).
  split; [exact Hpres|]. split; [exact Hq|]. split.
  - intros values. apply Hiter. apply vqf_init_wf.
  - exact (vqf_remove_absent _ _ _ Halt Hp Ha).
Qed.

Lemma fresh_filter_is_empty_witness :
  let filter := vqf_init 1024 (fun _ _ => 0x2A) in
  vqf_is_present filter 0x2A = Some false
  /\ (forall value, vqf_query filter 0x2A value = Some (false, value))
  /\ (forall values, vqf_query_iter filter 0x2A values = Some (false, values))
  /\ vqf_remove filter 0x2A = Some (filter, false).
Proof.
  apply (fresh_filter_is_empty 1024 (fun _ _ => 0x2A) 0x2A).
  - lia.
  - vm_compute. reflexivity.
  - vm_compute. split; [discriminate|reflexivity].
Defined.

(** ** Removal *)

(** X22: [vqf_remove] of a hash whose tag neither of its buckets holds
    returns false and leaves the filter as it was; and a [vqf_remove] that
    returns false found the tag in neither bucket and left the filter as
    it was. *)
Theorem remove_absent_is_noop filter hash :
  (forall alt,
      alt_index filter hash = Some alt ->
      generate_match_mask filter (Z.land hash TAG_MASK) (primary_index filter hash)
        = Some 0 ->
      generate_match_mask filter (Z.land hash TAG_MASK) alt = Some 0 ->
      vqf_remove filter hash = Some (filter, false))
  /\ (forall filter',
        vqf_remove filter hash = Some (filter', false) ->
        filter' = filter
        /\ exists alt,
             alt_index filter hash = Some alt
             /\ generate_match_mask filter (Z.land hash TAG_MASK)
                  (primary_index filter hash) = Some 0
             /\ generate_match_mask filter (Z.land hash TAG_MASK) alt = Some 0).
Proof.
  split.
  - intros alt. apply vqf_remove_absent.
  - intros filter'. unfold vqf_remove. cbv zeta.
    destruct (alt_index filter hash) as [alt|]; [|discriminate]. obind.
    destruct (remove_tags filter _ (primary_index filter hash)) as [[f1 r1]|] eqn:H1;
      [|discriminate]. obind.
    destruct r1; [discriminate|].
    destruct (remove_tags_false_inv _ _ _ _ H1) as [Hp ->].
    intros H2. destruct (remove_tags_false_inv _ _ _ _ H2) as [Ha ->].
    split; [reflexivity|]. exists alt. auto.
Qed.

Lemma remove_absent_is_noop_witness :
  exists filter,
    vqf_insert_val (vqf_init 1024 zero_heap) 0x2A 7 = Some (filter, true)
    /\ vqf_remove filter 0x12B = Some (filter, false).
Proof.
  eexists. split; [vm_compute; reflexivity|].
  match goal with
  | |- vqf_remove ?F _ = _ =>
      let alt := eval vm_compute in (alt_index F 0x12B) in
      match alt with
      | Some ?a => apply (proj1 (remove_absent_is_noop F 0x12B) a)
      end
  end.
  - vm_compute. reflexivity.
  - vm_compute. reflexivity.
  - vm_compute. reflexivity.
Defined.

(** X27: a [remove_tags] that returns true found the tag at a slot [t]
    from 4 on, with [t + offset] 8 or more, in a block that is not the
    last one.  It did not take out the cell of slot [t] but the cell of
    slot [t - 4]: the cells above that one moved down by one and the last
    cell received the two low bytes of the metadata word of the next
    block.  From the metadata word it took bit [t + offset - 8] and set
    bit 63.  No other block and no field of the metadata changed. *)
Theorem remove_tags_effect filter tag b filter' :
  wf_filter filter -> 0 <= b ->
  remove_tags filter tag b = Some (filter', true) ->
  exists blk m t c,
    blocks filter !! Z.to_nat (b / QUQU_BUCKETS_PER_BLOCK) = Some blk
    /\ generate_match_mask filter tag b = Some m
    /\ __builtin_ctzll m = Some t /\ Z.testbit m t = true
    /\ 4 <= t < 28 /\ 8 <= t + b mod QUQU_BUCKETS_PER_BLOCK
    /\ cell_after (blocks filter) (Z.to_nat (b / QUQU_BUCKETS_PER_BLOCK)) = Some c
    /\ filter' =
       {| metadata := metadata filter;
          blocks :=
            <[Z.to_nat (b / QUQU_BUCKETS_PER_BLOCK) :=
                {| md := Z.lor (_pext_u64 (md blk)
                                  (Z.lxor UINT64_MAX
                                     (Z.shiftl 1 (t + b mod QUQU_BUCKETS_PER_BLOCK - 8))))
                               (Z.shiftl 1 63);
                   tags := take (Z.to_nat (t - 4)) (tags blk)
                             ++ drop (Z.to_nat (t - 3)) (tags blk) ++ [c] |}]>
              (blocks filter) |}.
Proof. apply remove_tags_true_inv. Qed.

Lemma remove_tags_effect_witness :
  exists filter filter',
    run_inserts [(0x801, 1); (0x802, 2); (0x803, 3); (0x804, 4); (0x805, 5)]
      (vqf_init 1024 zero_heap)
    = Some (filter, [true; true; true; true; true])
    /\ remove_tags filter 5 8 = Some (filter', true)
    /\ option_map (fun blk => take 6 (tags blk)) (blocks filter !! 0%nat)
       = Some [0x101; 0x202; 0x303; 0x404; 0x505; 0]
    /\ option_map (fun blk => take 6 (tags blk)) (blocks filter' !! 0%nat)
       = Some [0x202; 0x303; 0x404; 0x505; 0; 0]
    /\ option_map (fun blk => tags blk !! 27%nat) (blocks filter' !! 0%nat)
       = Some (Some 0xffff)
    /\ exists blk m t c,
         blocks filter !! Z.to_nat (8 / QUQU_BUCKETS_PER_BLOCK) = Some blk
         /\ generate_match_mask filter 5 8 = Some m
         /\ __builtin_ctzll m = Some t /\ Z.testbit m t = true
         /\ 4 <= t < 28 /\ 8 <= t + 8 mod QUQU_BUCKETS_PER_BLOCK
         /\ cell_after (blocks filter) (Z.to_nat (8 / QUQU_BUCKETS_PER_BLOCK)) = Some c
         /\ filter' =
            {| metadata := metadata filter;
               blocks :=
                 <[Z.to_nat (8 / QUQU_BUCKETS_PER_BLOCK) :=
                     {| md := Z.lor (_pext_u64 (md blk)
                                       (Z.lxor UINT64_MAX
                                          (Z.shiftl 1 (t + 8 mod QUQU_BUCKETS_PER_BLOCK - 8))))
                                    (Z.shiftl 1 63);
                        tags := take (Z.to_nat (t - 4)) (tags blk)
                                  ++ drop (Z.to_nat (t - 3)) (tags blk) ++ [c] |}]>
                   (blocks filter) |}.
Proof.
  eexists _, _. split; [vm_compute; reflexivity|].
  split; [vm_compute; reflexivity|]. split; [vm_compute; reflexivity|].
  split; [vm_compute; reflexivity|]. split; [vm_compute; reflexivity|].
  apply remove_tags_effect.
  - apply filter_okb_ok. vm_compute. reflexivity.
  - lia.
  - vm_compute. reflexivity.
Defined.

(** ** The invariant *)

(** X23: the filter [vqf_init] returns meets the invariant: its blocks are
    well formed, every metadata word has the shape of a block that holds
    no tag, and the buckets below [range] lie in its blocks. *)
Theorem init_invariant requested heap :
  0 <= requested ->
  (requested + QUQU_SLOTS_PER_BLOCK) / QUQU_SLOTS_PER_BLOCK
    * QUQU_BUCKETS_PER_BLOCK * 2 ^ TAG_BITS < 2 ^ 64 ->
  filter_ok (vqf_init requested heap)
  /\ range_ok (vqf_init requested heap)
  /\ Forall (fun blk => md_shape (md blk) 0) (blocks (vqf_init requested heap)).
Proof.
  intros Hn Hfit. split; [apply vqf_init_ok|].
  split; [apply vqf_init_range_ok; assumption|].
  apply Forall_forall. intros blk Hin.
  destruct (vqf_init_blocks _ _ _ Hin) as [-> _]. apply md_shape_init.
Qed.

Lemma init_invariant_witness :
  filter_ok (vqf_init 1024 zero_heap)
  /\ range_ok (vqf_init 1024 zero_heap)
  /\ Forall (fun blk => md_shape (md blk) 0) (blocks (vqf_init 1024 zero_heap)).
Proof.
  apply (init_invariant 1024 zero_heap); [lia|vm_compute; reflexivity].
Defined.

(** X24: an insertion that returns keeps the invariant, unless it goes to
    a full block that holds both buckets of the hash. *)
Theorem insert_keeps_invariant filter hash val filter' ok :
  filter_ok filter -> range_ok filter -> 0 <= hash < 2 ^ 64 ->
  ~ same_block_full filter hash ->
  vqf_insert_val filter hash val = Some (filter', ok) ->
  filter_ok filter' /\ range_ok filter'.
Proof.
  intros Hok Hr Hh Hnot Hins. split.
  - exact (vqf_insert_val_ok _ _ _ _ _ Hok Hh Hnot Hins).
  - exact (range_ok_insert _ _ _ _ _ (proj1 Hok) Hh Hr Hins).
Qed.

Lemma insert_keeps_invariant_witness :
  exists filter',
    vqf_insert_val (vqf_init 1024 zero_heap) 0x2A 7 = Some (filter', true)
    /\ filter_ok filter' /\ range_ok filter'.
Proof.
  eexists. split; [vm_compute; reflexivity|].
  apply (insert_keeps_invariant (vqf_init 1024 zero_heap) 0x2A 7 _ true).
  - apply vqf_init_ok.
  - apply vqf_init_range_ok; [lia|vm_compute; reflexivity].
  - lia.
  - intros (alt & blk & Halt & Hsame & _).
    vm_compute in Halt. injection Halt as <-. vm_compute in Hsame. discriminate.
  - vm_compute. reflexivity.
Defined.

(** ** Counting the tags of a block *)

(** X25: an insertion that returns true adds one tag to the block of the
    bucket it chose: the metadata word goes from the shape of a block with
    [k] tags to the shape of a block with [k + 1] tags, and
    [get_block_free_space], which is 63 on the word of an empty block and
    [64 - k] on the word of a block with [k > 0] tags, is [63 - k]
    afterwards. *)
Theorem insert_counts_tag filter hash val filter' :
  filter_ok filter -> 0 <= hash < 2 ^ 64 ->
  ~ same_block_full filter hash ->
  vqf_insert_val filter hash val = Some (filter', true) ->
  exists b blk blk' k,
    (b = primary_index filter hash \/ alt_index filter hash = Some b)
    /\ blocks filter !! Z.to_nat (b / QUQU_BUCKETS_PER_BLOCK) = Some blk
    /\ blocks filter' !! Z.to_nat (b / QUQU_BUCKETS_PER_BLOCK) = Some blk'
    /\ md_shape (md blk) k /\ md_shape (md blk') (k + 1)
    /\ get_block_free_space (md blk) = (if k =? 0 then 63 else 64 - k)
    /\ get_block_free_space (md blk') = 63 - k.
Proof. apply insert_counts. Qed.

Lemma insert_counts_tag_witness :
  exists filter',
    vqf_insert_val (vqf_init 1024 zero_heap) 0x2A 7 = Some (filter', true)
    /\ exists b blk blk' k,
         (b = primary_index (vqf_init 1024 zero_heap) 0x2A
          \/ alt_index (vqf_init 1024 zero_heap) 0x2A = Some b)
         /\ blocks (vqf_init 1024 zero_heap) !! Z.to_nat (b / QUQU_BUCKETS_PER_BLOCK)
            = Some blk
         /\ blocks filter' !! Z.to_nat (b / QUQU_BUCKETS_PER_BLOCK) = Some blk'
         /\ md_shape (md blk) k /\ md_shape (md blk') (k + 1)
         /\ get_block_free_space (md blk) = (if k =? 0 then 63 else 64 - k)
         /\ get_block_free_space (md blk') = 63 - k.
Proof.
  eexists. split; [vm_compute; reflexivity|].
  apply (insert_counts_tag (vqf_init 1024 zero_heap) 0x2A 7).
  - apply vqf_init_ok.
  - lia.
  - intros (alt & blk & Halt & Hsame & _).
    vm_compute in Halt. injection Halt as <-. vm_compute in Hsame. discriminate.
  - vm_compute. reflexivity.
Defined.

(** ** Select on a 128-bit vector *)

(** X26: for a rank below 64, [select_128_old vector rank] is the position
    of the set bit of the 128-bit vector that has [rank] set bits below
    it, and 128 when the vector has no more than [rank] set bits. *)
Theorem select_128_old_position vector r :
  0 <= vector < 2 ^ 128 -> 0 <= r < 64 ->
  (forall s, is_select_128 vector r s -> select_128_old vector r = Some s)
  /\ (rank vector 128 <= r -> select_128_old vector r = Some 128).
Proof.
  intros Hv Hr. split.
  - intros s. apply select_128_old_found; assumption.
  - apply select_128_old_none; assumption.
Qed.

Lemma select_128_old_position_witness :
  select_128_old (2 ^ 70 + 2 ^ 3) 0 = Some 3
  /\ select_128_old (2 ^ 70 + 2 ^ 3) 1 = Some 70
  /\ select_128_old (2 ^ 70 + 2 ^ 3) 2 = Some 128.
Proof.
  split; [|split].
  - apply (proj1 (select_128_old_position (2 ^ 70 + 2 ^ 3) 0
                    ltac:(vm_compute; split; [discriminate|reflexivity]) ltac:(lia)) 3).
    split; [lia|]. split; reflexivity.
  - apply (proj1 (select_128_old_position (2 ^ 70 + 2 ^ 3) 1
                    ltac:(vm_compute; split; [discriminate|reflexivity]) ltac:(lia)) 70).
    split; [lia|]. split; reflexivity.
  - apply (proj2 (select_128_old_position (2 ^ 70 + 2 ^ 3) 2
                    ltac:(vm_compute; split; [discriminate|reflexivity]) ltac:(lia))).
    apply Z.leb_le. reflexivity.
Defined.
